(** * Generation-state engine of the product-photography studio

    A shallow embedding of the state held by the [App] component
    (mode and sub-mode controls, per-feature operation statuses, per-feature
    undo/redo stacks, the session log and the explicit log selection) and of
    the handlers that update it, followed by the properties of the
    generation-state specification that were checked against them.

    Conventions of the embedding.
    - Every [useState] cell of [App] is a field of [State]; the
      [useRef] cells [generationIdCounter] and [currentFeatureKeyRef] are
      fields too.  A React setter is a functional update [setX f]; the
      value form [setX v] of the source is written [setX (val v)].
    - A handler is a function [State -> State] that applies the setters in
      source order to the state of the render it was created in; the updates
      of one handler are committed together.
    - An [async] handler is split at its [await]s: the synchronous prefix
      returns the new state and the closure of the pending continuation,
      and the continuations (resolved / rejected) are functions of that
      closure and of the state they are applied to.
    - [useEffect] bodies are applied by [commit] after every handler; the
      updates of a handler or of a continuation are batched into one render.
    - JavaScript [number]s that are counters are [nat]; [currentIndex] and
      pixel sizes are [Z]; [string | null] is [option string]. *)

From Stdlib Require Import ZArith List String Bool Lia.
From Stdlib Require Import Ascii Sorted.
Import ListNotations.
Local Open Scope string_scope.
Local Open Scope list_scope.
Local Open Scope Z_scope.

Set Implicit Arguments.

(** ** Type definitions *)

Inductive Mode := ModeBackground | ModeAiModel.
Inductive BackgroundSubMode := SubColor | SubScene.
Inductive ServiceBackgroundSubMode := SvcColor | SvcScene | SvcTransparent.
Inductive Gender := Any | Male | Female.
Inductive ModelSource := SrcAi | SrcCustom.
(** [''], ['Generating...'], ['Blending concepts...'] *)
Inductive LoadingStep := NotLoading | Generating | Blending.
Inductive AppTab := TabSettings | TabHistory.
Inductive GenStatus := StLoading | StDone.
Inductive ImageType := ImgProduct | ImgModel.

(** [keyof GenerationStacks] *)
Inductive FeatureKey :=
| BackgroundColor | BackgroundScene | BackgroundTransparent
| AiModelAi | AiModelCustom.

(** A [File] object is only stored, never inspected: a handle stands for it. *)
Definition File := nat.

Record ImageState := {
  url : option string;
  file : option File;
  originalWidth : Z;
  originalHeight : Z
}.

Record PromptBuilderSettings := {
  style : string;
  composition : string;
  lighting : string
}.

Record OperationStatus := {
  isLoading : LoadingStep;
  error : option string
}.

Record BackgroundStatuses := {
  bg_color : OperationStatus;
  bg_scene : OperationStatus;
  bg_transparent : OperationStatus
}.

Record AiModelStatuses := {
  am_ai : OperationStatus;
  am_custom : OperationStatus
}.

Record AiModelPromptLoading := {
  pl_ai : bool;
  pl_custom : bool
}.

Record GenerationStateSnapshot := {
  snap_mode : Mode;
  snap_backgroundSubMode : BackgroundSubMode;
  snap_modelSource : ModelSource;
  snap_backgroundColor : string;
  snap_scenePrompt : string;
  snap_aspectRatio : string;
  snap_promptEnhancer : bool;
  snap_aiGeneratedPrompt : string;
  snap_yourModelPrompt : string;
  snap_gender : Gender;
  snap_promptBuilder : PromptBuilderSettings;
  snap_aiGeneratedPromptEnhancer : bool;
  snap_yourModelPromptEnhancer : bool;
  snap_productImageUrl : option string;
  snap_modelImageUrl : option string
}.

Record SessionGeneration := {
  gen_id : nat;
  gen_src : option string;
  gen_status : GenStatus;
  gen_featureKey : FeatureKey;
  gen_snapshot : GenerationStateSnapshot
}.

Record GenerationStack := {
  images : list string;
  currentIndex : Z
}.

Record GenerationStacks := {
  background_color : GenerationStack;
  background_scene : GenerationStack;
  background_transparent : GenerationStack;
  ai_model_ai : GenerationStack;
  ai_model_custom : GenerationStack
}.

(** ** Equality tests *)

Definition Mode_eqb (a b : Mode) : bool :=
  match a, b with
  | ModeBackground, ModeBackground | ModeAiModel, ModeAiModel => true
  | _, _ => false
  end.

Definition BackgroundSubMode_eqb (a b : BackgroundSubMode) : bool :=
  match a, b with
  | SubColor, SubColor | SubScene, SubScene => true
  | _, _ => false
  end.

Definition ModelSource_eqb (a b : ModelSource) : bool :=
  match a, b with
  | SrcAi, SrcAi | SrcCustom, SrcCustom => true
  | _, _ => false
  end.

Definition AppTab_eqb (a b : AppTab) : bool :=
  match a, b with
  | TabSettings, TabSettings | TabHistory, TabHistory => true
  | _, _ => false
  end.

Definition FeatureKey_eqb (a b : FeatureKey) : bool :=
  match a, b with
  | BackgroundColor, BackgroundColor
  | BackgroundScene, BackgroundScene
  | BackgroundTransparent, BackgroundTransparent
  | AiModelAi, AiModelAi
  | AiModelCustom, AiModelCustom => true
  | _, _ => false
  end.

(** JavaScript truthiness of the values the handlers test. *)
Definition truthyStep (l : LoadingStep) : bool :=
  match l with NotLoading => false | _ => true end.

Definition truthyStr (s : string) : bool :=
  match s with EmptyString => false | _ => true end.

Definition truthyUrl (u : option string) : bool :=
  match u with Some s => truthyStr s | None => false end.

(** ** Keyed access to the per-feature objects *)

(** [statuses[key]] and [{ ...statuses, [key]: v }] *)
Definition bgGet (k : ServiceBackgroundSubMode) (s : BackgroundStatuses) : OperationStatus :=
  match k with
  | SvcColor => bg_color s
  | SvcScene => bg_scene s
  | SvcTransparent => bg_transparent s
  end.

Definition bgSet (k : ServiceBackgroundSubMode) (v : OperationStatus)
    (s : BackgroundStatuses) : BackgroundStatuses :=
  match k with
  | SvcColor => {| bg_color := v; bg_scene := bg_scene s; bg_transparent := bg_transparent s |}
  | SvcScene => {| bg_color := bg_color s; bg_scene := v; bg_transparent := bg_transparent s |}
  | SvcTransparent => {| bg_color := bg_color s; bg_scene := bg_scene s; bg_transparent := v |}
  end.

Definition amGet (k : ModelSource) (s : AiModelStatuses) : OperationStatus :=
  match k with SrcAi => am_ai s | SrcCustom => am_custom s end.

Definition amSet (k : ModelSource) (v : OperationStatus) (s : AiModelStatuses) : AiModelStatuses :=
  match k with
  | SrcAi => {| am_ai := v; am_custom := am_custom s |}
  | SrcCustom => {| am_ai := am_ai s; am_custom := v |}
  end.

Definition plGet (k : ModelSource) (s : AiModelPromptLoading) : bool :=
  match k with SrcAi => pl_ai s | SrcCustom => pl_custom s end.

Definition plSet (k : ModelSource) (v : bool) (s : AiModelPromptLoading) : AiModelPromptLoading :=
  match k with
  | SrcAi => {| pl_ai := v; pl_custom := pl_custom s |}
  | SrcCustom => {| pl_ai := pl_ai s; pl_custom := v |}
  end.

Definition getStack (k : FeatureKey) (s : GenerationStacks) : GenerationStack :=
  match k with
  | BackgroundColor => background_color s
  | BackgroundScene => background_scene s
  | BackgroundTransparent => background_transparent s
  | AiModelAi => ai_model_ai s
  | AiModelCustom => ai_model_custom s
  end.

Definition setStack (k : FeatureKey) (v : GenerationStack) (s : GenerationStacks)
    : GenerationStacks :=
  match k with
  | BackgroundColor =>
      {| background_color := v; background_scene := background_scene s;
         background_transparent := background_transparent s;
         ai_model_ai := ai_model_ai s; ai_model_custom := ai_model_custom s |}
  | BackgroundScene =>
      {| background_color := background_color s; background_scene := v;
         background_transparent := background_transparent s;
         ai_model_ai := ai_model_ai s; ai_model_custom := ai_model_custom s |}
  | BackgroundTransparent =>
      {| background_color := background_color s; background_scene := background_scene s;
         background_transparent := v;
         ai_model_ai := ai_model_ai s; ai_model_custom := ai_model_custom s |}
  | AiModelAi =>
      {| background_color := background_color s; background_scene := background_scene s;
         background_transparent := background_transparent s;
         ai_model_ai := v; ai_model_custom := ai_model_custom s |}
  | AiModelCustom =>
      {| background_color := background_color s; background_scene := background_scene s;
         background_transparent := background_transparent s;
         ai_model_ai := ai_model_ai s; ai_model_custom := v |}
  end.

(** [`background-${effectiveSubMode}`] and [`ai-model-${modelSource}`] *)
Definition backgroundKey (k : ServiceBackgroundSubMode) : FeatureKey :=
  match k with
  | SvcColor => BackgroundColor
  | SvcScene => BackgroundScene
  | SvcTransparent => BackgroundTransparent
  end.

Definition aiModelKey (m : ModelSource) : FeatureKey :=
  match m with SrcAi => AiModelAi | SrcCustom => AiModelCustom end.

Definition toService (b : BackgroundSubMode) : ServiceBackgroundSubMode :=
  match b with SubColor => SvcColor | SubScene => SvcScene end.

(** ** Initial states *)

Definition initialProductImage : ImageState :=
  {| url := None; file := None; originalWidth := 0; originalHeight := 0 |}.
Definition initialModelImage : ImageState :=
  {| url := None; file := None; originalWidth := 0; originalHeight := 0 |}.

Definition initialPromptBuilder : PromptBuilderSettings :=
  {| style := "Photorealistic"; composition := "Medium Shot"; lighting := "Natural Light" |}.

Definition initialOpStatus : OperationStatus := {| isLoading := NotLoading; error := None |}.
Definition initialBackgroundStatuses : BackgroundStatuses :=
  {| bg_color := initialOpStatus; bg_scene := initialOpStatus; bg_transparent := initialOpStatus |}.
Definition initialAiModelStatuses : AiModelStatuses :=
  {| am_ai := initialOpStatus; am_custom := initialOpStatus |}.
Definition initialAiModelPromptLoading : AiModelPromptLoading :=
  {| pl_ai := false; pl_custom := false |}.

Definition initialGenerationStack : GenerationStack := {| images := []; currentIndex := -1 |}.
Definition initialGenerationStacks : GenerationStacks :=
  {| background_color := {| images := []; currentIndex := currentIndex initialGenerationStack |};
     background_scene := {| images := []; currentIndex := currentIndex initialGenerationStack |};
     background_transparent := {| images := []; currentIndex := currentIndex initialGenerationStack |};
     ai_model_ai := {| images := []; currentIndex := currentIndex initialGenerationStack |};
     ai_model_custom := {| images := []; currentIndex := currentIndex initialGenerationStack |} |}.

(** ** The state of [App] *)

Record State := {
  mode : Mode;
  backgroundSubMode : BackgroundSubMode;
  uploadKey : nat;
  activeTab : AppTab;
  isMobileHistoryOpen : bool;
  newHistoryNotification : bool;
  productImage : ImageState;
  modelImage : ImageState;
  generationStacks : GenerationStacks;
  sessionGenerations : list SessionGeneration;
  activeGenerationId : option nat;
  generationIdCounter : nat;
  backgroundStatuses : BackgroundStatuses;
  aiModelStatuses : AiModelStatuses;
  isScenePromptLoading : bool;
  isAiModelPromptLoading : AiModelPromptLoading;
  backgroundColor : string;
  scenePrompt : string;
  aspectRatio : string;
  promptEnhancer : bool;
  modelSource : ModelSource;
  aiGeneratedPrompt : string;
  yourModelPrompt : string;
  gender : Gender;
  promptBuilder : PromptBuilderSettings;
  aiGeneratedPromptEnhancer : bool;
  yourModelPromptEnhancer : bool;
  currentFeatureKeyRef : FeatureKey
}.

Definition val {A : Type} (v : A) : A -> A := fun _ => v.

(** The functional update of one cell: the record is rebuilt from its
    projections with the chosen one replaced. *)
Definition etaState (s : State) : State :=
  Build_State (mode s) (backgroundSubMode s) (uploadKey s) (activeTab s)
    (isMobileHistoryOpen s) (newHistoryNotification s) (productImage s) (modelImage s)
    (generationStacks s) (sessionGenerations s) (activeGenerationId s)
    (generationIdCounter s) (backgroundStatuses s) (aiModelStatuses s)
    (isScenePromptLoading s) (isAiModelPromptLoading s) (backgroundColor s)
    (scenePrompt s) (aspectRatio s) (promptEnhancer s) (modelSource s)
    (aiGeneratedPrompt s) (yourModelPrompt s) (gender s) (promptBuilder s)
    (aiGeneratedPromptEnhancer s) (yourModelPromptEnhancer s) (currentFeatureKeyRef s).

Ltac cell_update proj :=
  let f := fresh "f" in
  let s := fresh "s" in
  intros f s;
  let e := eval cbv beta delta [etaState] in (etaState s) in
  match eval pattern (proj s) in e with
  | ?g _ => let r := eval cbv beta in (g (f (proj s))) in exact r
  end.

Definition setMode : (Mode -> Mode) -> State -> State.
Proof. cell_update mode. Defined.
Definition setBackgroundSubMode : (BackgroundSubMode -> BackgroundSubMode) -> State -> State.
Proof. cell_update backgroundSubMode. Defined.
Definition setUploadKey : (nat -> nat) -> State -> State.
Proof. cell_update uploadKey. Defined.
Definition setActiveTab : (AppTab -> AppTab) -> State -> State.
Proof. cell_update activeTab. Defined.
Definition setIsMobileHistoryOpen : (bool -> bool) -> State -> State.
Proof. cell_update isMobileHistoryOpen. Defined.
Definition setNewHistoryNotification : (bool -> bool) -> State -> State.
Proof. cell_update newHistoryNotification. Defined.
Definition setProductImage : (ImageState -> ImageState) -> State -> State.
Proof. cell_update productImage. Defined.
Definition setModelImage : (ImageState -> ImageState) -> State -> State.
Proof. cell_update modelImage. Defined.
Definition setGenerationStacks : (GenerationStacks -> GenerationStacks) -> State -> State.
Proof. cell_update generationStacks. Defined.
Definition setSessionGenerations :
  (list SessionGeneration -> list SessionGeneration) -> State -> State.
Proof. cell_update sessionGenerations. Defined.
Definition setActiveGenerationId : (option nat -> option nat) -> State -> State.
Proof. cell_update activeGenerationId. Defined.
Definition setGenerationIdCounter : (nat -> nat) -> State -> State.
Proof. cell_update generationIdCounter. Defined.
Definition setBackgroundStatuses : (BackgroundStatuses -> BackgroundStatuses) -> State -> State.
Proof. cell_update backgroundStatuses. Defined.
Definition setAiModelStatuses : (AiModelStatuses -> AiModelStatuses) -> State -> State.
Proof. cell_update aiModelStatuses. Defined.
Definition setIsScenePromptLoading : (bool -> bool) -> State -> State.
Proof. cell_update isScenePromptLoading. Defined.
Definition setIsAiModelPromptLoading :
  (AiModelPromptLoading -> AiModelPromptLoading) -> State -> State.
Proof. cell_update isAiModelPromptLoading. Defined.
Definition setBackgroundColor : (string -> string) -> State -> State.
Proof. cell_update backgroundColor. Defined.
Definition setScenePrompt : (string -> string) -> State -> State.
Proof. cell_update scenePrompt. Defined.
Definition setAspectRatio : (string -> string) -> State -> State.
Proof. cell_update aspectRatio. Defined.
Definition setPromptEnhancer : (bool -> bool) -> State -> State.
Proof. cell_update promptEnhancer. Defined.
Definition setModelSource : (ModelSource -> ModelSource) -> State -> State.
Proof. cell_update modelSource. Defined.
Definition setAiGeneratedPrompt : (string -> string) -> State -> State.
Proof. cell_update aiGeneratedPrompt. Defined.
Definition setYourModelPrompt : (string -> string) -> State -> State.
Proof. cell_update yourModelPrompt. Defined.
Definition setGender : (Gender -> Gender) -> State -> State.
Proof. cell_update gender. Defined.
Definition setPromptBuilder : (PromptBuilderSettings -> PromptBuilderSettings) -> State -> State.
Proof. cell_update promptBuilder. Defined.
Definition setAiGeneratedPromptEnhancer : (bool -> bool) -> State -> State.
Proof. cell_update aiGeneratedPromptEnhancer. Defined.
Definition setYourModelPromptEnhancer : (bool -> bool) -> State -> State.
Proof. cell_update yourModelPromptEnhancer. Defined.
Definition setCurrentFeatureKeyRef : (FeatureKey -> FeatureKey) -> State -> State.
Proof. cell_update currentFeatureKeyRef. Defined.

(** ** Derived values of a render *)

(** The two-line idiom that every handler repeats:
    [isTransparent = backgroundSubMode === 'color' && backgroundColor === 'transparent';
     effectiveSubMode = isTransparent ? 'transparent' : backgroundSubMode]. *)
Definition effectiveSubModeOf (backgroundSubMode : BackgroundSubMode)
    (backgroundColor : string) : ServiceBackgroundSubMode :=
  let isTransparent :=
    BackgroundSubMode_eqb backgroundSubMode SubColor
    && String.eqb backgroundColor "transparent" in
  if isTransparent then SvcTransparent else toService backgroundSubMode.

Definition effectiveSubMode (s : State) : ServiceBackgroundSubMode :=
  effectiveSubModeOf (backgroundSubMode s) (backgroundColor s).

(** The body of the [getCurrentFeatureKey] memo, as a function of its
    dependencies [mode, backgroundSubMode, backgroundColor, modelSource]. *)
Definition featureKeyOf (mode : Mode) (backgroundSubMode : BackgroundSubMode)
    (backgroundColor : string) (modelSource : ModelSource) : FeatureKey :=
  match mode with
  | ModeBackground => backgroundKey (effectiveSubModeOf backgroundSubMode backgroundColor)
  | ModeAiModel => aiModelKey modelSource
  end.

Definition getCurrentFeatureKey (s : State) : FeatureKey :=
  featureKeyOf (mode s) (backgroundSubMode s) (backgroundColor s) (modelSource s).

(** [xs.slice(0, e)]: a negative end counts from the end of the array. *)
Definition sliceTo (xs : list string) (e : Z) : list string :=
  let len := Z.of_nat (List.length xs) in
  let k := if e <? 0 then Z.max (len + e) 0 else Z.min e len in
  firstn (Z.to_nat k) xs.

(** [xs[i]]: [undefined] outside the array. *)
Definition jsIndex (xs : list string) (i : Z) : option string :=
  if 0 <=? i then nth_error xs (Z.to_nat i) else None.

Definition findGeneration (i : nat) (gens : list SessionGeneration) : option SessionGeneration :=
  find (fun g => Nat.eqb (gen_id g) i) gens.

Definition currentStack (s : State) : GenerationStack :=
  getStack (getCurrentFeatureKey s) (generationStacks s).

Definition canUndo (s : State) : bool := 0 <=? currentIndex (currentStack s).

Definition canRedo (s : State) : bool :=
  currentIndex (currentStack s) <? Z.of_nat (List.length (images (currentStack s))) - 1.

Definition currentStatus (s : State) : OperationStatus :=
  match mode s with
  | ModeBackground => bgGet (effectiveSubMode s) (backgroundStatuses s)
  | ModeAiModel => amGet (modelSource s) (aiModelStatuses s)
  end.

Definition canGenerate (s : State) : bool :=
  if truthyStep (isLoading (currentStatus s)) then false
  else if Mode_eqb (mode s) ModeBackground && truthyUrl (url (productImage s)) then true
  else match mode s with
       | ModeAiModel =>
           match modelSource s with
           | SrcAi => truthyUrl (url (productImage s)) && truthyStr (aiGeneratedPrompt s)
           | SrcCustom =>
               truthyUrl (url (productImage s)) && truthyUrl (url (modelImage s))
               && truthyStr (yourModelPrompt s)
           end
       | ModeBackground => false
       end.

(** The image shown on the canvas; an [undefined] array read is [None]. *)
Definition canvasDisplayUrl (s : State) : option string :=
  match activeGenerationId s with
  | Some aid =>
      match findGeneration aid (sessionGenerations s) with
      | Some g => gen_src g
      | None => None
      end
  | None =>
      let stack := getStack (getCurrentFeatureKey s) (generationStacks s) in
      if 0 <=? currentIndex stack then jsIndex (images stack) (currentIndex stack)
      else None
  end.

Definition isEnhancerChecked (s : State) : bool :=
  match mode s with
  | ModeAiModel =>
      match modelSource s with
      | SrcAi => aiGeneratedPromptEnhancer s
      | SrcCustom => yourModelPromptEnhancer s
      end
  | ModeBackground => promptEnhancer s
  end.

(** ** History management *)

(** The updater passed to [setGenerationStacks] by [recordNewGeneration],
    on the stack of the job's feature. *)
Definition pushImage (imageUrl : string) (currentStack : GenerationStack) : GenerationStack :=
  let newImages := sliceTo (images currentStack) (currentIndex currentStack + 1) ++ [imageUrl] in
  {| images := newImages; currentIndex := Z.of_nat (List.length newImages) - 1 |}.

(** [r] is the render whose closure the call runs in ([activeTab] and
    [isMobileHistoryOpen] are read from it), [isMobile] is
    [window.innerWidth < 1024] at the time of the call; the feature key is
    read from the ref cell of the state the call is applied to. *)
Definition recordNewGeneration (r : State) (isMobile : bool)
    (imageUrl : string) (generationId : nat) (featureKey : FeatureKey) (s : State) : State :=
  let s := setSessionGenerations (fun prev =>
             map (fun gen =>
                    if Nat.eqb (gen_id gen) generationId
                    then {| gen_id := gen_id gen; gen_src := Some imageUrl; gen_status := StDone;
                            gen_featureKey := gen_featureKey gen;
                            gen_snapshot := gen_snapshot gen |}
                    else gen) prev) s in
  let generationMatchesCurrentMode := FeatureKey_eqb featureKey (currentFeatureKeyRef s) in
  let s := if generationMatchesCurrentMode
           then setActiveGenerationId (val (Some generationId)) s else s in
  let s := if (isMobile && negb (isMobileHistoryOpen r))
              || (negb isMobile && negb (AppTab_eqb (activeTab r) TabHistory))
           then setNewHistoryNotification (val true) s else s in
  setGenerationStacks (fun prevStacks =>
    setStack featureKey (pushImage imageUrl (getStack featureKey prevStacks)) prevStacks) s.

Definition handleUndo (s : State) : State :=
  let featureKey := getCurrentFeatureKey s in
  let s := setGenerationStacks (fun prev =>
             let stack := getStack featureKey prev in
             if 0 <=? currentIndex stack
             then setStack featureKey
                    {| images := images stack; currentIndex := currentIndex stack - 1 |} prev
             else prev) s in
  setActiveGenerationId (val None) s.

Definition handleRedo (s : State) : State :=
  let featureKey := getCurrentFeatureKey s in
  let s := setGenerationStacks (fun prev =>
             let stack := getStack featureKey prev in
             if currentIndex stack <? Z.of_nat (List.length (images stack)) - 1
             then setStack featureKey
                    {| images := images stack; currentIndex := currentIndex stack + 1 |} prev
             else prev) s in
  setActiveGenerationId (val None) s.

Definition handleStartOver (s : State) : State :=
  let s := setMode (val ModeBackground) s in
  let s := setBackgroundSubMode (val SubColor) s in
  let s := setActiveTab (val TabSettings) s in
  let s := setIsMobileHistoryOpen (val false) s in
  let s := setProductImage (val initialProductImage) s in
  let s := setModelImage (val initialModelImage) s in
  let s := setGenerationStacks (val initialGenerationStacks) s in
  let s := setBackgroundStatuses (val initialBackgroundStatuses) s in
  let s := setAiModelStatuses (val initialAiModelStatuses) s in
  let s := setIsScenePromptLoading (val false) s in
  let s := setIsAiModelPromptLoading (val initialAiModelPromptLoading) s in
  let s := setBackgroundColor (val "#f0f0f0") s in
  let s := setScenePrompt (val EmptyString) s in
  let s := setAspectRatio (val "1:1") s in
  let s := setPromptEnhancer (val true) s in
  let s := setAiGeneratedPromptEnhancer (val true) s in
  let s := setYourModelPromptEnhancer (val true) s in
  let s := setAiGeneratedPrompt (val EmptyString) s in
  let s := setYourModelPrompt (val EmptyString) s in
  let s := setGender (val Any) s in
  let s := setModelSource (val SrcAi) s in
  let s := setPromptBuilder (val initialPromptBuilder) s in
  let s := setUploadKey (fun k => (k + 1)%nat) s in
  let s := setSessionGenerations (val []) s in
  let s := setActiveGenerationId (val None) s in
  setNewHistoryNotification (val false) s.

(** ** Context-aware display handlers *)

Definition handleSetMode (newMode : Mode) (s : State) : State :=
  if negb (Mode_eqb (mode s) newMode)
  then setActiveGenerationId (val None) (setMode (val newMode) s)
  else s.

Definition handleSetBackgroundSubMode (newSubMode : BackgroundSubMode) (s : State) : State :=
  if negb (BackgroundSubMode_eqb (backgroundSubMode s) newSubMode)
  then setActiveGenerationId (val None) (setBackgroundSubMode (val newSubMode) s)
  else s.

Definition handleSetModelSource (newSource : ModelSource) (s : State) : State :=
  if negb (ModelSource_eqb (modelSource s) newSource)
  then setActiveGenerationId (val None) (setModelSource (val newSource) s)
  else s.

(** ** Event handlers *)

Definition handleDeleteFromHistory (idToDelete : nat) (s : State) : State :=
  let s' := setSessionGenerations
              (filter (fun gen => negb (Nat.eqb (gen_id gen) idToDelete))) s in
  match activeGenerationId s with
  | Some a => if Nat.eqb a idToDelete then setActiveGenerationId (val None) s' else s'
  | None => s'
  end.

(** The error-clearing prefix shared by the upload callback and by the
    feature-change effect, computed from the render [r]. *)
Definition clearCurrentError (r : State) (s : State) : State :=
  let s := match mode r with
           | ModeBackground =>
               let effectiveSubMode := effectiveSubMode r in
               setBackgroundStatuses (fun st =>
                 bgSet effectiveSubMode
                   {| isLoading := isLoading (bgGet effectiveSubMode st); error := None |} st) s
           | ModeAiModel => s
           end in
  match mode r with
  | ModeAiModel =>
      setAiModelStatuses (fun st =>
        amSet (modelSource r)
          {| isLoading := isLoading (amGet (modelSource r) st); error := None |} st) s
  | ModeBackground => s
  end.

(** [img.onload] of [handleFileUpload], in the closure of render [r]. *)
Definition handleFileUpload_onload (r : State) (f : File) (imageType : ImageType)
    (u : string) (naturalWidth naturalHeight : Z) (s : State) : State :=
  let s := clearCurrentError r s in
  let imageData := {| url := Some u; file := Some f;
                      originalWidth := naturalWidth; originalHeight := naturalHeight |} in
  match imageType with
  | ImgProduct =>
      let s := setProductImage (val imageData) s in
      let s := setSessionGenerations (val []) s in
      let s := setActiveGenerationId (val None) s in
      setGenerationStacks (val initialGenerationStacks) s
  | ImgModel => setModelImage (val imageData) s
  end.

(** ** Asynchronous handlers *)

(** What a [catch (err)] clause receives: an [Error] with its message, or
    any other thrown value. *)
Inductive Thrown := ErrorObject (message : string) | OtherValue.

Definition errorMessageOr (fallback : string) (err : Thrown) : string :=
  match err with ErrorObject m => m | OtherValue => fallback end.

(** Closures of the two generation handlers after their synchronous prefix. *)
Record BgJob := {
  bg_render : State;
  bg_newId : nat;
  bg_featureKey : FeatureKey;
  bg_effectiveSubMode : ServiceBackgroundSubMode
}.

Record AiJob := {
  ai_render : State;
  ai_newId : nat;
  ai_featureKey : FeatureKey;
  ai_invokedModelSource : ModelSource
}.

(** The [await] at which [handleAiModelGenerate] is suspended. *)
Inductive AiPhase := AwaitPrepareProduct | AwaitPrepareModel | AwaitGenerate.

Inductive Task :=
| TUpload (r : State) (f : File) (imageType : ImageType)
| TRestoreImage (imageType : ImageType) (u : string)
| TPromptGen (r : State)
| TBackground (j : BgJob)
| TAiModel (j : AiJob) (ph : AiPhase).

Definition takeSnapshot (s : State) : GenerationStateSnapshot :=
  {| snap_mode := mode s;
     snap_backgroundSubMode := backgroundSubMode s;
     snap_modelSource := modelSource s;
     snap_backgroundColor := backgroundColor s;
     snap_scenePrompt := scenePrompt s;
     snap_aspectRatio := aspectRatio s;
     snap_promptEnhancer := promptEnhancer s;
     snap_aiGeneratedPrompt := aiGeneratedPrompt s;
     snap_yourModelPrompt := yourModelPrompt s;
     snap_gender := gender s;
     snap_promptBuilder := promptBuilder s;
     snap_aiGeneratedPromptEnhancer := aiGeneratedPromptEnhancer s;
     snap_yourModelPromptEnhancer := yourModelPromptEnhancer s;
     snap_productImageUrl := url (productImage s);
     snap_modelImageUrl := url (modelImage s) |}.

Definition loadingRecord (newId : nat) (featureKey : FeatureKey)
    (snapshot : GenerationStateSnapshot) : SessionGeneration :=
  {| gen_id := newId; gen_src := None; gen_status := StLoading;
     gen_featureKey := featureKey; gen_snapshot := snapshot |}.

(** *** [handlePromptGen] *)

(** Synchronous prefix.  An early [return] sits inside the [try], so the
    [finally] clause runs on it as well. *)
Definition handlePromptGen (s : State) : State * list Task :=
  let invokedMode := mode s in
  let invokedModelSource := modelSource s in
  match invokedMode with
  | ModeBackground =>
      if negb (truthyUrl (url (productImage s))) || isScenePromptLoading s
      then (setIsScenePromptLoading (val false) s, [])
      else
        let s' := setIsScenePromptLoading (val true) s in
        let s' := setBackgroundStatuses (fun prev =>
                    bgSet SvcScene
                      {| isLoading := isLoading (bg_scene prev); error := None |} prev) s' in
        (s', [TPromptGen s])
  | ModeAiModel =>
      let finally_ := setIsAiModelPromptLoading (fun prev => plSet invokedModelSource false prev) in
      if plGet invokedModelSource (isAiModelPromptLoading s) then (finally_ s, [])
      else if ModelSource_eqb invokedModelSource SrcAi && negb (truthyUrl (url (productImage s)))
      then (finally_ s, [])
      else if ModelSource_eqb invokedModelSource SrcCustom
              && (negb (truthyUrl (url (productImage s)))
                  || negb (truthyUrl (url (modelImage s))))
      then (finally_ s, [])
      else
        let s' := setIsAiModelPromptLoading (fun prev => plSet invokedModelSource true prev) s in
        let s' := setAiModelStatuses (fun prev =>
                    amSet invokedModelSource
                      {| isLoading := isLoading (amGet invokedModelSource prev);
                         error := None |} prev) s' in
        (s', [TPromptGen s])
  end.

Definition handlePromptGen_finally (r : State) (s : State) : State :=
  match mode r with
  | ModeBackground => setIsScenePromptLoading (val false) s
  | ModeAiModel =>
      setIsAiModelPromptLoading (fun prev => plSet (modelSource r) false prev) s
  end.

Definition handlePromptGen_resolved (r : State) (suggestion : string) (s : State) : State :=
  let s := match mode r with
           | ModeBackground => setScenePrompt (val suggestion) s
           | ModeAiModel =>
               match modelSource r with
               | SrcAi => setAiGeneratedPrompt (val suggestion) s
               | SrcCustom => setYourModelPrompt (val suggestion) s
               end
           end in
  handlePromptGen_finally r s.

Definition handlePromptGen_rejected (r : State) (err : Thrown) (s : State) : State :=
  let errorMsg := errorMessageOr "Failed to generate prompt." err in
  let s := match mode r with
           | ModeBackground =>
               setBackgroundStatuses (fun prev =>
                 bgSet SvcScene {| isLoading := NotLoading; error := Some errorMsg |} prev) s
           | ModeAiModel =>
               setAiModelStatuses (fun prev =>
                 amSet (modelSource r)
                   {| isLoading := NotLoading; error := Some errorMsg |} prev) s
           end in
  handlePromptGen_finally r s.

(** *** [handleBackgroundGenerate] *)

(** Synchronous prefix, up to the first [await]. *)
Definition handleBackgroundGenerate (s : State) : State * option BgJob :=
  if negb (truthyUrl (url (productImage s))) then (s, None)
  else
    let effectiveSubMode := effectiveSubMode s in
    let featureKey := backgroundKey effectiveSubMode in
    if truthyStep (isLoading (bgGet effectiveSubMode (backgroundStatuses s))) then (s, None)
    else
      let snapshot := takeSnapshot s in
      let newId := generationIdCounter s in
      let s' := setGenerationIdCounter S s in
      let s' := setSessionGenerations
                  (fun prev => loadingRecord newId featureKey snapshot :: prev) s' in
      let s' := setActiveGenerationId (val (Some newId)) s' in
      let s' := setBackgroundStatuses (fun prev =>
                  bgSet effectiveSubMode
                    {| isLoading := Generating; error := None |} prev) s' in
      (s', Some {| bg_render := s; bg_newId := newId; bg_featureKey := featureKey;
                   bg_effectiveSubMode := effectiveSubMode |}).

Definition handleBackgroundGenerate_finally (j : BgJob) (s : State) : State :=
  setBackgroundStatuses (fun prev =>
    bgSet (bg_effectiveSubMode j)
      {| isLoading := NotLoading;
         error := error (bgGet (bg_effectiveSubMode j) prev) |} prev) s.

(** The [try] body after its last [await] ([prepareImage],
    [generateProductShot] and, for a transparent request, [cropImage] change
    no state), then [finally]. *)
Definition handleBackgroundGenerate_resolved (j : BgJob) (isMobile : bool)
    (finalImage : string) (s : State) : State :=
  let s := recordNewGeneration (bg_render j) isMobile finalImage
             (bg_newId j) (bg_featureKey j) s in
  handleBackgroundGenerate_finally j s.

(** [catch], then [finally]. *)
Definition handleBackgroundGenerate_rejected (j : BgJob) (err : Thrown) (s : State) : State :=
  let errorMsg := errorMessageOr "An unknown error occurred." err in
  let s := setBackgroundStatuses (fun prev =>
             bgSet (bg_effectiveSubMode j)
               {| isLoading := NotLoading; error := Some errorMsg |} prev) s in
  let s := setSessionGenerations
             (filter (fun gen => negb (Nat.eqb (gen_id gen) (bg_newId j)))) s in
  handleBackgroundGenerate_finally j s.

(** *** [handleAiModelGenerate] *)

(** The step taken once the product image is prepared (or at once when
    there is no product image): a custom-model request with a model image
    enters the blending phase. *)
Definition handleAiModelGenerate_blend (j : AiJob) (s : State) : State * AiPhase :=
  if ModelSource_eqb (ai_invokedModelSource j) SrcCustom
     && truthyUrl (url (modelImage (ai_render j)))
  then (setAiModelStatuses (fun prev =>
          amSet (ai_invokedModelSource j)
            {| isLoading := Blending;
               error := error (amGet (ai_invokedModelSource j) prev) |} prev) s,
        AwaitPrepareModel)
  else (s, AwaitGenerate).

(** Synchronous prefix, up to the first [await]. *)
Definition handleAiModelGenerate (s : State) : State * option (AiJob * AiPhase) :=
  let invokedModelSource := modelSource s in
  let featureKey := aiModelKey invokedModelSource in
  if truthyStep (isLoading (amGet invokedModelSource (aiModelStatuses s))) then (s, None)
  else
    let snapshot := takeSnapshot s in
    let newId := generationIdCounter s in
    let s' := setGenerationIdCounter S s in
    let s' := setSessionGenerations
                (fun prev => loadingRecord newId featureKey snapshot :: prev) s' in
    let s' := setActiveGenerationId (val (Some newId)) s' in
    let s' := setAiModelStatuses (fun prev =>
                amSet invokedModelSource
                  {| isLoading := Generating; error := None |} prev) s' in
    let j := {| ai_render := s; ai_newId := newId; ai_featureKey := featureKey;
                ai_invokedModelSource := invokedModelSource |} in
    if truthyUrl (url (productImage s)) then (s', Some (j, AwaitPrepareProduct))
    else let (s'', ph) := handleAiModelGenerate_blend j s' in (s'', Some (j, ph)).

Definition handleAiModelGenerate_finally (j : AiJob) (s : State) : State :=
  setAiModelStatuses (fun prev =>
    amSet (ai_invokedModelSource j)
      {| isLoading := NotLoading;
         error := error (amGet (ai_invokedModelSource j) prev) |} prev) s.

Definition handleAiModelGenerate_resolved (j : AiJob) (isMobile : bool)
    (result : string) (s : State) : State :=
  let s := recordNewGeneration (ai_render j) isMobile result
             (ai_newId j) (ai_featureKey j) s in
  handleAiModelGenerate_finally j s.

Definition handleAiModelGenerate_rejected (j : AiJob) (err : Thrown) (s : State) : State :=
  let errorMsg := errorMessageOr "An unknown error occurred." err in
  let s := setAiModelStatuses (fun prev =>
             amSet (ai_invokedModelSource j)
               {| isLoading := NotLoading; error := Some errorMsg |} prev) s in
  let s := setSessionGenerations
             (filter (fun gen => negb (Nat.eqb (gen_id gen) (ai_newId j)))) s in
  handleAiModelGenerate_finally j s.

Definition handleGenerateClick (s : State) : State * list Task :=
  match mode s with
  | ModeBackground =>
      match handleBackgroundGenerate s with
      | (s', Some j) => (s', [TBackground j])
      | (s', None) => (s', [])
      end
  | ModeAiModel =>
      match handleAiModelGenerate s with
      | (s', Some (j, ph)) => (s', [TAiModel j ph])
      | (s', None) => (s', [])
      end
  end.

Definition handleEnhancerChange (s : State) : State :=
  match mode s with
  | ModeAiModel =>
      match modelSource s with
      | SrcAi => setAiGeneratedPromptEnhancer (val (negb (aiGeneratedPromptEnhancer s))) s
      | SrcCustom => setYourModelPromptEnhancer (val (negb (yourModelPromptEnhancer s))) s
      end
  | ModeBackground => setPromptEnhancer (val (negb (promptEnhancer s))) s
  end.

(** The [name] attribute of the three selects of the prompt builder. *)
Inductive PromptBuilderField := PbStyle | PbComposition | PbLighting.

Definition handlePromptBuilderChange (name : PromptBuilderField) (value : string)
    (s : State) : State :=
  setPromptBuilder (fun prev =>
    match name with
    | PbStyle => {| style := value; composition := composition prev; lighting := lighting prev |}
    | PbComposition => {| style := style prev; composition := value; lighting := lighting prev |}
    | PbLighting => {| style := style prev; composition := composition prev; lighting := value |}
    end) s.

(** Synchronous part of [handleSelectGeneration]; the two [Image] loads
    that restore the dimensions are returned as pending tasks. *)
Definition handleSelectGeneration (isMobile : bool) (i : nat) (s : State)
    : State * list Task :=
  match findGeneration i (sessionGenerations s) with
  | None => (s, [])
  | Some generation =>
      let snapshot := gen_snapshot generation in
      let s' := setMode (val (snap_mode snapshot)) s in
      let s' := setBackgroundSubMode (val (snap_backgroundSubMode snapshot)) s' in
      let s' := setModelSource (val (snap_modelSource snapshot)) s' in
      let s' := setBackgroundColor (val (snap_backgroundColor snapshot)) s' in
      let s' := setScenePrompt (val (snap_scenePrompt snapshot)) s' in
      let s' := setAspectRatio (val (snap_aspectRatio snapshot)) s' in
      let s' := setPromptEnhancer (val (snap_promptEnhancer snapshot)) s' in
      let s' := setAiGeneratedPrompt (val (snap_aiGeneratedPrompt snapshot)) s' in
      let s' := setYourModelPrompt (val (snap_yourModelPrompt snapshot)) s' in
      let s' := setGender (val (snap_gender snapshot)) s' in
      let s' := setPromptBuilder (val (snap_promptBuilder snapshot)) s' in
      let s' := setAiGeneratedPromptEnhancer (val (snap_aiGeneratedPromptEnhancer snapshot)) s' in
      let s' := setYourModelPromptEnhancer (val (snap_yourModelPromptEnhancer snapshot)) s' in
      let (s', t1) :=
        match snap_productImageUrl snapshot with
        | Some u => if truthyStr u then (s', [TRestoreImage ImgProduct u])
                    else (setProductImage (val initialProductImage) s', [])
        | None => (setProductImage (val initialProductImage) s', [])
        end in
      let (s', t2) :=
        match snap_modelImageUrl snapshot with
        | Some u => if truthyStr u then (s', [TRestoreImage ImgModel u])
                    else (setModelImage (val initialModelImage) s', [])
        | None => (setModelImage (val initialModelImage) s', [])
        end in
      let s' := setActiveTab (val TabSettings) s' in
      let s' := setActiveGenerationId (val (Some i)) s' in
      let s' := if isMobile then setIsMobileHistoryOpen (val false) s' else s' in
      (s', t1 ++ t2)
  end.

(** [productImg.onload] / [modelImg.onload] of [handleSelectGeneration]. *)
Definition handleSelectGeneration_onload (imageType : ImageType) (u : string)
    (naturalWidth naturalHeight : Z) (s : State) : State :=
  let restored := {| url := Some u; file := None;
                     originalWidth := naturalWidth; originalHeight := naturalHeight |} in
  match imageType with
  | ImgProduct => setProductImage (val restored) s
  | ImgModel => setModelImage (val restored) s
  end.

(** ** Effects *)

(** [useEffect(() => { currentFeatureKeyRef.current = getCurrentFeatureKey })] *)
Definition effectSyncFeatureKeyRef (s : State) : State :=
  setCurrentFeatureKeyRef (val (getCurrentFeatureKey s)) s.

(** The dependencies [mode, backgroundSubMode, modelSource, backgroundColor]
    of the error-clearing effect. *)
Definition featureDepsChanged (r s : State) : bool :=
  negb (Mode_eqb (mode r) (mode s)
        && BackgroundSubMode_eqb (backgroundSubMode r) (backgroundSubMode s)
        && ModelSource_eqb (modelSource r) (modelSource s)
        && String.eqb (backgroundColor r) (backgroundColor s)).

(** The effect that keeps the canvas synchronized with the settings panel. *)
Definition effectDeselect (s : State) : State :=
  match activeTab s, activeGenerationId s with
  | TabSettings, Some aid =>
      match findGeneration aid (sessionGenerations s) with
      | Some activeGen =>
          if negb (FeatureKey_eqb (gen_featureKey activeGen) (getCurrentFeatureKey s))
          then setActiveGenerationId (val None) s
          else s
      | None => s
      end
  | _, _ => s
  end.

(** Commit of a render: [r] is the previously committed state, [s] the state
    produced by the handler.  The effects whose dependencies changed run on
    the values of the new render. *)
Definition commit (r s : State) : State :=
  let s1 := effectSyncFeatureKeyRef s in
  let s2 := if featureDepsChanged r s then clearCurrentError s s1 else s1 in
  effectDeselect s2.

(** ** The application as a transition system *)

Definition initialState : State :=
  {| mode := ModeBackground;
     backgroundSubMode := SubColor;
     uploadKey := 0%nat;
     activeTab := TabSettings;
     isMobileHistoryOpen := false;
     newHistoryNotification := false;
     productImage := initialProductImage;
     modelImage := initialModelImage;
     generationStacks := initialGenerationStacks;
     sessionGenerations := [];
     activeGenerationId := None;
     generationIdCounter := 0%nat;
     backgroundStatuses := initialBackgroundStatuses;
     aiModelStatuses := initialAiModelStatuses;
     isScenePromptLoading := false;
     isAiModelPromptLoading := initialAiModelPromptLoading;
     backgroundColor := "#f0f0f0";
     scenePrompt := EmptyString;
     aspectRatio := "1:1";
     promptEnhancer := true;
     modelSource := SrcAi;
     aiGeneratedPrompt := EmptyString;
     yourModelPrompt := EmptyString;
     gender := Any;
     promptBuilder := initialPromptBuilder;
     aiGeneratedPromptEnhancer := true;
     yourModelPromptEnhancer := true;
     currentFeatureKeyRef := BackgroundColor |}.

(** The committed state, the width class of the window
    ([window.innerWidth < 1024], which also selects the layout) and the
    suspended continuations. *)
Record World := {
  app : State;
  viewportMobile : bool;
  pending : list Task
}.

Definition initialWorld (isMobile : bool) : World :=
  {| app := initialState; viewportMobile := isMobile; pending := [] |}.

Inductive Event :=
| Resize (isMobile : bool)
| ClickSetMode (newMode : Mode)
| ClickSetBackgroundSubMode (newSubMode : BackgroundSubMode)
| ClickSetModelSource (newSource : ModelSource)
| ChangeBackgroundColor (c : string)
| ChangeScenePrompt (p : string)
| ChangeAspectRatio (ar : string)
| ChangeAiPrompt (p : string)
| ChangeGender (g : Gender)
| ChangePromptBuilder (name : PromptBuilderField) (value : string)
| ToggleEnhancer
| ClickPromptGen
| ChooseFile (imageType : ImageType) (f : File)
| ClickGenerate
| ClickUndo
| ClickRedo
| ClickStartOver
| ClickTab (t : AppTab)
| OpenMobileHistory
| CloseMobileHistory
| ClickSelectGeneration (i : nat)
| ClickDeleteFromHistory (i : nat)
| FileLoaded (n : nat) (u : string) (naturalWidth naturalHeight : Z)
| ImageLoaded (n : nat) (naturalWidth naturalHeight : Z)
| Fulfilled (n : nat) (payload : string)
| Rejected (n : nat) (err : Thrown).

(** Which panel is rendered: the desktop layout shows the settings panel
    and the Generate button on the settings tab and the history panel on the
    history tab; the mobile layout always shows the settings panel and shows
    the history panel in its overlay. *)
Definition settingsVisible (w : World) : bool :=
  viewportMobile w || AppTab_eqb (activeTab (app w)) TabSettings.

Definition historyVisible (w : World) : bool :=
  if viewportMobile w then isMobileHistoryOpen (app w)
  else AppTab_eqb (activeTab (app w)) TabHistory.

Definition removeNth (n : nat) (ts : list Task) : list Task :=
  firstn n ts ++ skipn (S n) ts.

(** A user event: the handler runs on the committed state, its updates are
    committed and its continuations join the pending ones. *)
Definition userStep (w : World) (enabled : bool) (r : State * list Task) : option World :=
  if enabled
  then Some {| app := commit (app w) (fst r);
               viewportMobile := viewportMobile w;
               pending := pending w ++ snd r |}
  else None.

(** A continuation: task [n] is replaced by what remains of it. *)
Definition resume (w : World) (n : nat) (r : State * list Task) : option World :=
  Some {| app := commit (app w) (fst r);
          viewportMobile := viewportMobile w;
          pending := removeNth n (pending w) ++ snd r |}.

Definition isDone (i : nat) (s : State) : bool :=
  match findGeneration i (sessionGenerations s) with
  | Some g => match gen_status g with StDone => true | StLoading => false end
  | None => false
  end.

Definition isListed (i : nat) (s : State) : bool :=
  match findGeneration i (sessionGenerations s) with Some _ => true | None => false end.

Definition promptGenEnabled (s : State) : bool :=
  match mode s with
  | ModeBackground =>
      BackgroundSubMode_eqb (backgroundSubMode s) SubScene
      && negb (isScenePromptLoading s || negb (truthyUrl (url (productImage s)))
               || truthyStep (isLoading (bg_scene (backgroundStatuses s))))
  | ModeAiModel =>
      negb (plGet (modelSource s) (isAiModelPromptLoading s)
            || truthyStep (isLoading (amGet (modelSource s) (aiModelStatuses s)))
            || match modelSource s with
               | SrcAi => negb (truthyUrl (url (productImage s)))
               | SrcCustom => negb (truthyUrl (url (productImage s)))
                              || negb (truthyUrl (url (modelImage s)))
               end)
  end.

(** One event of the application.  A user event is refused ([None]) when
    its control is not rendered or is disabled in the committed state; the
    guards follow the JSX ([disabled={!canGenerate}], [disabled={!canUndo}],
    [disabled={gen.status !== 'done'}], the conditional panels), except that
    the aspect-ratio buttons and the enhancer toggle are allowed whenever
    the settings panel is shown.  A completion event names a pending task by
    its position; a file or image that never loads simply stays pending.
    The [await]s of [handleBackgroundGenerate] and of [handlePromptGen]
    change no state between them and are taken in one step; those of
    [handleAiModelGenerate] are taken one by one because the blending
    status is set between them. *)
Definition step (e : Event) (w : World) : option World :=
  let s := app w in
  match e with
  | Resize isMobile =>
      Some {| app := s; viewportMobile := isMobile; pending := pending w |}
  | ClickSetMode newMode =>
      userStep w (settingsVisible w) (handleSetMode newMode s, [])
  | ClickSetBackgroundSubMode newSubMode =>
      userStep w (settingsVisible w && Mode_eqb (mode s) ModeBackground)
        (handleSetBackgroundSubMode newSubMode s, [])
  | ClickSetModelSource newSource =>
      userStep w (settingsVisible w && Mode_eqb (mode s) ModeAiModel)
        (handleSetModelSource newSource s, [])
  | ChangeBackgroundColor c =>
      userStep w (settingsVisible w && Mode_eqb (mode s) ModeBackground
                  && BackgroundSubMode_eqb (backgroundSubMode s) SubColor)
        (setBackgroundColor (val c) s, [])
  | ChangeScenePrompt p =>
      userStep w (settingsVisible w && Mode_eqb (mode s) ModeBackground
                  && BackgroundSubMode_eqb (backgroundSubMode s) SubScene)
        (setScenePrompt (val p) s, [])
  | ChangeAspectRatio ar =>
      userStep w (settingsVisible w) (setAspectRatio (val ar) s, [])
  | ChangeAiPrompt p =>
      userStep w (settingsVisible w && Mode_eqb (mode s) ModeAiModel)
        (match modelSource s with
         | SrcAi => setAiGeneratedPrompt (val p) s
         | SrcCustom => setYourModelPrompt (val p) s
         end, [])
  | ChangeGender g =>
      userStep w (settingsVisible w && Mode_eqb (mode s) ModeAiModel
                  && ModelSource_eqb (modelSource s) SrcAi)
        (setGender (val g) s, [])
  | ChangePromptBuilder name value =>
      userStep w (settingsVisible w && Mode_eqb (mode s) ModeAiModel)
        (handlePromptBuilderChange name value s, [])
  | ToggleEnhancer =>
      userStep w (settingsVisible w) (handleEnhancerChange s, [])
  | ClickPromptGen =>
      userStep w (settingsVisible w && promptGenEnabled s) (handlePromptGen s)
  | ChooseFile imageType f =>
      userStep w (settingsVisible w
                  && match imageType with
                     | ImgProduct => true
                     | ImgModel => Mode_eqb (mode s) ModeAiModel
                                   && ModelSource_eqb (modelSource s) SrcCustom
                     end)
        (s, [TUpload s f imageType])
  | ClickGenerate =>
      userStep w (settingsVisible w && canGenerate s) (handleGenerateClick s)
  | ClickUndo => userStep w (canUndo s) (handleUndo s, [])
  | ClickRedo => userStep w (canRedo s) (handleRedo s, [])
  | ClickStartOver => userStep w true (handleStartOver s, [])
  | ClickTab t =>
      userStep w (negb (viewportMobile w))
        (match t with
         | TabSettings => setActiveTab (val TabSettings) s
         | TabHistory => setNewHistoryNotification (val false) (setActiveTab (val TabHistory) s)
         end, [])
  | OpenMobileHistory =>
      userStep w (viewportMobile w)
        (setNewHistoryNotification (val false) (setIsMobileHistoryOpen (val true) s), [])
  | CloseMobileHistory =>
      userStep w (viewportMobile w && isMobileHistoryOpen s)
        (setIsMobileHistoryOpen (val false) s, [])
  | ClickSelectGeneration i =>
      userStep w (historyVisible w && isDone i s)
        (handleSelectGeneration (viewportMobile w) i s)
  | ClickDeleteFromHistory i =>
      userStep w (historyVisible w && isListed i s) (handleDeleteFromHistory i s, [])
  | FileLoaded n u naturalWidth naturalHeight =>
      match nth_error (pending w) n with
      | Some (TUpload r f imageType) =>
          resume w n (handleFileUpload_onload r f imageType u naturalWidth naturalHeight s, [])
      | _ => None
      end
  | ImageLoaded n naturalWidth naturalHeight =>
      match nth_error (pending w) n with
      | Some (TRestoreImage imageType u) =>
          resume w n (handleSelectGeneration_onload imageType u naturalWidth naturalHeight s, [])
      | _ => None
      end
  | Fulfilled n payload =>
      match nth_error (pending w) n with
      | Some (TPromptGen r) => resume w n (handlePromptGen_resolved r payload s, [])
      | Some (TBackground j) =>
          resume w n (handleBackgroundGenerate_resolved j (viewportMobile w) payload s, [])
      | Some (TAiModel j AwaitPrepareProduct) =>
          let (s', ph) := handleAiModelGenerate_blend j s in
          resume w n (s', [TAiModel j ph])
      | Some (TAiModel j AwaitPrepareModel) => resume w n (s, [TAiModel j AwaitGenerate])
      | Some (TAiModel j AwaitGenerate) =>
          resume w n (handleAiModelGenerate_resolved j (viewportMobile w) payload s, [])
      | _ => None
      end
  | Rejected n err =>
      match nth_error (pending w) n with
      | Some (TPromptGen r) => resume w n (handlePromptGen_rejected r err s, [])
      | Some (TBackground j) => resume w n (handleBackgroundGenerate_rejected j err s, [])
      | Some (TAiModel j _) => resume w n (handleAiModelGenerate_rejected j err s, [])
      | _ => None
      end
  end.

Fixpoint run (evs : list Event) (w : World) : option World :=
  match evs with
  | [] => Some w
  | e :: evs' =>
      match step e w with
      | Some w' => run evs' w'
      | None => None
      end
  end.

(** The worlds the application can be in. *)
Definition reachable (w : World) : Prop :=
  exists isMobile evs, run evs (initialWorld isMobile) = Some w.

(** * Predicates and views used by the properties *)

(** ** One generation stack *)

Definition stackInv (st : GenerationStack) : Prop :=
  -1 <= currentIndex st < Z.of_nat (List.length (images st)).

Definition stacksInv (ss : GenerationStacks) : Prop :=
  forall k, stackInv (getStack k ss).

(** The updaters of [handleUndo] and [handleRedo] on one stack. *)
Definition undoStack (stack : GenerationStack) : GenerationStack :=
  if 0 <=? currentIndex stack
  then {| images := images stack; currentIndex := currentIndex stack - 1 |}
  else stack.

Definition redoStack (stack : GenerationStack) : GenerationStack :=
  if currentIndex stack <? Z.of_nat (List.length (images stack)) - 1
  then {| images := images stack; currentIndex := currentIndex stack + 1 |}
  else stack.

(** ** The session log *)

(** The feature key that the controls stored in a snapshot resolve to. *)
Definition snapshotFeatureKey (snapshot : GenerationStateSnapshot) : FeatureKey :=
  featureKeyOf (snap_mode snapshot) (snap_backgroundSubMode snapshot)
    (snap_backgroundColor snapshot) (snap_modelSource snapshot).

(** The updater of [recordNewGeneration] on the log. *)
Definition completeRecord (imageUrl : string) (generationId : nat)
    (gen : SessionGeneration) : SessionGeneration :=
  if Nat.eqb (gen_id gen) generationId
  then {| gen_id := gen_id gen; gen_src := Some imageUrl; gen_status := StDone;
          gen_featureKey := gen_featureKey gen; gen_snapshot := gen_snapshot gen |}
  else gen.

(** A well-formed record: its id was handed out by the counter, its feature
    key is the one its snapshot resolves to, and it carries an image exactly
    when it is done. *)
Definition genInv (counter : nat) (g : SessionGeneration) : Prop :=
  (gen_id g < counter)%nat
  /\ gen_featureKey g = snapshotFeatureKey (gen_snapshot g)
  /\ match gen_status g with
     | StDone => exists img, gen_src g = Some img
     | StLoading => gen_src g = None
     end.

Definition logInv (s : State) : Prop :=
  Forall (genInv (generationIdCounter s)) (sessionGenerations s)
  /\ NoDup (map gen_id (sessionGenerations s)).

(** The committed state is stable under the effects: the ref cell holds the
    current feature key, and on the settings tab a selected record that
    is still listed belongs to the current feature. *)
Definition settled (s : State) : Prop :=
  currentFeatureKeyRef s = getCurrentFeatureKey s
  /\ effectDeselect s = s.

Definition Inv (s : State) : Prop :=
  stacksInv (generationStacks s) /\ logInv s /\ settled s.

(** The three cells the history invariants speak about. *)
Definition sameHistory (s s' : State) : Prop :=
  generationStacks s' = generationStacks s
  /\ sessionGenerations s' = sessionGenerations s
  /\ generationIdCounter s' = generationIdCounter s.

(** What one handler does to the stacks, the log and the id counter. *)
Inductive historyStep (s s' : State) : Prop :=
| hs_same :
    sameHistory s s' -> historyStep s s'
| hs_reset :
    generationStacks s' = initialGenerationStacks ->
    sessionGenerations s' = [] ->
    generationIdCounter s' = generationIdCounter s ->
    historyStep s s'
| hs_append featureKey snapshot :
    featureKey = snapshotFeatureKey snapshot ->
    generationStacks s' = generationStacks s ->
    sessionGenerations s'
    = loadingRecord (generationIdCounter s) featureKey snapshot :: sessionGenerations s ->
    generationIdCounter s' = S (generationIdCounter s) ->
    historyStep s s'
| hs_complete featureKey imageUrl generationId :
    generationStacks s'
    = setStack featureKey (pushImage imageUrl (getStack featureKey (generationStacks s)))
        (generationStacks s) ->
    sessionGenerations s' = map (completeRecord imageUrl generationId) (sessionGenerations s) ->
    generationIdCounter s' = generationIdCounter s ->
    historyStep s s'
| hs_filter p :
    generationStacks s' = generationStacks s ->
    sessionGenerations s' = filter p (sessionGenerations s) ->
    generationIdCounter s' = generationIdCounter s ->
    historyStep s s'
| hs_undo featureKey :
    generationStacks s'
    = setStack featureKey (undoStack (getStack featureKey (generationStacks s)))
        (generationStacks s) ->
    sessionGenerations s' = sessionGenerations s ->
    generationIdCounter s' = generationIdCounter s ->
    historyStep s s'
| hs_redo featureKey :
    generationStacks s'
    = setStack featureKey (redoStack (getStack featureKey (generationStacks s)))
        (generationStacks s) ->
    sessionGenerations s' = sessionGenerations s ->
    generationIdCounter s' = generationIdCounter s ->
    historyStep s s'.

(** ** Example states *)

(** The scene feature is active and its stack holds [A,B,C] with the
    cursor on [C]. *)
Definition stateABC : State :=
  setGenerationStacks
    (setStack BackgroundScene {| images := ["A"; "B"; "C"]; currentIndex := 2 |})
    (setBackgroundSubMode (val SubScene) initialState).

(** A product image is uploaded and a colour background is requested. *)
Definition traceSubmitted : list Event :=
  [ChooseFile ImgProduct 1%nat; FileLoaded 0 "product" 800 600; ClickGenerate].

(** A product image is uploaded, a colour background is generated, and a
    second colour generation fails. *)
Definition traceFailedSecond : list Event :=
  [ChooseFile ImgProduct 1%nat; FileLoaded 0 "product" 800 600;
   ClickGenerate; Fulfilled 0 "A";
   ClickGenerate; Rejected 0 (ErrorObject "blocked by safety policy")].

(** After the failure another colour is picked, which clears the error
    of the colour feature and leaves the feature and the selection as they
    are: the canvas is visible again. *)
Definition traceFailedThenRecolor : list Event :=
  traceFailedSecond ++ [ChangeBackgroundColor "#ffffff"].

(** The world a trace leads to from the desktop layout. *)
Definition worldAfter (evs : list Event) : World :=
  match run evs (initialWorld false) with
  | Some w => w
  | None => initialWorld false
  end.

(** ** Outcome of a failed generation *)

(** The id of the log record a pending generation task owns. *)
Definition generationTaskId (t : Task) : option nat :=
  match t with
  | TBackground j => Some (bg_newId j)
  | TAiModel j _ => Some (ai_newId j)
  | _ => None
  end.

(** The status slot a pending generation task writes to, read from a state. *)
Definition generationTaskStatus (t : Task) (s : State) : option OperationStatus :=
  match t with
  | TBackground j => Some (bgGet (bg_effectiveSubMode j) (backgroundStatuses s))
  | TAiModel j _ => Some (amGet (ai_invokedModelSource j) (aiModelStatuses s))
  | _ => None
  end.

(** From [s] to [s'] the record [newId] was removed and nothing else, the
    status [status'] is idle with the error [errorMsg], and no stack moved. *)
Definition failureOutcome (newId : nat) (errorMsg : string) (status' : OperationStatus)
    (s s' : State) : Prop :=
  (forall g, In g (sessionGenerations s') -> gen_id g <> newId)
  /\ (forall g, In g (sessionGenerations s) -> gen_id g <> newId ->
                In g (sessionGenerations s'))
  /\ status' = {| isLoading := NotLoading; error := Some errorMsg |}
  /\ generationStacks s' = generationStacks s.

(** ** Restoring a snapshot *)

(** A snapshot with its two image URLs replaced: what is left is the
    thirteen control values. *)
Definition withImageUrls (productImageUrl modelImageUrl : option string)
    (snapshot : GenerationStateSnapshot) : GenerationStateSnapshot :=
  {| snap_mode := snap_mode snapshot;
     snap_backgroundSubMode := snap_backgroundSubMode snapshot;
     snap_modelSource := snap_modelSource snapshot;
     snap_backgroundColor := snap_backgroundColor snapshot;
     snap_scenePrompt := snap_scenePrompt snapshot;
     snap_aspectRatio := snap_aspectRatio snapshot;
     snap_promptEnhancer := snap_promptEnhancer snapshot;
     snap_aiGeneratedPrompt := snap_aiGeneratedPrompt snapshot;
     snap_yourModelPrompt := snap_yourModelPrompt snapshot;
     snap_gender := snap_gender snapshot;
     snap_promptBuilder := snap_promptBuilder snapshot;
     snap_aiGeneratedPromptEnhancer := snap_aiGeneratedPromptEnhancer snapshot;
     snap_yourModelPromptEnhancer := snap_yourModelPromptEnhancer snapshot;
     snap_productImageUrl := productImageUrl;
     snap_modelImageUrl := modelImageUrl |}.

(** The feature a pending generation task will record its result under. *)
Definition taskFeatureKey (t : Task) : option FeatureKey :=
  match t with
  | TBackground j => Some (bg_featureKey j)
  | TAiModel j _ => Some (ai_featureKey j)
  | _ => None
  end.

(** ** The resolution order and the request preconditions, as specified *)

(** [GenerationStackManager.currentImage(activeFeatureKey)]: the image at
    the cursor of the active feature's stack, when the cursor is at least 0. *)
Definition stackCurrentImage (s : State) : option string :=
  let stack := currentStack s in
  if 0 <=? currentIndex stack then jsIndex (images stack) (currentIndex stack) else None.

(** The resolution order in the words of the specification: the image of
    the selected record if that record exists and is done, else the current
    image of the active stack, else none.  It is compared below with
    [canvasDisplayUrl], which is the resolver of the source. *)
Definition specCanvasImage (s : State) : option string :=
  match activeGenerationId s with
  | Some aid =>
      match findGeneration aid (sessionGenerations s) with
      | Some g =>
          match gen_status g with
          | StDone => gen_src g
          | StLoading => stackCurrentImage s
          end
      | None => stackCurrentImage s
      end
  | None => stackCurrentImage s
  end.

(** The preconditions of a generation request in the words of the
    specification: the target feature is idle, and the mode's inputs are
    present (background: product image; ai-model "ai": product image and
    non-empty prompt; ai-model "custom": product image, model image and
    non-empty prompt). *)
Definition preconditionsMet (s : State) : bool :=
  negb (truthyStep (isLoading (currentStatus s)))
  && match mode s with
     | ModeBackground => truthyUrl (url (productImage s))
     | ModeAiModel =>
         match modelSource s with
         | SrcAi => truthyUrl (url (productImage s)) && truthyStr (aiGeneratedPrompt s)
         | SrcCustom =>
             truthyUrl (url (productImage s)) && truthyUrl (url (modelImage s))
             && truthyStr (yourModelPrompt s)
         end
     end.

(** ** Further example traces *)

(** The ai-model mode is entered with no image and no prompt. *)
Definition traceAiModelEmpty : list Event := [ClickSetMode ModeAiModel].

(** A colour background is generated, then the scene sub-mode is entered and
    the history tab opened. *)
Definition traceDoneThenScene : list Event :=
  [ChooseFile ImgProduct 1%nat; FileLoaded 0 "product" 800 600;
   ClickGenerate; Fulfilled 0 "A";
   ClickSetBackgroundSubMode SubScene; ClickTab TabHistory].

(** A colour background is requested on the desktop layout, the history tab
    is opened, the window becomes narrow, and the transparent swatch of the
    settings panel (always shown by the narrow layout) is clicked while the
    request is still in flight. *)
Definition traceStaleCompletion : list Event :=
  [ChooseFile ImgProduct 1%nat; FileLoaded 0 "product" 800 600;
   ClickGenerate; ClickTab TabHistory; Resize true;
   ChangeBackgroundColor "transparent"].

(** ** Pending generation jobs *)

(** A pending generation task got its id from the counter, and every
    listed record with that id has the feature key the task will record
    under. *)
Definition taskInv (s : State) (t : Task) : Prop :=
  match generationTaskId t, taskFeatureKey t with
  | Some i, Some k =>
      (i < generationIdCounter s)%nat
      /\ forall g, In g (sessionGenerations s) -> gen_id g = i -> gen_featureKey g = k
  | _, _ => True
  end.

Definition worldInv (w : World) : Prop :=
  Inv (app w) /\ Forall (taskInv (app w)) (pending w).

(** * Proof automation *)

(** Case analysis on an innermost scrutinee of the goal. *)
Ltac innermost x :=
  lazymatch x with
  | context [match _ with _ => _ end] => fail
  | _ => idtac
  end.

Ltac break_match :=
  match goal with
  | |- context [match ?x with _ => _ end] => innermost x; destruct x eqn:?
  end.

Ltac break_match_in H :=
  match type of H with
  | context [match ?x with _ => _ end] => innermost x; destruct x eqn:?
  end.

(** A handler that leaves the stacks, the log and the counter alone. *)
Ltac same_history :=
  apply hs_same; unfold sameHistory; repeat break_match; simpl; auto.

(** * Further views of the application *)

(** The history panel lists the records newest first: ids decrease along
    the list. *)
Definition newestFirst (gens : list SessionGeneration) : Prop :=
  StronglySorted (fun a b => (gen_id b < gen_id a)%nat) gens.

(** The status slot a pending generation task will clear when it ends. *)
Inductive StatusSlot :=
| BgSlot (k : ServiceBackgroundSubMode)
| AiSlot (m : ModelSource).

Definition slotStatus (slot : StatusSlot) (s : State) : OperationStatus :=
  match slot with
  | BgSlot k => bgGet k (backgroundStatuses s)
  | AiSlot m => amGet m (aiModelStatuses s)
  end.

Definition taskSlot (t : Task) : option StatusSlot :=
  match t with
  | TBackground j => Some (BgSlot (bg_effectiveSubMode j))
  | TAiModel j _ => Some (AiSlot (ai_invokedModelSource j))
  | _ => None
  end.

(** The slot of the active feature. *)
Definition currentSlot (s : State) : StatusSlot :=
  match mode s with
  | ModeBackground => BgSlot (effectiveSubMode s)
  | ModeAiModel => AiSlot (modelSource s)
  end.

(** A generation was requested and then everything was started over while
    the request was still in flight. *)
Definition traceStartOverInFlight : list Event :=
  [ChooseFile ImgProduct 1%nat; FileLoaded 0 "product" 800 600;
   ClickGenerate; ClickStartOver].

(** A scene prompt suggestion is requested, a scene generation is started
    while the suggestion is still pending, and the suggestion fails. *)
Definition tracePromptFailsDuringGeneration : list Event :=
  [ChooseFile ImgProduct 1%nat; FileLoaded 0 "product" 800 600;
   ClickSetBackgroundSubMode SubScene; ClickPromptGen; ClickGenerate;
   Rejected 0 (ErrorObject "Failed to generate prompt suggestion.")].

(** The slot a prompt suggestion started in render [r] reports to. *)
Definition promptSlot (r : State) : StatusSlot :=
  match mode r with
  | ModeBackground => BgSlot SvcScene
  | ModeAiModel => AiSlot (modelSource r)
  end.

(** The events that can change the active feature without going through a
    generation: the three context-aware setters and the colour control. *)
Definition isFeatureSwitch (e : Event) : bool :=
  match e with
  | ClickSetMode _ | ClickSetBackgroundSubMode _ | ClickSetModelSource _
  | ChangeBackgroundColor _ => true
  | _ => false
  end.

(** The prompt cell and the prompt-loading flag of the feature render [r]
    shows: the scene prompt in background mode, the prompt of the selected
    model source in ai-model mode. *)
Definition promptText (r : State) (s : State) : string :=
  match mode r with
  | ModeBackground => scenePrompt s
  | ModeAiModel =>
      match modelSource r with
      | SrcAi => aiGeneratedPrompt s
      | SrcCustom => yourModelPrompt s
      end
  end.

Definition promptLoading (r : State) (s : State) : bool :=
  match mode r with
  | ModeBackground => isScenePromptLoading s
  | ModeAiModel => plGet (modelSource r) (isAiModelPromptLoading s)
  end.

Definition prompts (s : State) : string * string * string :=
  (scenePrompt s, aiGeneratedPrompt s, yourModelPrompt s).

(** A status slot is in a loading phase only while a generation task that
    reports to it is pending. *)
Definition loadingHasJob (w : World) : Prop :=
  forall slot,
    truthyStep (isLoading (slotStatus slot (app w))) = true ->
    exists t, In t (pending w) /\ taskSlot t = Some slot.

(** * The generation service and the data-URL helpers

    [services/geminiService.ts] and [getFileExtensionFromDataUrl].  A string
    is a sequence of code units below 256.  The character classes and the
    string methods below are those of JavaScript on the ASCII strings
    ([isAscii]); a JavaScript string with a code unit above 255 has no
    counterpart here, and the properties that depend on [.], on [trim] or on
    the text of a response are stated for ASCII strings only.  A function
    that can [throw] returns a [Result]; the remote call
    [ai.models.generateContent] is an oracle that gives the outcome of each
    attempt, and the calls and the timer waits of [callGeminiWithRetry] are
    recorded in a trace.  The prompt texts sent with a request do not
    influence the control flow and are left out. *)

(** ** Regular expressions

    The three regular expressions of the sources use literals, a greedy
    [+] or [*] on a character class, capture groups and [$]; they are
    matched by backtracking, as [String.prototype.match] does. *)

Inductive RegExpItem :=
| RLit (s : string)
| RPlus (cls : ascii -> bool)
| RStar (cls : ascii -> bool)
| RGroupStart
| RGroupEnd
| REnd.

Fixpoint stripPrefix (l s : string) : option string :=
  match l with
  | EmptyString => Some s
  | String a l' =>
      match s with
      | String b s' => if Ascii.eqb a b then stripPrefix l' s' else None
      | EmptyString => None
      end
  end.

(** The text consumed between the position where [o] remained and the
    position where [s] remains. *)
Definition captured (o s : string) : string :=
  substring 0 (String.length o - String.length s) o.

(** Greedy repetition: the longest run first, then shorter ones. *)
Fixpoint greedy {A : Type} (cls : ascii -> bool) (k : string -> option A) (s : string)
    : option A :=
  match s with
  | String c s' =>
      if cls c
      then match greedy cls k s' with
           | Some r => Some r
           | None => k s
           end
      else k s
  | EmptyString => k s
  end.

(** Match at the current position; the result lists the captures. *)
Fixpoint matchFrom (items : list RegExpItem) (opened : list string) (caps : list string)
    (s : string) {struct items} : option (list string) :=
  match items with
  | [] => Some (rev caps)
  | RLit l :: rest =>
      match stripPrefix l s with
      | Some s' => matchFrom rest opened caps s'
      | None => None
      end
  | RPlus cls :: rest =>
      match s with
      | String c s' => if cls c then greedy cls (matchFrom rest opened caps) s' else None
      | EmptyString => None
      end
  | RStar cls :: rest => greedy cls (matchFrom rest opened caps) s
  | RGroupStart :: rest => matchFrom rest (s :: opened) caps s
  | RGroupEnd :: rest =>
      match opened with
      | o :: opened' => matchFrom rest opened' (captured o s :: caps) s
      | [] => None
      end
  | REnd :: rest =>
      match s with
      | EmptyString => matchFrom rest opened caps s
      | String _ _ => None
      end
  end.

(** An expression that starts with [^] is tried at the start only. *)
Definition matchAnchored (items : list RegExpItem) (s : string) : option (list string) :=
  matchFrom items [] [] s.

(** Otherwise the leftmost position where it matches is taken. *)
Fixpoint matchSearch (items : list RegExpItem) (s : string) : option (list string) :=
  match matchFrom items [] [] s with
  | Some r => Some r
  | None =>
      match s with
      | String _ s' => matchSearch items s'
      | EmptyString => None
      end
  end.

Definition inRange (lo hi : nat) (c : ascii) : bool :=
  (lo <=? nat_of_ascii c)%nat && (nat_of_ascii c <=? hi)%nat.

(** [\w] is [[A-Za-z0-9_]]. *)
Definition isWordChar (c : ascii) : bool :=
  inRange 65 90 c || inRange 97 122 c || inRange 48 57 c || Ascii.eqb c "_".

(** [.] is any character but a line terminator.  The line terminators are
    LF, CR, U+2028 and U+2029; the last two are above 255, so they do not
    occur in the strings of this model, and what is proved of [.] is
    stated for ASCII text. *)
Definition isNotLineTerminator (c : ascii) : bool :=
  negb (Nat.eqb (nat_of_ascii c) 10 || Nat.eqb (nat_of_ascii c) 13).

Fixpoint allChars (p : ascii -> bool) (s : string) : bool :=
  match s with
  | EmptyString => true
  | String c s' => p c && allChars p s'
  end.

(** The strings on which every reading of the code units agrees. *)
Definition isAsciiChar (c : ascii) : bool := (nat_of_ascii c <? 128)%nat.

Definition isAscii (s : string) : bool := allChars isAsciiChar s.

(** ** Strings *)

(** [hay.includes(needle)] *)
Fixpoint includes (needle hay : string) : bool :=
  if prefix needle hay then true
  else match hay with
       | String _ hay' => includes needle hay'
       | EmptyString => false
       end.

(** [toLowerCase] maps A to Z to a to z and leaves every other ASCII
    character as it is.  A letter above 127 has its lower case above 127
    too; it is left as it is here, which makes no difference to the two
    searches made on a lower-cased message, whose needles are ASCII. *)
Definition lowerChar (c : ascii) : ascii :=
  if inRange 65 90 c then ascii_of_nat (nat_of_ascii c + 32) else c.

Fixpoint toLowerCase (s : string) : string :=
  match s with
  | EmptyString => EmptyString
  | String c s' => String (lowerChar c) (toLowerCase s')
  end.

(** White space and line terminators, as [trim] removes them: TAB, LF,
    VT, FF, CR, the space and the no-break space U+00A0.  The other ones
    (U+FEFF, U+2028, U+2029 and the remaining space separators) are above
    255; what is proved of [trim] is stated for ASCII text. *)
Definition isWhiteSpace (c : ascii) : bool :=
  inRange 9 13 c || Nat.eqb (nat_of_ascii c) 32 || Nat.eqb (nat_of_ascii c) 160.

Fixpoint trimStart (s : string) : string :=
  match s with
  | String c s' => if isWhiteSpace c then trimStart s' else s
  | EmptyString => EmptyString
  end.

Fixpoint trimEnd (s : string) : string :=
  match s with
  | String c s' =>
      match trimEnd s' with
      | EmptyString => if isWhiteSpace c then EmptyString else String c EmptyString
      | t => String c t
      end
  | EmptyString => EmptyString
  end.

Definition trim (s : string) : string := trimEnd (trimStart s).

(** ** Results and thrown values *)

(** A thrown value: an [Error] with its message; another value with the
    text [JSON.stringify] gives for it; or a value from which no message can
    be had ([undefined], a function or a symbol, for which [JSON.stringify]
    gives [undefined]; a BigInt or a cyclic object, for which it throws; an
    [Error] whose [message] is not a string), with the message of the
    [TypeError] that computing and searching its message raises. *)
Inductive Exn :=
| ExnError (message : string)
| ExnValue (json : string)
| ExnOpaque (typeError : string).

Inductive Result (A : Type) :=
| Ok (a : A)
| Throw (e : Exn).

Arguments Ok {A} a.
Arguments Throw {A} e.

(** What the [catch] clause of a handler of the component receives. *)
Definition asThrown (e : Exn) : Thrown :=
  match e with
  | ExnError m => ErrorObject m
  | ExnValue _ => OtherValue
  | ExnOpaque _ => OtherValue
  end.

(** ** [parseDataUrl] *)

Record ParsedDataUrl := {
  mimeType : string;
  data : string
}.

(** The expression of [parseDataUrl]: start of input, [data:], a group
    with [image/] and one or more word characters, [;base64,], a group with
    any characters but line terminators, end of input. *)
Definition parseDataUrlRegExp : list RegExpItem :=
  [RLit "data:"; RGroupStart; RLit "image/"; RPlus isWordChar; RGroupEnd;
   RLit ";base64,"; RGroupStart; RStar isNotLineTerminator; RGroupEnd; REnd].

Definition parseDataUrl (imageDataUrl : string) : Result ParsedDataUrl :=
  match matchAnchored parseDataUrlRegExp imageDataUrl with
  | Some [mimeType; data] => Ok {| mimeType := mimeType; data := data |}
  | _ => Throw (ExnError
           "Invalid image data URL format. Expected 'data:image/...;base64,...'")
  end.

(** ** [getFileExtensionFromDataUrl] *)

(** The expression of [getFileExtensionFromDataUrl]: [data:], a group
    with [image/] and one or more word characters, [;]; not anchored. *)
Definition fileExtensionRegExp : list RegExpItem :=
  [RLit "data:"; RGroupStart; RLit "image/"; RPlus isWordChar; RGroupEnd; RLit ";"].

Definition extensionOfMimeType (mimeType : string) : string :=
  if String.eqb mimeType "image/jpeg" then "jpg"
  else if String.eqb mimeType "image/png" then "png"
  else if String.eqb mimeType "image/gif" then "gif"
  else if String.eqb mimeType "image/webp" then "webp"
  else "jpg".

Definition getFileExtensionFromDataUrl (dataUrl : string) : string :=
  match matchSearch fileExtensionRegExp dataUrl with
  | None => "jpg"
  | Some mimeTypeMatch =>
      match mimeTypeMatch with
      | mimeType :: _ => extensionOfMimeType mimeType
      | [] => "jpg"
      end
  end.

(** ** [extractImageFromResponse] *)

(** The parts of a [GenerateContentResponse] the service reads; every
    field is optional in the SDK's types. *)
Record InlineData := {
  blob_mimeType : option string;
  blob_data : option string
}.

Record Part := {
  part_inlineData : option InlineData
}.

Record Content := {
  content_parts : option (list Part)
}.

Record Candidate := {
  cand_finishReason : option string;
  cand_content : option Content
}.

(** [resp_text] is the value of the SDK's [text] getter. *)
Record GenerateContentResponse := {
  resp_candidates : option (list Candidate);
  resp_text : option string
}.

(** An [undefined] value in a template literal. *)
Definition interpolate (v : option string) : string :=
  match v with
  | Some s => s
  | None => "undefined"
  end.

Definition finishReasonIs (candidate : option Candidate) (reason : string) : bool :=
  match candidate with
  | Some c =>
      match cand_finishReason c with
      | Some r => String.eqb r reason
      | None => false
      end
  | None => false
  end.

Definition hasInlineData (part : Part) : bool :=
  match part_inlineData part with Some _ => true | None => false end.

Definition doubleQuote : string := String (ascii_of_nat 34) EmptyString.

Definition safetyMessage : string :=
  "Image generation was blocked due to safety policies. Please try a different image or prompt.".

Definition recitationMessage : string :=
  "Image generation was blocked as it may contain copyrighted material. Please try a different prompt.".

Definition textInsteadMessage (textResponse : option string) : string :=
  ("The AI model responded with text instead of an image: " ++ doubleQuote
   ++ (match textResponse with
       | Some t => if truthyStr t then t else "No text response received."
       | None => "No text response received."
       end)
   ++ doubleQuote)%string.

Definition extractImageFromResponse (response : GenerateContentResponse) : Result string :=
  let candidate :=
    match resp_candidates response with
    | Some (c :: _) => Some c
    | _ => None
    end in
  if finishReasonIs candidate "SAFETY" || finishReasonIs candidate "PROHIBITED_CONTENT"
  then Throw (ExnError safetyMessage)
  else if finishReasonIs candidate "RECITATION"
  then Throw (ExnError recitationMessage)
  else
    let imagePart :=
      match candidate with
      | Some c =>
          match cand_content c with
          | Some ct =>
              match content_parts ct with
              | Some ps => find hasInlineData ps
              | None => None
              end
          | None => None
          end
      | None => None
      end in
    match imagePart with
    | Some p =>
        match part_inlineData p with
        | Some b =>
            Ok ("data:" ++ interpolate (blob_mimeType b) ++ ";base64,"
                ++ interpolate (blob_data b))%string
        | None => Throw (ExnError (textInsteadMessage (resp_text response)))
        end
    | None => Throw (ExnError (textInsteadMessage (resp_text response)))
    end.

(** ** [callGeminiWithRetry] *)

Inductive ApiOutcome :=
| Returned (response : GenerateContentResponse)
| Threw (error : Exn).

Inductive Effect :=
| ApiCall (attempt : nat)
| Sleep (ms : Z).

Definition maxRetries : nat := 3.
Definition initialDelay : Z := 1000.

Definition regionMessage : string :=
  "We're sorry, but AI image generation is not available in your region at this time due to service restrictions.".

(** The text a thrown value stands for: the message of an [Error], the
    JSON text of another value, and for a value without either the message
    of the [TypeError] it leads to. *)
Definition errorMessageOf (error : Exn) : string :=
  match error with
  | ExnError m => m
  | ExnValue json => json
  | ExnOpaque typeError => typeError
  end.

(** [error instanceof Error ? error.message : JSON.stringify(error)],
    followed by the first [errorMessage.includes]: the message the [catch]
    clause goes on with, or the [TypeError] raised inside the clause. *)
Definition messageOrTypeError (error : Exn) : Result string :=
  match error with
  | ExnError m => Ok m
  | ExnValue json => Ok json
  | ExnOpaque typeError => Throw (ExnError typeError)
  end.

Definition isRegionError (errorMessage : string) : bool :=
  includes "412" errorMessage
  && includes "not available in your country" (toLowerCase errorMessage).

Definition isInternalError (errorMessage : string) : bool :=
  includes "500" errorMessage || includes "503" errorMessage
  || includes "internal" (toLowerCase errorMessage).

Definition retryDelay (attempt : nat) : Z :=
  initialDelay * 2 ^ (Z.of_nat attempt - 1).

(** The body of the [for] loop over the attempts that remain. *)
Fixpoint retryLoop (attempts : list nat) (api : nat -> ApiOutcome) (trace : list Effect)
    : Result GenerateContentResponse * list Effect :=
  match attempts with
  | [] => (Throw (ExnError "Gemini API call failed after all retries."), trace)
  | attempt :: rest =>
      let trace := trace ++ [ApiCall attempt] in
      match api attempt with
      | Returned response => (Ok response, trace)
      | Threw error =>
          match messageOrTypeError error with
          | Throw typeError => (Throw typeError, trace)
          | Ok errorMessage =>
              if isRegionError errorMessage
              then (Throw (ExnError regionMessage), trace)
              else if isInternalError errorMessage && (attempt <? maxRetries)%nat
              then retryLoop rest api (trace ++ [Sleep (retryDelay attempt)])
              else (Throw error, trace)
          end
      end
  end.

Definition callGeminiWithRetry (api : nat -> ApiOutcome)
    : Result GenerateContentResponse * list Effect :=
  retryLoop (seq 1 maxRetries) api [].

(** ** The three exported operations *)

(** [apiKey] is the value of the module constant [API_KEY]. *)
Definition checkApiKey (apiKey : option string) : bool :=
  match apiKey with
  | Some k => truthyStr k
  | None => false
  end.

Definition demoImageMessage : string :=
  "Demo mode: Please configure your VITE_API_KEY environment variable to generate images.".

Definition demoSuggestion : string :=
  "Demo mode: AI prompt suggestion would appear here. Please configure your API key.".

(** [try { return extractImageFromResponse(await callGeminiWithRetry(...)) }
     catch { throw new Error(failure) }] *)
Definition requestImage (failure : string) (api : nat -> ApiOutcome)
    : Result string * list Effect :=
  let (r, trace) := callGeminiWithRetry api in
  match r with
  | Ok response =>
      match extractImageFromResponse response with
      | Ok dataUrl => (Ok dataUrl, trace)
      | Throw _ => (Throw (ExnError failure), trace)
      end
  | Throw _ => (Throw (ExnError failure), trace)
  end.

(** The [switch] on [settings.backgroundSubMode] chooses the prompt text;
    its three cases are the three values of the type, so its [default]
    branch is not taken. *)
Definition generateProductShot (apiKey : option string) (productDataUrl : string)
    (api : nat -> ApiOutcome) : Result string * list Effect :=
  if negb (checkApiKey apiKey) then (Throw (ExnError demoImageMessage), [])
  else
    match parseDataUrl productDataUrl with
    | Throw e => (Throw e, [])
    | Ok _ => requestImage "Failed to generate the product shot." api
    end.

Definition productRequiredMessage : string :=
  "A product image is required to generate an AI model shot.".

(** [productDataUrl] and [modelDataUrl] are [string | null]. *)
Definition generateAiModelShot (apiKey : option string)
    (productDataUrl modelDataUrl : option string) (api : nat -> ApiOutcome)
    : Result string * list Effect :=
  if negb (checkApiKey apiKey) then (Throw (ExnError demoImageMessage), [])
  else
    match productDataUrl with
    | None => (Throw (ExnError productRequiredMessage), [])
    | Some product =>
        if negb (truthyStr product) then (Throw (ExnError productRequiredMessage), [])
        else
          let parsed :=
            match modelDataUrl with
            | Some model =>
                if truthyStr model
                then match parseDataUrl model with
                     | Throw e => Throw e
                     | Ok _ => parseDataUrl product
                     end
                else parseDataUrl product
            | None => parseDataUrl product
            end in
          match parsed with
          | Throw e => (Throw e, [])
          | Ok _ => requestImage "Failed to generate the AI model shot." api
          end
    end.

(** The two calls of [parseDataUrl] are made before the [try]; reading
    [response.text.trim()] of a response without text throws inside it. *)
Definition generatePromptSuggestion (apiKey : option string) (productDataUrl : string)
    (mode : Mode) (modelDataUrl : option string) (api : nat -> ApiOutcome)
    : Result string * list Effect :=
  if negb (checkApiKey apiKey) then (Ok demoSuggestion, [])
  else
    match parseDataUrl productDataUrl with
    | Throw e => (Throw e, [])
    | Ok _ =>
        let modelFailure :=
          match mode, modelDataUrl with
          | ModeAiModel, Some model =>
              if truthyStr model
              then match parseDataUrl model with
                   | Throw e => Some e
                   | Ok _ => None
                   end
              else None
          | _, _ => None
          end in
        match modelFailure with
        | Some e => (Throw e, [])
        | None =>
            let (r, trace) := callGeminiWithRetry api in
            let failure := Throw (ExnError "Failed to generate prompt suggestion.") in
            match r with
            | Ok response =>
                match resp_text response with
                | Some text =>
                    let suggestion := trim text in
                    if truthyStr suggestion then (Ok suggestion, trace)
                    else (failure, trace)
                | None => (failure, trace)
                end
            | Throw _ => (failure, trace)
            end
        end
    end.

Definition invalidDataUrlMessage : string :=
  "Invalid image data URL format. Expected 'data:image/...;base64,...'".

(** The data URL [extractImageFromResponse] builds from an inline image. *)
Definition dataUrlOf (b : InlineData) : string :=
  ("data:" ++ interpolate (blob_mimeType b) ++ ";base64," ++ interpolate (blob_data b))%string.

(** The image part [extractImageFromResponse] looks at: the first part with
    inline data of the first candidate. *)
Definition firstInlineData (response : GenerateContentResponse) : option InlineData :=
  match resp_candidates response with
  | Some (c :: _) =>
      match cand_content c with
      | Some ct =>
          match content_parts ct with
          | Some ps =>
              match find hasInlineData ps with
              | Some p => part_inlineData p
              | None => None
              end
          | None => None
          end
      | None => None
      end
  | _ => None
  end.

Definition firstFinishReason (response : GenerateContentResponse) : option string :=
  match resp_candidates response with
  | Some (c :: _) => cand_finishReason c
  | _ => None
  end.

Definition blockingFinishReasons : list string :=
  ["SAFETY"; "PROHIBITED_CONTENT"; "RECITATION"].

(** An attempt after which [callGeminiWithRetry] would try again. *)
Definition retriable (o : ApiOutcome) : bool :=
  match o with
  | Threw (ExnOpaque _) => false
  | Threw e => negb (isRegionError (errorMessageOf e)) && isInternalError (errorMessageOf e)
  | Returned _ => false
  end.

(** What the attempt at which the loop stops gives the caller. *)
Definition attemptResult (o : ApiOutcome) : Result GenerateContentResponse :=
  match o with
  | Returned response => Ok response
  | Threw (ExnOpaque typeError) => Throw (ExnError typeError)
  | Threw e =>
      if isRegionError (errorMessageOf e) then Throw (ExnError regionMessage) else Throw e
  end.

(** Every response text the service gives is ASCII. *)
Definition asciiTexts (api : nat -> ApiOutcome) : Prop :=
  forall n response text,
    api n = Returned response -> resp_text response = Some text -> isAscii text = true.

(** A string, when there is one, is ASCII. *)
Definition isAsciiOpt (v : option string) : bool :=
  match v with
  | Some s => isAscii s
  | None => true
  end.

(** The calls and waits of a run that stops at attempt [n]. *)
Definition retryTrace (n : nat) : list Effect :=
  firstn (2 * n - 1) [ApiCall 1; Sleep 1000; ApiCall 2; Sleep 2000; ApiCall 3].

Definition productShotFailure : string := "Failed to generate the product shot.".
Definition aiModelShotFailure : string := "Failed to generate the AI model shot.".
Definition promptSuggestionFailure : string := "Failed to generate prompt suggestion.".

(** The render in whose closure a generation task will record its result. *)
Definition completionRender (t : Task) : option State :=
  match t with
  | TBackground j => Some (bg_render j)
  | TAiModel j AwaitGenerate => Some (ai_render j)
  | _ => None
  end.

(** The test [recordNewGeneration] makes before it raises the history
    notification, on the render [r] it closes over. *)
Definition historyHidden (r : State) (isMobile : bool) : bool :=
  (isMobile && negb (isMobileHistoryOpen r))
  || (negb isMobile && negb (AppTab_eqb (activeTab r) TabHistory)).

(** A request is submitted on the settings tab and the history tab is
    opened while it is in flight. *)
Definition traceHistoryOpenedInFlight : list Event :=
  [ChooseFile ImgProduct 1%nat; FileLoaded 0 "product" 800 600;
   ClickGenerate; ClickTab TabHistory].

(** The state shows the record [g]: the thirteen controls are those of its
    snapshot, their feature is the record's, the settings tab is open, and
    the record is listed and selected. *)
Definition showsRecord (g : SessionGeneration) (s : State) : Prop :=
  takeSnapshot s
  = withImageUrls (url (productImage s)) (url (modelImage s)) (gen_snapshot g)
  /\ getCurrentFeatureKey s = gen_featureKey g
  /\ activeTab s = TabSettings
  /\ activeGenerationId s = Some (gen_id g)
  /\ findGeneration (gen_id g) (sessionGenerations s) = Some g.

(** * Properties *)

(** ** Keyed access *)

Lemma FeatureKey_eqb_eq (a b : FeatureKey) : FeatureKey_eqb a b = true <-> a = b.
Proof. destruct a, b; simpl; split; congruence. Qed.

Lemma FeatureKey_eqb_neq (a b : FeatureKey) : FeatureKey_eqb a b = false <-> a <> b.
Proof. destruct a, b; simpl; split; congruence. Qed.

Lemma getStack_setStack_same k v s : getStack k (setStack k v s) = v.
Proof. destruct k; reflexivity. Qed.

Lemma getStack_setStack_other k k' v s :
  k <> k' -> getStack k' (setStack k v s) = getStack k' s.
Proof. destruct k, k'; simpl; congruence. Qed.

Lemma setStack_getStack k s : setStack k (getStack k s) s = s.
Proof. destruct k, s; reflexivity. Qed.

Lemma bgGet_bgSet_same k v s : bgGet k (bgSet k v s) = v.
Proof. destruct k; reflexivity. Qed.

Lemma amGet_amSet_same k v s : amGet k (amSet k v s) = v.
Proof. destruct k; reflexivity. Qed.

(** ** One generation stack *)

Lemma sliceTo_firstn xs e : 0 <= e -> sliceTo xs e = firstn (Z.to_nat e) xs.
Proof.
  intros He. unfold sliceTo.
  destruct (e <? 0) eqn:E; [apply Z.ltb_lt in E; lia|].
  destruct (Z.le_gt_cases e (Z.of_nat (List.length xs))) as [Hle|Hgt].
  - now rewrite Z.min_l.
  - rewrite Z.min_r by lia. rewrite Nat2Z.id.
    rewrite firstn_all. symmetry. apply firstn_all2. lia.
Qed.

Lemma pushImage_inv imageUrl st : stackInv (pushImage imageUrl st).
Proof.
  unfold stackInv, pushImage; simpl. rewrite length_app; simpl. lia.
Qed.

Lemma pushImage_spec imageUrl st :
  -1 <= currentIndex st ->
  images (pushImage imageUrl st)
    = firstn (Z.to_nat (currentIndex st + 1)) (images st) ++ [imageUrl]
  /\ currentIndex (pushImage imageUrl st)
    = Z.of_nat (List.length (images (pushImage imageUrl st))) - 1.
Proof.
  intros H. unfold pushImage; simpl. rewrite sliceTo_firstn by lia. split; reflexivity.
Qed.

Lemma pushImage_length imageUrl st :
  stackInv st ->
  Z.of_nat (List.length (images (pushImage imageUrl st))) = currentIndex st + 2.
Proof.
  intros [H1 H2]. unfold pushImage; simpl. rewrite sliceTo_firstn by lia.
  rewrite length_app, length_firstn; simpl. lia.
Qed.

Lemma undoStack_inv st : stackInv st -> stackInv (undoStack st).
Proof.
  unfold stackInv, undoStack. intros H.
  destruct (0 <=? currentIndex st) eqn:E; simpl; [apply Z.leb_le in E|]; lia.
Qed.

Lemma redoStack_inv st : stackInv st -> stackInv (redoStack st).
Proof.
  unfold stackInv, redoStack. intros H.
  destruct (currentIndex st <? Z.of_nat (List.length (images st)) - 1) eqn:E; simpl;
    [apply Z.ltb_lt in E|]; lia.
Qed.

Lemma initialGenerationStacks_inv : stacksInv initialGenerationStacks.
Proof. intros k; destruct k; unfold stackInv; simpl; lia. Qed.

Lemma stacksInv_setStack k v ss : stackInv v -> stacksInv ss -> stacksInv (setStack k v ss).
Proof.
  intros Hv Hss k'. destruct (FeatureKey_eqb k k') eqn:E.
  - apply FeatureKey_eqb_eq in E; subst. now rewrite getStack_setStack_same.
  - apply FeatureKey_eqb_neq in E. rewrite getStack_setStack_other by assumption. apply Hss.
Qed.

(** ** The stacks under the handlers *)

Lemma recordNewGeneration_stacks r isMobile imageUrl generationId featureKey s :
  generationStacks (recordNewGeneration r isMobile imageUrl generationId featureKey s)
  = setStack featureKey (pushImage imageUrl (getStack featureKey (generationStacks s)))
      (generationStacks s).
Proof.
  unfold recordNewGeneration.
  destruct (FeatureKey_eqb _ _); destruct (_ || _); reflexivity.
Qed.

Lemma handleUndo_stacks s :
  generationStacks (handleUndo s)
  = setStack (getCurrentFeatureKey s) (undoStack (currentStack s)) (generationStacks s).
Proof.
  unfold handleUndo, undoStack, currentStack; simpl.
  destruct (0 <=? _); [reflexivity|]. now rewrite setStack_getStack.
Qed.

Lemma handleRedo_stacks s :
  generationStacks (handleRedo s)
  = setStack (getCurrentFeatureKey s) (redoStack (currentStack s)) (generationStacks s).
Proof.
  unfold handleRedo, redoStack, currentStack; simpl.
  destruct (_ <? _); [reflexivity|]. now rewrite setStack_getStack.
Qed.

(** ** The session log under its updaters *)

Lemma genInv_mono c c' g : (c <= c')%nat -> genInv c g -> genInv c' g.
Proof. unfold genInv. intros Hc (H1 & H2 & H3). repeat split; try assumption. lia. Qed.

Lemma NoDup_ids_filter (keep : SessionGeneration -> bool) (gens : list SessionGeneration) :
  NoDup (map gen_id gens) -> NoDup (map gen_id (filter keep gens)).
Proof.
  induction gens as [|g gens IH]; simpl; [intros _; constructor|].
  intros Hnd. apply NoDup_cons_iff in Hnd. destruct Hnd as [Hfresh Hrest].
  destruct (keep g); simpl; [|exact (IH Hrest)].
  apply NoDup_cons; [|exact (IH Hrest)].
  rewrite in_map_iff in *. intros (g' & Hid & Hin).
  apply Hfresh. exists g'. split; [exact Hid|].
  apply filter_In in Hin. tauto.
Qed.

Lemma completeRecord_id imageUrl generationId gen :
  gen_id (completeRecord imageUrl generationId gen) = gen_id gen.
Proof. unfold completeRecord. destruct (Nat.eqb _ _); reflexivity. Qed.

Lemma completeRecord_inv c imageUrl generationId gen :
  genInv c gen -> genInv c (completeRecord imageUrl generationId gen).
Proof.
  unfold completeRecord, genInv. intros (H1 & H2 & H3).
  destruct (Nat.eqb _ _); simpl; repeat split; eauto.
Qed.

Lemma map_completeRecord_ids imageUrl generationId gens :
  map gen_id (map (completeRecord imageUrl generationId) gens) = map gen_id gens.
Proof.
  rewrite map_map. apply map_ext. intros; apply completeRecord_id.
Qed.

Lemma recordNewGeneration_log r isMobile imageUrl generationId featureKey s :
  sessionGenerations (recordNewGeneration r isMobile imageUrl generationId featureKey s)
  = map (completeRecord imageUrl generationId) (sessionGenerations s).
Proof.
  unfold recordNewGeneration.
  destruct (FeatureKey_eqb _ _); destruct (_ || _); reflexivity.
Qed.

Lemma recordNewGeneration_counter r isMobile imageUrl generationId featureKey s :
  generationIdCounter (recordNewGeneration r isMobile imageUrl generationId featureKey s)
  = generationIdCounter s.
Proof.
  unfold recordNewGeneration.
  destruct (FeatureKey_eqb _ _); destruct (_ || _); reflexivity.
Qed.

Section LogInvariant.

Variables s s' : State.

Lemma logInv_same :
  sessionGenerations s' = sessionGenerations s ->
  generationIdCounter s' = generationIdCounter s ->
  logInv s -> logInv s'.
Proof. unfold logInv. intros -> ->. tauto. Qed.

Lemma logInv_cleared :
  sessionGenerations s' = [] -> logInv s'.
Proof. unfold logInv. intros ->. split; constructor. Qed.

Lemma logInv_filtered p :
  sessionGenerations s' = filter p (sessionGenerations s) ->
  generationIdCounter s' = generationIdCounter s ->
  logInv s -> logInv s'.
Proof.
  unfold logInv. intros -> -> [HF HN]. split.
  - apply Forall_forall. intros g Hg. apply filter_In in Hg.
    rewrite Forall_forall in HF. now apply HF.
  - now apply NoDup_ids_filter.
Qed.

Lemma logInv_completed imageUrl generationId :
  sessionGenerations s' = map (completeRecord imageUrl generationId) (sessionGenerations s) ->
  generationIdCounter s' = generationIdCounter s ->
  logInv s -> logInv s'.
Proof.
  unfold logInv. intros -> -> [HF HN]. split.
  - apply Forall_map. revert HF. apply Forall_impl. intros; now apply completeRecord_inv.
  - now rewrite map_completeRecord_ids.
Qed.

Lemma logInv_appended featureKey snapshot :
  featureKey = snapshotFeatureKey snapshot ->
  sessionGenerations s'
  = loadingRecord (generationIdCounter s) featureKey snapshot :: sessionGenerations s ->
  generationIdCounter s' = S (generationIdCounter s) ->
  logInv s -> logInv s'.
Proof.
  unfold logInv. intros Hk -> -> [HF HN]. split.
  - constructor.
    + unfold genInv; simpl. repeat split; [lia|assumption].
    + revert HF. apply Forall_impl. intros g. apply genInv_mono. lia.
  - simpl. constructor; [|assumption].
    intros Hin. apply in_map_iff in Hin. destruct Hin as (g & Hid & Hin).
    rewrite Forall_forall in HF. destruct (HF g Hin) as [Hlt _]. lia.
Qed.

End LogInvariant.

(** ** Effects *)

Lemma clearCurrentError_cells r s :
  sameHistory s (clearCurrentError r s)
  /\ activeGenerationId (clearCurrentError r s) = activeGenerationId s
  /\ activeTab (clearCurrentError r s) = activeTab s
  /\ getCurrentFeatureKey (clearCurrentError r s) = getCurrentFeatureKey s
  /\ currentFeatureKeyRef (clearCurrentError r s) = currentFeatureKeyRef s.
Proof.
  unfold clearCurrentError, sameHistory. destruct (mode r); simpl; auto 10.
Qed.

Lemma effectDeselect_cells s :
  sameHistory s (effectDeselect s)
  /\ activeTab (effectDeselect s) = activeTab s
  /\ getCurrentFeatureKey (effectDeselect s) = getCurrentFeatureKey s
  /\ currentFeatureKeyRef (effectDeselect s) = currentFeatureKeyRef s.
Proof.
  unfold effectDeselect, sameHistory.
  repeat break_match; simpl; auto 10.
Qed.

Lemma effectDeselect_idem s : effectDeselect (effectDeselect s) = effectDeselect s.
Proof.
  unfold effectDeselect at 2.
  destruct (activeTab s) eqn:Ht; [|reflexivity].
  destruct (activeGenerationId s) as [aid|] eqn:Ha; [|reflexivity].
  destruct (findGeneration aid (sessionGenerations s)) as [g|] eqn:Hf; [|reflexivity].
  destruct (negb _) eqn:Hn.
  - unfold effectDeselect; simpl; unfold val. rewrite Ht, Ha, Hf, Hn. reflexivity.
  - unfold effectDeselect. rewrite Ht, Ha, Hf, Hn. reflexivity.
Qed.

Lemma commit_sameHistory r s : sameHistory s (commit r s).
Proof.
  unfold commit.
  destruct (effectDeselect_cells
              (if featureDepsChanged r s
               then clearCurrentError s (effectSyncFeatureKeyRef s)
               else effectSyncFeatureKeyRef s)) as ((E1 & E2 & E3) & _).
  unfold sameHistory. rewrite E1, E2, E3.
  destruct (featureDepsChanged r s).
  - destruct (clearCurrentError_cells s (effectSyncFeatureKeyRef s)) as ((C1 & C2 & C3) & _).
    rewrite C1, C2, C3. auto.
  - auto.
Qed.

Lemma commit_settled r s : settled (commit r s).
Proof.
  unfold settled, commit. split; [|apply effectDeselect_idem].
  match goal with |- context [effectDeselect ?x] =>
    destruct (effectDeselect_cells x) as (_ & _ & -> & ->) end.
  destruct (featureDepsChanged r s).
  - destruct (clearCurrentError_cells s (effectSyncFeatureKeyRef s)) as (_ & _ & _ & -> & ->).
    reflexivity.
  - reflexivity.
Qed.

Lemma commit_featureKey r s : getCurrentFeatureKey (commit r s) = getCurrentFeatureKey s.
Proof.
  unfold commit.
  match goal with |- context [effectDeselect ?x] =>
    destruct (effectDeselect_cells x) as (_ & _ & -> & _) end.
  destruct (featureDepsChanged r s); [|reflexivity].
  now destruct (clearCurrentError_cells s (effectSyncFeatureKeyRef s)) as (_ & _ & _ & -> & _).
Qed.

(** ** What the handlers do to the history *)

Lemma historyStep_inv s s' :
  historyStep s s' ->
  stacksInv (generationStacks s) /\ logInv s ->
  stacksInv (generationStacks s') /\ logInv s'.
Proof.
  intros H [HS HL]. destruct H as [(E1 & E2 & E3)|E1 E2 E3|k snap Hk E1 E2 E3
                                  |k img i E1 E2 E3|p E1 E2 E3|k E1 E2 E3|k E1 E2 E3];
    rewrite E1.
  - split; [assumption|]. eapply logInv_same; eauto.
  - split; [apply initialGenerationStacks_inv|]. now apply logInv_cleared.
  - split; [assumption|]. eapply logInv_appended; eauto.
  - split; [apply stacksInv_setStack; [apply pushImage_inv|assumption]|].
    eapply logInv_completed; eauto.
  - split; [assumption|]. eapply logInv_filtered; eauto.
  - split; [apply stacksInv_setStack; [apply undoStack_inv, HS|assumption]|].
    eapply logInv_same; eauto.
  - split; [apply stacksInv_setStack; [apply redoStack_inv, HS|assumption]|].
    eapply logInv_same; eauto.
Qed.

Lemma historyStep_then_same s s1 s2 :
  historyStep s s1 -> sameHistory s1 s2 -> historyStep s s2.
Proof.
  intros H (F1 & F2 & F3).
  destruct H as [(E1 & E2 & E3)|E1 E2 E3|k snap Hk E1 E2 E3
                |k img i E1 E2 E3|p E1 E2 E3|k E1 E2 E3|k E1 E2 E3].
  - apply hs_same. unfold sameHistory. rewrite F1, F2, F3. auto.
  - apply hs_reset; congruence.
  - apply hs_append with (featureKey := k) (snapshot := snap); congruence.
  - apply hs_complete with (featureKey := k) (imageUrl := img) (generationId := i);
      congruence.
  - apply hs_filter with (p := p); congruence.
  - apply hs_undo with (featureKey := k); congruence.
  - apply hs_redo with (featureKey := k); congruence.
Qed.

Lemma historyStep_commit r s s1 : historyStep s s1 -> historyStep s (commit r s1).
Proof. intros H. eapply historyStep_then_same; [exact H|apply commit_sameHistory]. Qed.

Lemma handleBackgroundGenerate_history s :
  mode s = ModeBackground -> historyStep s (fst (handleBackgroundGenerate s)).
Proof.
  intros Hm. unfold handleBackgroundGenerate.
  destruct (negb _); [same_history|].
  destruct (truthyStep _); [same_history|]. simpl.
  apply hs_append with (featureKey := backgroundKey (effectiveSubMode s))
                       (snapshot := takeSnapshot s); try reflexivity.
  unfold snapshotFeatureKey, takeSnapshot, featureKeyOf; simpl. rewrite Hm. reflexivity.
Qed.

Lemma handleAiModelGenerate_blend_history j s :
  sameHistory s (fst (handleAiModelGenerate_blend j s)).
Proof.
  unfold handleAiModelGenerate_blend, sameHistory. destruct (_ && _); simpl; auto.
Qed.

Lemma handleAiModelGenerate_history s :
  mode s = ModeAiModel -> historyStep s (fst (handleAiModelGenerate s)).
Proof.
  intros Hm. unfold handleAiModelGenerate.
  destruct (truthyStep _); [same_history|].
  assert (Hk : aiModelKey (modelSource s) = snapshotFeatureKey (takeSnapshot s)).
  { unfold snapshotFeatureKey, takeSnapshot, featureKeyOf; simpl. now rewrite Hm. }
  destruct (truthyUrl _).
  - simpl. apply hs_append with (featureKey := aiModelKey (modelSource s))
                               (snapshot := takeSnapshot s); try reflexivity. exact Hk.
  - match goal with |- context [handleAiModelGenerate_blend ?j ?x] =>
      pose proof (handleAiModelGenerate_blend_history j x) as (B1 & B2 & B3);
      destruct (handleAiModelGenerate_blend j x) as [s'' ph] end.
    simpl in *. apply hs_append with (featureKey := aiModelKey (modelSource s))
                                     (snapshot := takeSnapshot s);
      [exact Hk|congruence..].
Qed.

Lemma handleGenerateClick_history s : historyStep s (fst (handleGenerateClick s)).
Proof.
  unfold handleGenerateClick. destruct (mode s) eqn:Hm.
  - pose proof (handleBackgroundGenerate_history s Hm) as H.
    destruct (handleBackgroundGenerate s) as [s' [j|]]; exact H.
  - pose proof (handleAiModelGenerate_history s Hm) as H.
    destruct (handleAiModelGenerate s) as [s' [[j ph]|]]; exact H.
Qed.

Lemma handleSelectGeneration_history isMobile i s :
  sameHistory s (fst (handleSelectGeneration isMobile i s)).
Proof.
  unfold handleSelectGeneration, sameHistory.
  destruct (findGeneration i (sessionGenerations s)) as [g|]; [|simpl; auto].
  destruct (snap_productImageUrl (gen_snapshot g)) as [u|]; [destruct (truthyStr u)|];
    (destruct (snap_modelImageUrl (gen_snapshot g)) as [u'|]; [destruct (truthyStr u')|]);
    destruct isMobile; simpl; auto.
Qed.

Lemma handlePromptGen_history s : sameHistory s (fst (handlePromptGen s)).
Proof.
  unfold handlePromptGen, sameHistory. repeat break_match; simpl; auto.
Qed.

Lemma handleFileUpload_onload_history r f imageType u nw nh s :
  historyStep s (handleFileUpload_onload r f imageType u nw nh s).
Proof.
  unfold handleFileUpload_onload. destruct imageType.
  - apply hs_reset; try reflexivity. simpl.
    now destruct (clearCurrentError_cells r s) as ((_ & _ & H) & _).
  - apply hs_same. destruct (clearCurrentError_cells r s) as ((H1 & H2 & H3) & _).
    unfold sameHistory; simpl. auto.
Qed.

Lemma handleBackgroundGenerate_resolved_history j isMobile img s :
  historyStep s (handleBackgroundGenerate_resolved j isMobile img s).
Proof.
  unfold handleBackgroundGenerate_resolved, handleBackgroundGenerate_finally.
  eapply hs_complete; simpl.
  - apply recordNewGeneration_stacks.
  - apply recordNewGeneration_log.
  - apply recordNewGeneration_counter.
Qed.

Lemma handleAiModelGenerate_resolved_history j isMobile img s :
  historyStep s (handleAiModelGenerate_resolved j isMobile img s).
Proof.
  unfold handleAiModelGenerate_resolved, handleAiModelGenerate_finally.
  eapply hs_complete; simpl.
  - apply recordNewGeneration_stacks.
  - apply recordNewGeneration_log.
  - apply recordNewGeneration_counter.
Qed.

Lemma handleDeleteFromHistory_history i s : historyStep s (handleDeleteFromHistory i s).
Proof.
  unfold handleDeleteFromHistory.
  eapply hs_filter with (p := fun gen => negb (Nat.eqb (gen_id gen) i));
    repeat break_match; reflexivity.
Qed.

Lemma step_history e w w' : step e w = Some w' -> historyStep (app w) (app w').
Proof.
  destruct e; unfold step, userStep, resume; intros H;
    repeat match type of H with
           | (if ?b then _ else _) = Some _ => destruct b; [|discriminate]
           end;
    try (injection H as <-; simpl; apply historyStep_commit).
  - injection H as <-. same_history.
  - unfold handleSetMode. same_history.
  - unfold handleSetBackgroundSubMode. same_history.
  - unfold handleSetModelSource. same_history.
  - same_history.
  - same_history.
  - same_history.
  - same_history.
  - same_history.
  - unfold handlePromptBuilderChange. same_history.
  - unfold handleEnhancerChange. same_history.
  - apply hs_same, handlePromptGen_history.
  - same_history.
  - apply handleGenerateClick_history.
  - eapply hs_undo; try reflexivity. apply handleUndo_stacks.
  - eapply hs_redo; try reflexivity. apply handleRedo_stacks.
  - apply hs_reset; reflexivity.
  - same_history.
  - same_history.
  - same_history.
  - apply hs_same, handleSelectGeneration_history.
  - apply handleDeleteFromHistory_history.
  - destruct (nth_error (pending w) n) as [[r f it|it u'|r|j|j ph]|]; try discriminate.
    injection H as <-; simpl. apply historyStep_commit, handleFileUpload_onload_history.
  - destruct (nth_error (pending w) n) as [[r f it|it u'|r|j|j ph]|]; try discriminate.
    injection H as <-; simpl. apply historyStep_commit.
    unfold handleSelectGeneration_onload. same_history.
  - destruct (nth_error (pending w) n) as [[r f it|it u'|r|j|j ph]|]; try discriminate.
    + injection H as <-; simpl. apply historyStep_commit.
      unfold handlePromptGen_resolved, handlePromptGen_finally. same_history.
    + injection H as <-; simpl. apply historyStep_commit.
      apply handleBackgroundGenerate_resolved_history.
    + destruct ph.
      * pose proof (handleAiModelGenerate_blend_history j (app w)) as Hb.
        destruct (handleAiModelGenerate_blend j (app w)) as [s' ph'].
        injection H as <-; simpl. apply historyStep_commit, hs_same, Hb.
      * injection H as <-; simpl. apply historyStep_commit. same_history.
      * injection H as <-; simpl. apply historyStep_commit.
        apply handleAiModelGenerate_resolved_history.
  - destruct (nth_error (pending w) n) as [[r f it|it u'|r|j|j ph]|]; try discriminate.
    + injection H as <-; simpl. apply historyStep_commit.
      unfold handlePromptGen_rejected, handlePromptGen_finally. same_history.
    + injection H as <-; simpl. apply historyStep_commit.
      unfold handleBackgroundGenerate_rejected, handleBackgroundGenerate_finally.
      eapply hs_filter; reflexivity.
    + injection H as <-; simpl. apply historyStep_commit.
      unfold handleAiModelGenerate_rejected, handleAiModelGenerate_finally.
      eapply hs_filter; reflexivity.
Qed.

(** ** The invariant of the reachable worlds *)

Lemma step_settled e w w' : settled (app w) -> step e w = Some w' -> settled (app w').
Proof.
  intros Hs H.
  destruct e; unfold step, userStep, resume in H;
    repeat (break_match_in H; try discriminate);
    injection H as <-; simpl; try apply commit_settled; assumption.
Qed.

Lemma initialState_inv : Inv initialState.
Proof.
  split; [apply initialGenerationStacks_inv|]. split.
  - split; constructor.
  - split; reflexivity.
Qed.

Lemma step_inv e w w' : Inv (app w) -> step e w = Some w' -> Inv (app w').
Proof.
  intros (HS & HL & Hset) H.
  destruct (historyStep_inv (step_history _ _ H) (conj HS HL)) as [HS' HL'].
  split; [assumption|]. split; [assumption|]. eapply step_settled; eauto.
Qed.

Lemma run_inv evs : forall w w', Inv (app w) -> run evs w = Some w' -> Inv (app w').
Proof.
  induction evs as [|e evs IH]; simpl; intros w w' Hi H.
  - now injection H as <-.
  - destruct (step e w) as [w1|] eqn:Hstep; [|discriminate].
    eapply IH; [|exact H]. eapply step_inv; eauto.
Qed.

Lemma reachable_inv w : reachable w -> Inv (app w).
Proof.
  intros (isMobile & evs & H). eapply run_inv; [|exact H]. apply initialState_inv.
Qed.

(** * The claims *)

(** ** Recording a successful generation *)

(** C3.  Recording a successful generation for a feature whose stack
    satisfies [-1 <= currentIndex] truncates [images] to its first
    [currentIndex + 1] elements, appends the new image and moves the cursor
    to the new last position, leaving the other stacks alone; when the
    cursor is also below the length, the new list has [currentIndex + 2]
    elements.  Every stack of a reachable world satisfies the two bounds, so
    this is what recording does there.  In particular [A,B,C] at index 2,
    undone twice to index 0, becomes [A,D] at index 1 after recording [D]. *)
Theorem C3_record_truncates_and_appends :
  (forall r isMobile imageUrl generationId featureKey s,
      let st := getStack featureKey (generationStacks s) in
      let s' := recordNewGeneration r isMobile imageUrl generationId featureKey s in
      let st' := getStack featureKey (generationStacks s') in
      -1 <= currentIndex st ->
      images st' = firstn (Z.to_nat (currentIndex st + 1)) (images st) ++ [imageUrl]
      /\ currentIndex st' = Z.of_nat (List.length (images st')) - 1
      /\ (currentIndex st < Z.of_nat (List.length (images st)) ->
          Z.of_nat (List.length (images st')) = currentIndex st + 2)
      /\ (forall k, k <> featureKey ->
          getStack k (generationStacks s') = getStack k (generationStacks s)))
  /\ (forall w r isMobile imageUrl generationId featureKey,
      reachable w ->
      let st := getStack featureKey (generationStacks (app w)) in
      let st' := getStack featureKey
                   (generationStacks
                      (recordNewGeneration r isMobile imageUrl generationId featureKey
                         (app w))) in
      images st' = firstn (Z.to_nat (currentIndex st + 1)) (images st) ++ [imageUrl]
      /\ currentIndex st' = currentIndex st + 1)
  /\ (let s0 := handleUndo (handleUndo stateABC) in
      getStack BackgroundScene (generationStacks s0)
      = {| images := ["A"; "B"; "C"]; currentIndex := 0 |}
      /\ getStack BackgroundScene
           (generationStacks (recordNewGeneration s0 false "D" 3%nat BackgroundScene s0))
         = {| images := ["A"; "D"]; currentIndex := 1 |}).
Proof.
  split; [|split].
  - intros r isMobile imageUrl generationId featureKey s st s' st' Hlow.
    subst st' s'. rewrite recordNewGeneration_stacks, getStack_setStack_same.
    destruct (pushImage_spec imageUrl st Hlow) as [Himg Hidx].
    split; [exact Himg|]. split; [exact Hidx|]. split.
    + intros Hhigh. apply pushImage_length. split; assumption.
    + intros k Hk. apply getStack_setStack_other. congruence.
  - intros w r isMobile imageUrl generationId featureKey Hw st st'.
    destruct (reachable_inv Hw) as (HS & _). specialize (HS featureKey).
    fold st in HS. subst st'. rewrite recordNewGeneration_stacks, getStack_setStack_same.
    fold st. destruct HS as [Hlow Hhigh].
    destruct (pushImage_spec imageUrl st Hlow) as [Himg Hidx].
    split; [exact Himg|]. rewrite Hidx.
    rewrite (pushImage_length imageUrl (conj Hlow Hhigh)). lia.
  - split; reflexivity.
Qed.

(** Recording [D] on [A,B,C] with the cursor on [C] appends it. *)
Lemma C3_record_truncates_and_appends_witness :
  images (getStack BackgroundScene
            (generationStacks
               (recordNewGeneration stateABC false "D" 3%nat BackgroundScene stateABC)))
  = ["A"; "B"; "C"; "D"].
Proof.
  refine (proj1 (proj1 C3_record_truncates_and_appends
                   stateABC false "D" 3%nat BackgroundScene stateABC _)).
  simpl. lia.
Defined.

(** ** Undo and redo *)

Lemma handleUndo_images s k :
  images (getStack k (generationStacks (handleUndo s)))
  = images (getStack k (generationStacks s)).
Proof.
  rewrite handleUndo_stacks. destruct (FeatureKey_eqb (getCurrentFeatureKey s) k) eqn:E.
  - apply FeatureKey_eqb_eq in E; subst. rewrite getStack_setStack_same.
    unfold undoStack, currentStack. destruct (0 <=? _); reflexivity.
  - apply FeatureKey_eqb_neq in E. now rewrite getStack_setStack_other.
Qed.

Lemma handleRedo_images s k :
  images (getStack k (generationStacks (handleRedo s)))
  = images (getStack k (generationStacks s)).
Proof.
  rewrite handleRedo_stacks. destruct (FeatureKey_eqb (getCurrentFeatureKey s) k) eqn:E.
  - apply FeatureKey_eqb_eq in E; subst. rewrite getStack_setStack_same.
    unfold redoStack, currentStack. destruct (_ <? _); reflexivity.
  - apply FeatureKey_eqb_neq in E. now rewrite getStack_setStack_other.
Qed.

(** C7.  In every state, [canUndo] holds exactly when the cursor of the
    active stack is at least 0 and [canRedo] exactly when it is below
    [images.length - 1]; undo moves the cursor down by one when [canUndo]
    holds and changes no stack otherwise, redo moves it up by one when
    [canRedo] holds and changes no stack otherwise, and neither changes the
    [images] of any stack.  In the reachable worlds the two ends are the
    floor [-1] and the ceiling [images.length - 1]. *)
Theorem C7_undo_redo_bounds :
  (forall s,
      let len := Z.of_nat (List.length (images (currentStack s))) in
      (canUndo s = true <-> 0 <= currentIndex (currentStack s))
      /\ (canRedo s = true <-> currentIndex (currentStack s) < len - 1)
      /\ (canUndo s = false -> generationStacks (handleUndo s) = generationStacks s)
      /\ (canRedo s = false -> generationStacks (handleRedo s) = generationStacks s)
      /\ (canUndo s = true ->
          currentIndex (currentStack (handleUndo s)) = currentIndex (currentStack s) - 1)
      /\ (canRedo s = true ->
          currentIndex (currentStack (handleRedo s)) = currentIndex (currentStack s) + 1)
      /\ (forall k, images (getStack k (generationStacks (handleUndo s)))
                    = images (getStack k (generationStacks s)))
      /\ (forall k, images (getStack k (generationStacks (handleRedo s)))
                    = images (getStack k (generationStacks s))))
  /\ (forall w, reachable w ->
      let s := app w in
      let len := Z.of_nat (List.length (images (currentStack s))) in
      (canUndo s = false <-> currentIndex (currentStack s) = -1)
      /\ (canRedo s = false <-> currentIndex (currentStack s) = len - 1)).
Proof.
  split.
  - intros s len. subst len. unfold canUndo, canRedo.
    split; [apply Z.leb_le|]. split; [apply Z.ltb_lt|].
    split; [|split; [|split; [|split; [|split]]]].
    + intros H. rewrite handleUndo_stacks. unfold undoStack. rewrite H.
      apply setStack_getStack.
    + intros H. rewrite handleRedo_stacks. unfold redoStack. rewrite H.
      apply setStack_getStack.
    + intros H. unfold currentStack at 1.
      replace (getCurrentFeatureKey (handleUndo s)) with (getCurrentFeatureKey s)
        by reflexivity.
      rewrite handleUndo_stacks, getStack_setStack_same. unfold undoStack.
      rewrite H. reflexivity.
    + intros H. unfold currentStack at 1.
      replace (getCurrentFeatureKey (handleRedo s)) with (getCurrentFeatureKey s)
        by reflexivity.
      rewrite handleRedo_stacks, getStack_setStack_same. unfold redoStack.
      rewrite H. reflexivity.
    + apply handleUndo_images.
    + apply handleRedo_images.
  - intros w Hw s len. subst s len.
    destruct (reachable_inv Hw) as (HS & _).
    specialize (HS (getCurrentFeatureKey (app w))). unfold stackInv in HS.
    fold (currentStack (app w)) in HS. unfold canUndo, canRedo.
    rewrite Z.leb_gt, Z.ltb_ge. lia.
Qed.

(** In the initial state undo is disabled and changes nothing. *)
Lemma C7_undo_redo_bounds_witness :
  generationStacks (handleUndo initialState) = generationStacks initialState
  /\ canUndo (app (initialWorld false)) = false.
Proof.
  split.
  - apply (proj1 C7_undo_redo_bounds initialState). reflexivity.
  - apply (proj2 C7_undo_redo_bounds (initialWorld false)).
    + exists false, []. reflexivity.
    + reflexivity.
Defined.

(** ** The stack invariant *)

(** C8.  [-1 <= currentIndex < images.length] holds for the five stacks of
    the initial state, is preserved by recording a success, undo, redo,
    start over and product-image replacement, and therefore holds in every
    reachable world. *)
Theorem C8_stack_invariant :
  stacksInv (generationStacks initialState)
  /\ (forall s, stacksInv (generationStacks s) ->
      (forall r isMobile imageUrl generationId featureKey,
          stacksInv (generationStacks
                       (recordNewGeneration r isMobile imageUrl generationId featureKey s)))
      /\ stacksInv (generationStacks (handleUndo s))
      /\ stacksInv (generationStacks (handleRedo s))
      /\ stacksInv (generationStacks (handleStartOver s))
      /\ (forall r f u nw nh,
          stacksInv (generationStacks (handleFileUpload_onload r f ImgProduct u nw nh s))))
  /\ (forall w, reachable w -> stacksInv (generationStacks (app w))).
Proof.
  split; [apply initialGenerationStacks_inv|]. split.
  - intros s HS. split; [|split; [|split; [|split]]].
    + intros. rewrite recordNewGeneration_stacks.
      apply stacksInv_setStack; [apply pushImage_inv|assumption].
    + rewrite handleUndo_stacks.
      apply stacksInv_setStack; [apply undoStack_inv, HS|assumption].
    + rewrite handleRedo_stacks.
      apply stacksInv_setStack; [apply redoStack_inv, HS|assumption].
    + apply initialGenerationStacks_inv.
    + intros. apply initialGenerationStacks_inv.
  - intros w Hw. apply (reachable_inv Hw).
Qed.

(** The invariant after an undo of the initial state and after a trace. *)
Lemma C8_stack_invariant_witness :
  stacksInv (generationStacks (handleUndo initialState))
  /\ stacksInv (generationStacks (app (worldAfter traceFailedSecond))).
Proof.
  split.
  - apply (proj1 (proj2 C8_stack_invariant) initialState).
    intros k; destruct k; unfold stackInv; simpl; lia.
  - apply (proj2 (proj2 C8_stack_invariant)).
    exists false, traceFailedSecond. vm_compute. reflexivity.
Defined.

(** ** Replacing an image *)

Lemma commit_activeGenerationId_None r s :
  activeGenerationId s = None -> activeGenerationId (commit r s) = None.
Proof.
  intros H. unfold commit.
  set (s2 := if featureDepsChanged r s then _ else _).
  assert (Ha : activeGenerationId s2 = None).
  { subst s2. destruct (featureDepsChanged r s); [|exact H].
    destruct (clearCurrentError_cells s (effectSyncFeatureKeyRef s)) as (_ & -> & _).
    exact H. }
  unfold effectDeselect. rewrite Ha. destruct (activeTab s2); exact Ha.
Qed.

(** C6.  When the load of an uploaded product image completes, every one of
    the five stacks is [{ images: [], currentIndex: -1 }], the session log
    is empty and no log record is selected, whatever the state before and
    whatever render the upload was started in; this still holds once the
    effects have run.  When the load of an uploaded model image completes,
    the stacks and the session log are unchanged. *)
Theorem C6_image_replacement :
  forall (r : State) (f : File) (u : string) (nw nh : Z) (s : State),
    let sp := handleFileUpload_onload r f ImgProduct u nw nh s in
    let sm := handleFileUpload_onload r f ImgModel u nw nh s in
    (forall k, getStack k (generationStacks sp) = {| images := []; currentIndex := -1 |})
    /\ sessionGenerations sp = []
    /\ activeGenerationId sp = None
    /\ url (productImage sp) = Some u
    /\ (forall k, getStack k (generationStacks (commit s sp))
                  = {| images := []; currentIndex := -1 |})
    /\ sessionGenerations (commit s sp) = []
    /\ activeGenerationId (commit s sp) = None
    /\ generationStacks sm = generationStacks s
    /\ sessionGenerations sm = sessionGenerations s
    /\ generationStacks (commit s sm) = generationStacks s
    /\ sessionGenerations (commit s sm) = sessionGenerations s
    /\ url (modelImage sm) = Some u.
Proof.
  intros r f u nw nh s sp sm.
  destruct (commit_sameHistory s sp) as (Ps & Pl & _).
  destruct (commit_sameHistory s sm) as (Ms & Ml & _).
  destruct (clearCurrentError_cells r s) as ((Cs & Cl & _) & _).
  assert (Hsp : generationStacks sp = initialGenerationStacks) by reflexivity.
  assert (Hlp : sessionGenerations sp = []) by reflexivity.
  assert (Hsm : generationStacks sm = generationStacks s) by exact Cs.
  assert (Hlm : sessionGenerations sm = sessionGenerations s) by exact Cl.
  repeat split.
  - intros k. rewrite Hsp. destruct k; reflexivity.
  - intros k. rewrite Ps, Hsp. destruct k; reflexivity.
  - now rewrite Pl.
  - now apply commit_activeGenerationId_None.
  - exact Hsm.
  - exact Hlm.
  - now rewrite Ms.
  - now rewrite Ml.
Qed.

(** ** A failed generation *)

Lemma findGeneration_none i gens :
  findGeneration i gens = None <-> (forall g, In g gens -> gen_id g <> i).
Proof.
  unfold findGeneration. split.
  - intros H g Hg Heq. apply (find_none _ _ H) in Hg. simpl in Hg.
    apply Nat.eqb_neq in Hg. contradiction.
  - intros H. destruct (find _ gens) as [g|] eqn:E; [|reflexivity].
    apply find_some in E. destruct E as [Hin Heq]. apply Nat.eqb_eq in Heq.
    exfalso. eapply H; eauto.
Qed.

Lemma filter_drops_id i gens g :
  In g (filter (fun gen => negb (Nat.eqb (gen_id gen) i)) gens) <-> In g gens /\ gen_id g <> i.
Proof.
  rewrite filter_In, negb_true_iff, Nat.eqb_neq. tauto.
Qed.

Lemma featureDepsChanged_same r s :
  mode s = mode r -> backgroundSubMode s = backgroundSubMode r ->
  modelSource s = modelSource r -> backgroundColor s = backgroundColor r ->
  featureDepsChanged r s = false.
Proof.
  unfold featureDepsChanged. intros -> -> -> ->. rewrite String.eqb_refl.
  destruct (mode r), (backgroundSubMode r), (modelSource r); reflexivity.
Qed.

Lemma effectDeselect_statuses s :
  backgroundStatuses (effectDeselect s) = backgroundStatuses s
  /\ aiModelStatuses (effectDeselect s) = aiModelStatuses s.
Proof. unfold effectDeselect. repeat break_match; simpl; auto. Qed.

Lemma commit_statuses r s :
  featureDepsChanged r s = false ->
  backgroundStatuses (commit r s) = backgroundStatuses s
  /\ aiModelStatuses (commit r s) = aiModelStatuses s.
Proof.
  intros H. unfold commit. rewrite H.
  destruct (effectDeselect_statuses (effectSyncFeatureKeyRef s)) as [-> ->].
  split; reflexivity.
Qed.

Lemma commit_activeGenerationId_unlisted r s i :
  activeGenerationId s = Some i ->
  findGeneration i (sessionGenerations s) = None ->
  activeGenerationId (commit r s) = Some i.
Proof.
  intros Ha Hf. unfold commit.
  set (s2 := if featureDepsChanged r s then _ else _).
  assert (H2 : activeGenerationId s2 = Some i /\ sessionGenerations s2 = sessionGenerations s).
  { subst s2. destruct (featureDepsChanged r s); [|split; [exact Ha|reflexivity]].
    destruct (clearCurrentError_cells s (effectSyncFeatureKeyRef s))
      as ((_ & -> & _) & -> & _). split; [exact Ha|reflexivity]. }
  destruct H2 as [Ha2 Hl2]. unfold effectDeselect. rewrite Ha2, Hl2, Hf.
  destruct (activeTab s2); exact Ha2.
Qed.

Lemma handleBackgroundGenerate_rejected_outcome j err s :
  let s' := handleBackgroundGenerate_rejected j err s in
  failureOutcome (bg_newId j) (errorMessageOr "An unknown error occurred." err)
    (bgGet (bg_effectiveSubMode j) (backgroundStatuses s')) s s'.
Proof.
  unfold failureOutcome, handleBackgroundGenerate_rejected,
    handleBackgroundGenerate_finally; simpl.
  split; [|split; [|split]].
  - intros g Hg. now apply filter_drops_id in Hg.
  - intros g Hg Hne. apply filter_drops_id. tauto.
  - rewrite !bgGet_bgSet_same. reflexivity.
  - reflexivity.
Qed.

Lemma handleAiModelGenerate_rejected_outcome j err s :
  let s' := handleAiModelGenerate_rejected j err s in
  failureOutcome (ai_newId j) (errorMessageOr "An unknown error occurred." err)
    (amGet (ai_invokedModelSource j) (aiModelStatuses s')) s s'.
Proof.
  unfold failureOutcome, handleAiModelGenerate_rejected,
    handleAiModelGenerate_finally; simpl.
  split; [|split; [|split]].
  - intros g Hg. now apply filter_drops_id in Hg.
  - intros g Hg Hne. apply filter_drops_id. tauto.
  - rewrite !amGet_amSet_same. reflexivity.
  - reflexivity.
Qed.

Lemma failureOutcome_commit newId errorMsg st s s1 r :
  failureOutcome newId errorMsg st s s1 ->
  failureOutcome newId errorMsg st s (commit r s1).
Proof.
  unfold failureOutcome. destruct (commit_sameHistory r s1) as (E1 & E2 & _).
  rewrite E1, E2. tauto.
Qed.

(** C5.  When the external call of an in-flight generation job fails, the
    failure handler removes the job's record from the session log (no record
    with that id remains, every other record stays), leaves the status of the
    job's feature idle with the failure message as its error, and changes no
    generation stack; this is so for the background and for the ai-model
    handler, directly after the handler and after the effects of the
    following render. *)
Theorem C5_failure_handler :
  (forall (j : BgJob) (err : Thrown) (s : State),
      let s' := handleBackgroundGenerate_rejected j err s in
      failureOutcome (bg_newId j) (errorMessageOr "An unknown error occurred." err)
        (bgGet (bg_effectiveSubMode j) (backgroundStatuses s')) s s')
  /\ (forall (j : AiJob) (err : Thrown) (s : State),
      let s' := handleAiModelGenerate_rejected j err s in
      failureOutcome (ai_newId j) (errorMessageOr "An unknown error occurred." err)
        (amGet (ai_invokedModelSource j) (aiModelStatuses s')) s s')
  /\ (forall (w : World) (n : nat) (t : Task) (newId : nat) (message : string),
      nth_error (pending w) n = Some t ->
      generationTaskId t = Some newId ->
      exists w' status',
        step (Rejected n (ErrorObject message)) w = Some w'
        /\ generationTaskStatus t (app w') = Some status'
        /\ failureOutcome newId message status' (app w) (app w')).
Proof.
  split; [exact handleBackgroundGenerate_rejected_outcome|].
  split; [exact handleAiModelGenerate_rejected_outcome|].
  intros w n t newId message Hn Hid.
  destruct t as [r f it|it u|r|j|j ph]; try discriminate; injection Hid as <-.
  - set (s1 := handleBackgroundGenerate_rejected j (ErrorObject message) (app w)).
    exists {| app := commit (app w) s1; viewportMobile := viewportMobile w;
              pending := removeNth n (pending w) ++ [] |}.
    exists (bgGet (bg_effectiveSubMode j) (backgroundStatuses (commit (app w) s1))).
    split; [unfold step; rewrite Hn; reflexivity|]. split; [reflexivity|].
    cbn [app]. destruct (commit_statuses (app w) s1) as [-> _];
      [apply featureDepsChanged_same; reflexivity|].
    apply failureOutcome_commit.
    apply (handleBackgroundGenerate_rejected_outcome j (ErrorObject message) (app w)).
  - set (s1 := handleAiModelGenerate_rejected j (ErrorObject message) (app w)).
    exists {| app := commit (app w) s1; viewportMobile := viewportMobile w;
              pending := removeNth n (pending w) ++ [] |}.
    exists (amGet (ai_invokedModelSource j) (aiModelStatuses (commit (app w) s1))).
    split; [unfold step; rewrite Hn; reflexivity|]. split; [reflexivity|].
    cbn [app]. destruct (commit_statuses (app w) s1) as [_ ->];
      [apply featureDepsChanged_same; reflexivity|].
    apply failureOutcome_commit.
    apply (handleAiModelGenerate_rejected_outcome j (ErrorObject message) (app w)).
Qed.

(** The failure of the colour request of [traceSubmitted]. *)
Lemma C5_failure_handler_witness :
  exists t w' status',
    nth_error (pending (worldAfter traceSubmitted)) 0 = Some t
    /\ step (Rejected 0 (ErrorObject "blocked by safety policy"))
         (worldAfter traceSubmitted) = Some w'
    /\ generationTaskStatus t (app w') = Some status'
    /\ failureOutcome 0 "blocked by safety policy" status'
         (app (worldAfter traceSubmitted)) (app w').
Proof.
  destruct (nth_error (pending (worldAfter traceSubmitted)) 0) as [t|] eqn:Ht;
    [|vm_compute in Ht; discriminate].
  assert (Hid : generationTaskId t = Some 0%nat)
    by (vm_compute in Ht; injection Ht as <-; reflexivity).
  destruct (proj2 (proj2 C5_failure_handler) (worldAfter traceSubmitted) 0%nat t 0%nat
              "blocked by safety policy" Ht Hid) as (w' & status' & H1 & H2 & H3).
  exists t, w', status'. repeat split; try assumption; apply H3.
Defined.

(** ** The selection after a failure *)

Lemma findGeneration_map_completeRecord i imageUrl generationId gens :
  findGeneration i (map (completeRecord imageUrl generationId) gens) = None
  <-> findGeneration i gens = None.
Proof.
  rewrite !findGeneration_none. split.
  - intros H g Hg. rewrite <- (completeRecord_id imageUrl generationId g).
    apply H. now apply in_map.
  - intros H g Hg. apply in_map_iff in Hg. destruct Hg as (g0 & <- & Hg0).
    rewrite completeRecord_id. now apply H.
Qed.

Lemma historyStep_absent s s' i :
  historyStep s s' ->
  (i < generationIdCounter s)%nat ->
  findGeneration i (sessionGenerations s) = None ->
  (i < generationIdCounter s')%nat /\ findGeneration i (sessionGenerations s') = None.
Proof.
  intros H Hlt Hf.
  destruct H as [(E1 & E2 & E3)|E1 E2 E3|k snap Hk E1 E2 E3
                |k img j E1 E2 E3|p E1 E2 E3|k E1 E2 E3|k E1 E2 E3];
    rewrite E2, E3; try (split; [lia|]); try assumption.
  - reflexivity.
  - unfold findGeneration; simpl.
    destruct (Nat.eqb (generationIdCounter s) i) eqn:E; [apply Nat.eqb_eq in E; lia|].
    exact Hf.
  - now apply findGeneration_map_completeRecord.
  - apply findGeneration_none. intros g Hg. apply filter_In in Hg.
    rewrite findGeneration_none in Hf. now apply Hf.
Qed.

(** C10.  A failed generation does not clear the explicit selection: if
    the selection is the failing job's record when the failure arrives, it
    still is that id afterwards although the record is gone from the log,
    and the canvas resolves to no image, whatever the stack of the active
    feature holds.  More generally a selection of an unlisted id resolves to
    no image, and an id handed out earlier never comes back into the log,
    so this lasts until an action changes the selection.  In the world
    reached by one successful and one failed colour generation the active
    stack shows image [A] at its cursor while the canvas resolves to none,
    also after a colour change has cleared the error of the feature. *)
Theorem C10_failure_keeps_selection :
  (forall s i,
      activeGenerationId s = Some i ->
      findGeneration i (sessionGenerations s) = None ->
      canvasDisplayUrl s = None)
  /\ (forall w n t i err,
      nth_error (pending w) n = Some t ->
      generationTaskId t = Some i ->
      activeGenerationId (app w) = Some i ->
      exists w',
        step (Rejected n err) w = Some w'
        /\ activeGenerationId (app w') = Some i
        /\ findGeneration i (sessionGenerations (app w')) = None
        /\ canvasDisplayUrl (app w') = None)
  /\ (forall w i e w',
      (i < generationIdCounter (app w))%nat ->
      findGeneration i (sessionGenerations (app w)) = None ->
      step e w = Some w' ->
      (i < generationIdCounter (app w'))%nat
      /\ findGeneration i (sessionGenerations (app w')) = None)
  /\ (let s := app (worldAfter traceFailedSecond) in
      let s2 := app (worldAfter traceFailedThenRecolor) in
      run traceFailedSecond (initialWorld false) = Some (worldAfter traceFailedSecond)
      /\ activeGenerationId s = Some 1%nat
      /\ findGeneration 1 (sessionGenerations s) = None
      /\ jsIndex (images (currentStack s)) (currentIndex (currentStack s)) = Some "A"
      /\ canvasDisplayUrl s = None
      /\ run traceFailedThenRecolor (initialWorld false)
         = Some (worldAfter traceFailedThenRecolor)
      /\ currentStatus s2 = {| isLoading := NotLoading; error := None |}
      /\ activeGenerationId s2 = Some 1%nat
      /\ canvasDisplayUrl s2 = None).
Proof.
  assert (Hcanvas : forall s i,
             activeGenerationId s = Some i ->
             findGeneration i (sessionGenerations s) = None ->
             canvasDisplayUrl s = None).
  { intros s i Ha Hf. unfold canvasDisplayUrl. now rewrite Ha, Hf. }
  split; [exact Hcanvas|]. split; [|split].
  - intros w n t i err Hn Hid Ha.
    assert (Hgoal : forall s1,
               activeGenerationId s1 = Some i ->
               findGeneration i (sessionGenerations s1) = None ->
               activeGenerationId (commit (app w) s1) = Some i
               /\ findGeneration i (sessionGenerations (commit (app w) s1)) = None
               /\ canvasDisplayUrl (commit (app w) s1) = None).
    { intros s1 Ha1 Hf1.
      pose proof (commit_activeGenerationId_unlisted (app w) s1 Ha1 Hf1) as Hc.
      destruct (commit_sameHistory (app w) s1) as (_ & El & _).
      assert (Hf2 : findGeneration i (sessionGenerations (commit (app w) s1)) = None)
        by now rewrite El.
      split; [exact Hc|]. split; [exact Hf2|]. now apply (Hcanvas _ i). }
    destruct t as [r f it|it u|r|j|j ph]; try discriminate; injection Hid as <-.
    + set (s1 := handleBackgroundGenerate_rejected j err (app w)).
      exists {| app := commit (app w) s1; viewportMobile := viewportMobile w;
                pending := removeNth n (pending w) ++ [] |}.
      split; [unfold step; rewrite Hn; reflexivity|]. cbn [app]. apply Hgoal.
      * exact Ha.
      * apply findGeneration_none. intros g Hg.
        now apply (handleBackgroundGenerate_rejected_outcome j err (app w)).
    + set (s1 := handleAiModelGenerate_rejected j err (app w)).
      exists {| app := commit (app w) s1; viewportMobile := viewportMobile w;
                pending := removeNth n (pending w) ++ [] |}.
      split; [unfold step; rewrite Hn; reflexivity|]. cbn [app]. apply Hgoal.
      * exact Ha.
      * apply findGeneration_none. intros g Hg.
        now apply (handleAiModelGenerate_rejected_outcome j err (app w)).
  - intros w i e w' Hlt Hf Hstep.
    exact (historyStep_absent (step_history _ _ Hstep) Hlt Hf).
  - vm_compute. repeat split; reflexivity.
Qed.

(** The colour request of [traceSubmitted] fails while its record is selected. *)
Lemma C10_failure_keeps_selection_witness :
  exists w',
    step (Rejected 0 OtherValue) (worldAfter traceSubmitted) = Some w'
    /\ activeGenerationId (app w') = Some 0%nat
    /\ findGeneration 0 (sessionGenerations (app w')) = None
    /\ canvasDisplayUrl (app w') = None.
Proof.
  destruct (nth_error (pending (worldAfter traceSubmitted)) 0) as [t|] eqn:Ht;
    [|vm_compute in Ht; discriminate].
  assert (Hid : generationTaskId t = Some 0%nat)
    by (vm_compute in Ht; injection Ht as <-; reflexivity).
  apply (proj1 (proj2 C10_failure_keeps_selection)
           (worldAfter traceSubmitted) 0%nat t 0%nat OtherValue Ht Hid).
  reflexivity.
Defined.

(** ** Selecting a log record *)

Lemma findGeneration_In gens g :
  NoDup (map gen_id gens) -> In g gens -> findGeneration (gen_id g) gens = Some g.
Proof.
  unfold findGeneration. induction gens as [|a gens IH]; simpl; intros Hnd Hin; [tauto|].
  inversion Hnd as [|? ? Hnin Hnd']; subst.
  destruct Hin as [->|Hin]; [now rewrite Nat.eqb_refl|].
  destruct (Nat.eqb (gen_id a) (gen_id g)) eqn:E; [|now apply IH].
  apply Nat.eqb_eq in E. exfalso. apply Hnin. rewrite E. now apply in_map.
Qed.

Lemma getCurrentFeatureKey_takeSnapshot s :
  getCurrentFeatureKey s = snapshotFeatureKey (takeSnapshot s).
Proof. reflexivity. Qed.

Lemma handleGenerateClick_taskKey s t :
  In t (snd (handleGenerateClick s)) -> taskFeatureKey t = Some (getCurrentFeatureKey s).
Proof.
  unfold handleGenerateClick, getCurrentFeatureKey, featureKeyOf.
  destruct (mode s) eqn:Hm.
  - unfold handleBackgroundGenerate.
    destruct (negb _); [intros []|]. destruct (truthyStep _); [intros []|].
    simpl. intros [<-|[]]. reflexivity.
  - unfold handleAiModelGenerate.
    destruct (truthyStep _); [intros []|].
    destruct (truthyUrl _); [simpl; intros [<-|[]]; reflexivity|].
    unfold handleAiModelGenerate_blend. destruct (_ && _); simpl; intros [<-|[]]; reflexivity.
Qed.

Lemma handleSelectGeneration_found isMobile i s g :
  findGeneration i (sessionGenerations s) = Some g ->
  let s' := fst (handleSelectGeneration isMobile i s) in
  takeSnapshot s'
  = withImageUrls (url (productImage s')) (url (modelImage s')) (gen_snapshot g)
  /\ activeGenerationId s' = Some i
  /\ activeTab s' = TabSettings
  /\ sessionGenerations s' = sessionGenerations s.
Proof.
  intros Hf. unfold handleSelectGeneration. rewrite Hf.
  destruct (snap_productImageUrl (gen_snapshot g)) as [u|]; [destruct (truthyStr u)|];
    (destruct (snap_modelImageUrl (gen_snapshot g)) as [u'|]; [destruct (truthyStr u')|]);
    destruct isMobile; simpl; repeat split; reflexivity.
Qed.

Lemma handleSelectGeneration_images isMobile i s g :
  findGeneration i (sessionGenerations s) = Some g ->
  let s' := fst (handleSelectGeneration isMobile i s) in
  let tasks := snd (handleSelectGeneration isMobile i s) in
  (truthyUrl (snap_productImageUrl (gen_snapshot g)) = true ->
   exists u, snap_productImageUrl (gen_snapshot g) = Some u
             /\ In (TRestoreImage ImgProduct u) tasks)
  /\ (truthyUrl (snap_productImageUrl (gen_snapshot g)) = false ->
      productImage s' = initialProductImage)
  /\ (truthyUrl (snap_modelImageUrl (gen_snapshot g)) = true ->
      exists u, snap_modelImageUrl (gen_snapshot g) = Some u
                /\ In (TRestoreImage ImgModel u) tasks)
  /\ (truthyUrl (snap_modelImageUrl (gen_snapshot g)) = false ->
      modelImage s' = initialModelImage).
Proof.
  intros Hf. unfold handleSelectGeneration. rewrite Hf. unfold truthyUrl.
  destruct (snap_productImageUrl (gen_snapshot g)) as [u|];
    [destruct (truthyStr u) eqn:Eu|];
    (destruct (snap_modelImageUrl (gen_snapshot g)) as [u'|];
     [destruct (truthyStr u') eqn:Eu'|]);
    destruct isMobile; simpl;
    repeat split; intros H; try discriminate H; try reflexivity;
    eexists; (split; [reflexivity|]); simpl; auto.
Qed.

Lemma withImageUrls_eta snapshot :
  withImageUrls (snap_productImageUrl snapshot) (snap_modelImageUrl snapshot) snapshot
  = snapshot.
Proof. destruct snapshot; reflexivity. Qed.

Lemma showsRecord_canvas g s : showsRecord g s -> canvasDisplayUrl s = gen_src g.
Proof. intros (_ & _ & _ & Ha & Hf). unfold canvasDisplayUrl. now rewrite Ha, Hf. Qed.

Lemma commit_images r s :
  takeSnapshot (commit r s) = takeSnapshot s
  /\ productImage (commit r s) = productImage s
  /\ modelImage (commit r s) = modelImage s
  /\ activeTab (commit r s) = activeTab s.
Proof.
  split; [|split; [|split]].
  - unfold commit, effectDeselect, clearCurrentError.
    destruct (featureDepsChanged r s); cbn; repeat break_match; reflexivity.
  - unfold commit, effectDeselect, clearCurrentError.
    destruct (featureDepsChanged r s); cbn; repeat break_match; reflexivity.
  - unfold commit, effectDeselect, clearCurrentError.
    destruct (featureDepsChanged r s); cbn; repeat break_match; reflexivity.
  - unfold commit.
    match goal with |- context [effectDeselect ?x] =>
      destruct (effectDeselect_cells x) as (_ & -> & _) end.
    destruct (featureDepsChanged r s); [|reflexivity].
    now destruct (clearCurrentError_cells s (effectSyncFeatureKeyRef s)) as (_ & _ & -> & _).
Qed.

Lemma commit_keeps_selection r s a g :
  activeGenerationId s = Some a ->
  findGeneration a (sessionGenerations s) = Some g ->
  gen_featureKey g = getCurrentFeatureKey s ->
  activeGenerationId (commit r s) = Some a.
Proof.
  intros Ha Hf Hk. unfold commit.
  set (s2 := if featureDepsChanged r s then _ else _).
  assert (H2 : activeGenerationId s2 = Some a
               /\ sessionGenerations s2 = sessionGenerations s
               /\ getCurrentFeatureKey s2 = getCurrentFeatureKey s).
  { subst s2. destruct (featureDepsChanged r s); [|now repeat split].
    destruct (clearCurrentError_cells s (effectSyncFeatureKeyRef s))
      as ((_ & -> & _) & -> & _ & -> & _). now repeat split. }
  destruct H2 as (A1 & A3 & A4).
  unfold effectDeselect. rewrite A1, A3, Hf, A4, Hk.
  replace (FeatureKey_eqb (getCurrentFeatureKey s) (getCurrentFeatureKey s)) with true
    by (symmetry; now apply FeatureKey_eqb_eq).
  destruct (activeTab s2); exact A1.
Qed.

Lemma commit_showsRecord r g s : showsRecord g s -> showsRecord g (commit r s).
Proof.
  intros (Hs & Hk & Ht & Ha & Hf).
  destruct (commit_images r s) as (Cs & Cp & Cm & Ct).
  destruct (commit_sameHistory r s) as (_ & Cl & _).
  unfold showsRecord. rewrite Cs, Cp, Cm, Ct, Cl, commit_featureKey.
  split; [exact Hs|]. split; [exact Hk|]. split; [exact Ht|]. split; [|exact Hf].
  apply commit_keeps_selection with (g := g); [exact Ha|exact Hf|now rewrite Hk].
Qed.

(** What the [onload] of a restored image does to a state that shows the
    record: the image is put back with the URL it was loaded from and the
    size the browser reports, and nothing else moves. *)
Lemma handleSelectGeneration_onload_showsRecord g it u naturalWidth naturalHeight s :
  showsRecord g s ->
  let restored := {| url := Some u; file := None;
                     originalWidth := naturalWidth; originalHeight := naturalHeight |} in
  let s1 := handleSelectGeneration_onload it u naturalWidth naturalHeight s in
  showsRecord g s1
  /\ match it with
     | ImgProduct => productImage s1 = restored /\ modelImage s1 = modelImage s
     | ImgModel => modelImage s1 = restored /\ productImage s1 = productImage s
     end.
Proof.
  intros (Hs & Hk & Ht & Ha & Hf). cbv zeta.
  set (s1 := handleSelectGeneration_onload it u naturalWidth naturalHeight s).
  assert (Hs1 : takeSnapshot s1
                = withImageUrls (url (productImage s1)) (url (modelImage s1))
                    (takeSnapshot s))
    by (subst s1; destruct it; reflexivity).
  split.
  - unfold showsRecord. rewrite Hs1, Hs.
    subst s1; destruct it; (split; [reflexivity|]); repeat split; assumption.
  - subst s1; destruct it; split; reflexivity.
Qed.

Lemma handleSelectGeneration_restore isMobile i s g it u :
  findGeneration i (sessionGenerations s) = Some g ->
  In (TRestoreImage it u) (snd (handleSelectGeneration isMobile i s)) ->
  match it with
  | ImgProduct => snap_productImageUrl (gen_snapshot g) = Some u
  | ImgModel => snap_modelImageUrl (gen_snapshot g) = Some u
  end.
Proof.
  intros Hf. unfold handleSelectGeneration. rewrite Hf.
  destruct (snap_productImageUrl (gen_snapshot g)) as [up|]; [destruct (truthyStr up)|];
    (destruct (snap_modelImageUrl (gen_snapshot g)) as [um|]; [destruct (truthyStr um)|]);
    destruct isMobile; simpl; destruct it; intuition congruence.
Qed.

(** C9.  In every reachable world, selecting a done record of the session
    log sets the thirteen controls to the values stored in the record's
    snapshot, and the feature key these controls resolve to is the record's
    stored [featureKey]: it is the current feature key right after the
    handler and after the effects, it is what the ref cell then holds, and it
    is the feature of any generation job that a click on Generate then
    starts.  Each of the two source images is either being reloaded from the
    snapshot's URL or, when the snapshot has none, reset to its initial
    state; when a reloaded image arrives it is put back with the snapshot's
    URL and the size the browser reports, with no file, and nothing else
    changes, so that once the images of the snapshot have arrived the
    snapshot of the state is the record's snapshot.  The record stays
    selected and the canvas shows its image throughout.  The click and the
    arrivals are steps of the application that produce these states. *)
Theorem C9_select_restores_feature_key :
  forall (w : World) (g : SessionGeneration) (isMobile : bool),
    reachable w ->
    In g (sessionGenerations (app w)) ->
    gen_status g = StDone ->
    let s' := fst (handleSelectGeneration isMobile (gen_id g) (app w)) in
    let tasks := snd (handleSelectGeneration isMobile (gen_id g) (app w)) in
    let s'' := commit (app w) s' in
    takeSnapshot s'
    = withImageUrls (url (productImage s')) (url (modelImage s')) (gen_snapshot g)
    /\ getCurrentFeatureKey s' = gen_featureKey g
    /\ getCurrentFeatureKey s'' = gen_featureKey g
    /\ currentFeatureKeyRef s'' = gen_featureKey g
    /\ (forall t, In t (snd (handleGenerateClick s'')) ->
                  taskFeatureKey t = Some (gen_featureKey g))
    /\ activeGenerationId s'' = Some (gen_id g)
    /\ canvasDisplayUrl s'' = gen_src g
    /\ (truthyUrl (snap_productImageUrl (gen_snapshot g)) = true ->
        exists u, snap_productImageUrl (gen_snapshot g) = Some u
                  /\ In (TRestoreImage ImgProduct u) tasks)
    /\ (truthyUrl (snap_productImageUrl (gen_snapshot g)) = false ->
        productImage s' = initialProductImage)
    /\ (truthyUrl (snap_modelImageUrl (gen_snapshot g)) = true ->
        exists u, snap_modelImageUrl (gen_snapshot g) = Some u
                  /\ In (TRestoreImage ImgModel u) tasks)
    /\ (truthyUrl (snap_modelImageUrl (gen_snapshot g)) = false ->
        modelImage s' = initialModelImage)
    /\ (forall it u naturalWidth naturalHeight,
          In (TRestoreImage it u) tasks ->
          let restored := {| url := Some u; file := None;
                             originalWidth := naturalWidth;
                             originalHeight := naturalHeight |} in
          let s3 := commit s''
                      (handleSelectGeneration_onload it u naturalWidth naturalHeight s'') in
          match it with
          | ImgProduct =>
              snap_productImageUrl (gen_snapshot g) = Some u
              /\ productImage s3 = restored /\ modelImage s3 = modelImage s''
          | ImgModel =>
              snap_modelImageUrl (gen_snapshot g) = Some u
              /\ modelImage s3 = restored /\ productImage s3 = productImage s''
          end
          /\ takeSnapshot s3
             = withImageUrls (url (productImage s3)) (url (modelImage s3)) (gen_snapshot g)
          /\ getCurrentFeatureKey s3 = gen_featureKey g
          /\ activeGenerationId s3 = Some (gen_id g)
          /\ canvasDisplayUrl s3 = gen_src g)
    /\ (forall pw ph mw mh,
          snap_productImageUrl (gen_snapshot g) <> Some EmptyString ->
          snap_modelImageUrl (gen_snapshot g) <> Some EmptyString ->
          let s3 := match snap_productImageUrl (gen_snapshot g) with
                    | Some u => commit s'' (handleSelectGeneration_onload ImgProduct u pw ph s'')
                    | None => s''
                    end in
          let s4 := match snap_modelImageUrl (gen_snapshot g) with
                    | Some u => commit s3 (handleSelectGeneration_onload ImgModel u mw mh s3)
                    | None => s3
                    end in
          takeSnapshot s4 = gen_snapshot g
          /\ getCurrentFeatureKey s4 = gen_featureKey g
          /\ activeGenerationId s4 = Some (gen_id g)
          /\ canvasDisplayUrl s4 = gen_src g)
    /\ (isMobile = viewportMobile w ->
        historyVisible w = true ->
        exists w1,
          step (ClickSelectGeneration (gen_id g)) w = Some w1
          /\ app w1 = s''
          /\ pending w1 = pending w ++ tasks
          /\ forall n it u naturalWidth naturalHeight,
              nth_error (pending w1) n = Some (TRestoreImage it u) ->
              exists w2,
                step (ImageLoaded n naturalWidth naturalHeight) w1 = Some w2
                /\ app w2
                   = commit s''
                       (handleSelectGeneration_onload it u naturalWidth naturalHeight s'')
                /\ pending w2 = removeNth n (pending w1)).
Proof.
  intros w g isMobile Hw Hin Hdone s' tasks s''.
  destruct (reachable_inv Hw) as (_ & (HF & HN) & _).
  pose proof (findGeneration_In _ g HN Hin) as Hfind.
  rewrite Forall_forall in HF. destruct (HF g Hin) as (_ & Hkey & _).
  destruct (handleSelectGeneration_found isMobile (gen_id g) (app w) Hfind)
    as (Hsnap & Hact & Htab & Hlog).
  fold s' in Hsnap, Hact, Htab, Hlog.
  assert (Hk' : getCurrentFeatureKey s' = gen_featureKey g).
  { rewrite getCurrentFeatureKey_takeSnapshot, Hsnap, Hkey. reflexivity. }
  assert (Hk'' : getCurrentFeatureKey s'' = gen_featureKey g).
  { subst s''. now rewrite commit_featureKey. }
  destruct (commit_settled (app w) s') as [Href _]. fold s'' in Href.
  assert (Hshow' : showsRecord g s').
  { unfold showsRecord. rewrite Hlog. repeat split; assumption. }
  assert (Hshow : showsRecord g s'') by (subst s''; now apply commit_showsRecord).
  destruct (commit_images (app w) s') as (_ & Cp & Cm & _). fold s'' in Cp, Cm.
  pose proof (handleSelectGeneration_images isMobile (gen_id g) (app w) Hfind) as Himg.
  cbv zeta in Himg. fold s' tasks in Himg.
  destruct Himg as (Hp1 & Hp0 & Hm1 & Hm0).
  split; [exact Hsnap|]. split; [exact Hk'|]. split; [exact Hk''|].
  split; [now rewrite Href|]. split.
  { intros t Ht. rewrite <- Hk''. now apply handleGenerateClick_taskKey. }
  split; [apply Hshow|]. split; [now apply showsRecord_canvas|].
  split; [exact Hp1|]. split; [exact Hp0|]. split; [exact Hm1|]. split; [exact Hm0|].
  split; [|split].
  - intros it u naturalWidth naturalHeight Ht restored s3.
    pose proof (handleSelectGeneration_restore isMobile (gen_id g) (app w) it u Hfind Ht)
      as Hurl.
    destruct (handleSelectGeneration_onload_showsRecord it u naturalWidth naturalHeight Hshow)
      as [Hs1 Him].
    pose proof (commit_showsRecord s'' Hs1) as Hs3. fold s3 in Hs3.
    destruct (commit_images s''
                (handleSelectGeneration_onload it u naturalWidth naturalHeight s''))
      as (_ & Cp3 & Cm3 & _). fold s3 in Cp3, Cm3.
    split.
    + destruct it; (split; [exact Hurl|]); rewrite Cp3, Cm3; exact Him.
    + split; [apply Hs3|]. split; [apply Hs3|]. split; [apply Hs3|].
      now apply showsRecord_canvas.
  - intros pw ph mw mh Hpne Hmne s3 s4.
    assert (H3 : showsRecord g s3
                 /\ url (productImage s3) = snap_productImageUrl (gen_snapshot g)
                 /\ modelImage s3 = modelImage s').
    { subst s3. destruct (snap_productImageUrl (gen_snapshot g)) as [up|] eqn:Ep.
      - destruct (handleSelectGeneration_onload_showsRecord ImgProduct up pw ph Hshow)
          as [Hs1 [Hi1 Hi2]].
        destruct (commit_images s'' (handleSelectGeneration_onload ImgProduct up pw ph s''))
          as (_ & Cp3 & Cm3 & _).
        split; [now apply commit_showsRecord|]. rewrite Cp3, Cm3, Hi1, Hi2, Cm.
        split; reflexivity.
      - split; [exact Hshow|]. rewrite Cp, Cm, Hp0 by reflexivity. split; reflexivity. }
    destruct H3 as (Hs3 & Hu3 & Hm3).
    assert (H4 : showsRecord g s4
                 /\ url (productImage s4) = snap_productImageUrl (gen_snapshot g)
                 /\ url (modelImage s4) = snap_modelImageUrl (gen_snapshot g)).
    { subst s4. destruct (snap_modelImageUrl (gen_snapshot g)) as [um|] eqn:Em.
      - destruct (handleSelectGeneration_onload_showsRecord ImgModel um mw mh Hs3)
          as [Hs1 [Hi1 Hi2]].
        destruct (commit_images s3 (handleSelectGeneration_onload ImgModel um mw mh s3))
          as (_ & Cp4 & Cm4 & _).
        split; [now apply commit_showsRecord|]. rewrite Cp4, Cm4, Hi1, Hi2.
        split; [exact Hu3|reflexivity].
      - split; [exact Hs3|]. split; [exact Hu3|]. rewrite Hm3, Hm0 by reflexivity.
        reflexivity. }
    destruct H4 as (Hs4 & Hu4 & Hv4).
    split.
    + destruct Hs4 as (Hs & _). rewrite Hs, Hu4, Hv4. apply withImageUrls_eta.
    + split; [apply Hs4|]. split; [apply Hs4|]. now apply showsRecord_canvas.
  - intros -> Hvis.
    assert (Hd : isDone (gen_id g) (app w) = true)
      by (unfold isDone; now rewrite Hfind, Hdone).
    eexists. split; [unfold step, userStep; rewrite Hvis, Hd; reflexivity|].
    cbn [app pending]. split; [reflexivity|]. split; [reflexivity|].
    intros n it u naturalWidth naturalHeight Hn.
    eexists. split; [unfold step; cbn [app pending]; rewrite Hn; reflexivity|].
    cbn [app pending fst snd]. split; [reflexivity|apply app_nil_r].
Qed.

(** A colour record selected while the scene feature is active; its
    product image is put back when it has loaded. *)
Lemma C9_select_restores_feature_key_witness :
  exists g,
    In g (sessionGenerations (app (worldAfter traceDoneThenScene)))
    /\ getCurrentFeatureKey (app (worldAfter traceDoneThenScene)) = BackgroundScene
    /\ getCurrentFeatureKey
         (fst (handleSelectGeneration false (gen_id g) (app (worldAfter traceDoneThenScene))))
       = BackgroundColor
    /\ let s'' := commit (app (worldAfter traceDoneThenScene))
                    (fst (handleSelectGeneration false (gen_id g)
                            (app (worldAfter traceDoneThenScene)))) in
       productImage (commit s'' (handleSelectGeneration_onload ImgProduct "product" 640 480 s''))
       = {| url := Some "product"; file := None;
            originalWidth := 640; originalHeight := 480 |}.
Proof.
  destruct (sessionGenerations (app (worldAfter traceDoneThenScene))) as [|g gens] eqn:E;
    [vm_compute in E; discriminate|].
  exists g. split; [left; reflexivity|]. split; [reflexivity|].
  assert (Hg : gen_status g = StDone /\ gen_featureKey g = BackgroundColor
               /\ snap_productImageUrl (gen_snapshot g) = Some "product")
    by (vm_compute in E; injection E as <- _; repeat split; reflexivity).
  destruct Hg as (Hdone & Hkey & Hurl).
  assert (Hr : reachable (worldAfter traceDoneThenScene))
    by (exists false, traceDoneThenScene; vm_compute; reflexivity).
  assert (Hin : In g (sessionGenerations (app (worldAfter traceDoneThenScene))))
    by (rewrite E; left; reflexivity).
  pose proof (@C9_select_restores_feature_key (worldAfter traceDoneThenScene) g false
                Hr Hin Hdone) as H.
  cbv zeta in H.
  destruct H as (_ & Hk & _ & _ & _ & _ & _ & Hp1 & _ & _ & _ & Hload & _).
  split; [rewrite <- Hkey; exact Hk|].
  destruct Hp1 as (u & Hu & Htask); [rewrite Hurl; reflexivity|].
  rewrite Hurl in Hu. injection Hu as <-.
  destruct (Hload ImgProduct "product" 640 480 Htask) as ((_ & Hrest & _) & _).
  cbv zeta. exact Hrest.
Defined.

(** ** The display resolver *)

(** After one successful and one failed colour generation the selection
    is the removed record and the colour stack shows [A]: the resolver of
    the source yields no image where the specified order yields [A]; this
    stays so once a colour change has cleared the error and the canvas is
    visible. *)
Lemma C2_counterexample :
  let s := app (worldAfter traceFailedSecond) in
  let s2 := app (worldAfter traceFailedThenRecolor) in
  run traceFailedSecond (initialWorld false) = Some (worldAfter traceFailedSecond)
  /\ canvasDisplayUrl s = None
  /\ specCanvasImage s = Some "A"
  /\ canvasDisplayUrl s <> specCanvasImage s
  /\ run traceFailedThenRecolor (initialWorld false) = Some (worldAfter traceFailedThenRecolor)
  /\ currentStatus s2 = {| isLoading := NotLoading; error := None |}
  /\ canvasDisplayUrl s2 = None
  /\ specCanvasImage s2 = Some "A".
Proof. vm_compute. repeat split; try reflexivity. discriminate. Qed.

(** C2, amended.  In every reachable world: if a log record is selected,
    the canvas shows the image of that record when the record is listed and
    done, and no image when the record is still loading or is no longer
    listed; the stack is consulted only when no record is selected, and then
    the canvas shows the image at the cursor of the active feature's stack
    when the cursor is at least 0, and no image otherwise.  The resolver
    agrees with the specified order whenever no record is selected or the
    selected record is listed and done. *)
Theorem C2_canvas_resolution :
  forall w, reachable w ->
    let s := app w in
    match activeGenerationId s with
    | Some aid =>
        match findGeneration aid (sessionGenerations s) with
        | Some g =>
            match gen_status g with
            | StDone =>
                exists img, gen_src g = Some img
                            /\ canvasDisplayUrl s = Some img
                            /\ specCanvasImage s = Some img
            | StLoading => canvasDisplayUrl s = None
            end
        | None => canvasDisplayUrl s = None
        end
    | None =>
        canvasDisplayUrl s = specCanvasImage s
        /\ if 0 <=? currentIndex (currentStack s)
           then exists img,
               nth_error (images (currentStack s)) (Z.to_nat (currentIndex (currentStack s)))
               = Some img
               /\ canvasDisplayUrl s = Some img
           else canvasDisplayUrl s = None
    end.
Proof.
  intros w Hw s. subst s.
  destruct (reachable_inv Hw) as (HS & (HF & _) & _).
  unfold canvasDisplayUrl, specCanvasImage, stackCurrentImage.
  destruct (activeGenerationId (app w)) as [aid|].
  - destruct (findGeneration aid (sessionGenerations (app w))) as [g|] eqn:Hf;
      [|reflexivity].
    unfold findGeneration in Hf. apply find_some in Hf. destruct Hf as [Hin _].
    rewrite Forall_forall in HF. destruct (HF g Hin) as (_ & _ & Hsrc).
    destruct (gen_status g).
    + exact Hsrc.
    + destruct Hsrc as [img Himg]. exists img. now rewrite Himg.
  - split; [reflexivity|].
    fold (currentStack (app w)).
    specialize (HS (getCurrentFeatureKey (app w))). fold (currentStack (app w)) in HS.
    destruct HS as [Hlo Hhi].
    destruct (0 <=? currentIndex (currentStack (app w))) eqn:E; [|reflexivity].
    apply Z.leb_le in E. unfold jsIndex.
    replace (0 <=? currentIndex (currentStack (app w))) with true
      by (symmetry; now apply Z.leb_le).
    destruct (nth_error (images (currentStack (app w)))
                (Z.to_nat (currentIndex (currentStack (app w))))) as [img|] eqn:En.
    + exists img. split; reflexivity.
    + apply nth_error_None in En. lia.
Qed.

(** The selection of a removed record resolves to no image. *)
Lemma C2_canvas_resolution_witness :
  canvasDisplayUrl (app (worldAfter traceFailedSecond)) = None.
Proof.
  pose proof (@C2_canvas_resolution (worldAfter traceFailedSecond)) as H.
  assert (Hr : reachable (worldAfter traceFailedSecond))
    by (exists false, traceFailedSecond; vm_compute; reflexivity).
  specialize (H Hr). cbv zeta in H.
  assert (Ha : activeGenerationId (app (worldAfter traceFailedSecond)) = Some 1%nat)
    by reflexivity.
  assert (Hf : findGeneration 1 (sessionGenerations (app (worldAfter traceFailedSecond)))
               = None) by reflexivity.
  rewrite Ha, Hf in H. exact H.
Defined.

(** ** Refusal of a generation request *)

(** C4.  The generate operations are invoked through the Generate button,
    which is enabled exactly when the preconditions of the request are met;
    so in every state in which they are unmet the request is refused
    silently: no status changes, no record is created and no error is set.
    The handlers refuse on their own as well: the background handler when
    the product image is missing or the target feature is loading (which is
    every unmet precondition of the background mode), the ai-model handler
    when the target feature is loading; the images and the prompt of the
    ai-model mode are tested by the button, the only caller. *)
Theorem C4_refusal :
  (forall s, canGenerate s = preconditionsMet s)
  /\ (forall w, preconditionsMet (app w) = false -> step ClickGenerate w = None)
  /\ (forall s,
      truthyUrl (url (productImage s)) = false
      \/ truthyStep (isLoading (bgGet (effectiveSubMode s) (backgroundStatuses s))) = true ->
      handleBackgroundGenerate s = (s, None))
  /\ (forall s,
      mode s = ModeBackground -> preconditionsMet s = false ->
      handleGenerateClick s = (s, []))
  /\ (forall s,
      truthyStep (isLoading (amGet (modelSource s) (aiModelStatuses s))) = true ->
      handleAiModelGenerate s = (s, None)
      /\ (mode s = ModeAiModel -> handleGenerateClick s = (s, []))).
Proof.
  assert (Hcan : forall s, canGenerate s = preconditionsMet s).
  { intros s. unfold canGenerate, preconditionsMet.
    destruct (truthyStep (isLoading (currentStatus s))); [reflexivity|].
    destruct (mode s); simpl.
    - destruct (truthyUrl (url (productImage s))); reflexivity.
    - reflexivity. }
  assert (Hbg : forall s,
             truthyUrl (url (productImage s)) = false
             \/ truthyStep (isLoading (bgGet (effectiveSubMode s) (backgroundStatuses s)))
                = true ->
             handleBackgroundGenerate s = (s, None)).
  { intros s H. unfold handleBackgroundGenerate.
    destruct (truthyUrl (url (productImage s))); simpl; [|reflexivity].
    destruct H as [H|H]; [discriminate|]. now rewrite H. }
  split; [exact Hcan|]. split; [|split; [exact Hbg|split]].
  - intros w H. unfold step, userStep. rewrite Hcan, H, andb_false_r. reflexivity.
  - intros s Hm H. unfold handleGenerateClick. rewrite Hm, Hbg; [reflexivity|].
    unfold preconditionsMet, currentStatus in H. rewrite Hm in H.
    destruct (truthyStep _); [now right|]. simpl in H. now left.
  - intros s H.
    assert (Hai : handleAiModelGenerate s = (s, None))
      by (unfold handleAiModelGenerate; now rewrite H).
    split; [exact Hai|]. intros Hm. unfold handleGenerateClick. now rewrite Hm, Hai.
Qed.

(** The click is refused with no inputs; so is the background handler. *)
Lemma C4_refusal_witness :
  step ClickGenerate (worldAfter traceAiModelEmpty) = None
  /\ handleBackgroundGenerate initialState = (initialState, None).
Proof.
  split.
  - apply (proj1 (proj2 C4_refusal)). reflexivity.
  - apply (proj1 (proj2 (proj2 C4_refusal))). left. reflexivity.
Defined.

(** ** A completion for a feature the user has left *)

Lemma findGeneration_completeRecord_other a imageUrl generationId gens :
  a <> generationId ->
  findGeneration a (map (completeRecord imageUrl generationId) gens) = findGeneration a gens.
Proof.
  intros Hne. unfold findGeneration.
  induction gens as [|g gens IH]; simpl; [reflexivity|].
  rewrite completeRecord_id. destruct (Nat.eqb (gen_id g) a) eqn:E; [|exact IH].
  apply Nat.eqb_eq in E. unfold completeRecord.
  destruct (Nat.eqb (gen_id g) generationId) eqn:E'; [|reflexivity].
  apply Nat.eqb_eq in E'. congruence.
Qed.

Lemma findGeneration_completeRecord_same imageUrl generationId gens g :
  findGeneration generationId gens = Some g ->
  findGeneration generationId (map (completeRecord imageUrl generationId) gens)
  = Some {| gen_id := gen_id g; gen_src := Some imageUrl; gen_status := StDone;
            gen_featureKey := gen_featureKey g; gen_snapshot := gen_snapshot g |}.
Proof.
  unfold findGeneration.
  induction gens as [|a gens IH]; simpl; [discriminate|].
  rewrite completeRecord_id. destruct (Nat.eqb (gen_id a) generationId) eqn:E.
  - intros [= ->]. unfold completeRecord. now rewrite E.
  - exact IH.
Qed.

(** What a completion does when the feature key held by the ref cell is
    not the job's: the selection is left alone, the result is pushed on
    the job's stack and on no other, the job's record becomes done with the
    result as its image, and the canvas is unchanged unless the job's own
    record is selected and still listed. *)
Lemma recordNewGeneration_other_feature r isMobile imageUrl generationId featureKey s :
  featureKey <> currentFeatureKeyRef s ->
  let s' := recordNewGeneration r isMobile imageUrl generationId featureKey s in
  activeGenerationId s' = activeGenerationId s
  /\ getStack featureKey (generationStacks s')
     = pushImage imageUrl (getStack featureKey (generationStacks s))
  /\ (forall k, k <> featureKey ->
                getStack k (generationStacks s') = getStack k (generationStacks s))
  /\ (forall g, findGeneration generationId (sessionGenerations s) = Some g ->
                exists g', findGeneration generationId (sessionGenerations s') = Some g'
                           /\ gen_status g' = StDone /\ gen_src g' = Some imageUrl)
  /\ (currentFeatureKeyRef s = getCurrentFeatureKey s ->
      (activeGenerationId s = Some generationId ->
       findGeneration generationId (sessionGenerations s) = None) ->
      canvasDisplayUrl s' = canvasDisplayUrl s).
Proof.
  intros Hne s'.
  assert (Hact : activeGenerationId s' = activeGenerationId s).
  { subst s'. unfold recordNewGeneration. cbn [currentFeatureKeyRef setSessionGenerations].
    apply FeatureKey_eqb_neq in Hne. rewrite Hne.
    destruct (_ || _); reflexivity. }
  assert (Hkey : getCurrentFeatureKey s' = getCurrentFeatureKey s).
  { subst s'. unfold recordNewGeneration.
    destruct (FeatureKey_eqb _ _); destruct (_ || _); reflexivity. }
  pose proof (recordNewGeneration_stacks r isMobile imageUrl generationId featureKey s) as Hst.
  pose proof (recordNewGeneration_log r isMobile imageUrl generationId featureKey s) as Hlog.
  fold s' in Hst, Hlog.
  split; [exact Hact|]. split; [rewrite Hst; apply getStack_setStack_same|].
  split; [intros k Hk; rewrite Hst; apply getStack_setStack_other; congruence|].
  split.
  - intros g Hg. eexists. rewrite Hlog. split.
    + apply findGeneration_completeRecord_same. exact Hg.
    + split; reflexivity.
  - intros Href Hsel. unfold canvasDisplayUrl. rewrite Hact, Hkey, Hlog, Hst.
    destruct (activeGenerationId s) as [a|].
    + destruct (Nat.eq_dec a generationId) as [->|Hd].
      * rewrite (Hsel eq_refl).
        now rewrite (proj2 (findGeneration_map_completeRecord _ imageUrl _ _) (Hsel eq_refl)).
      * rewrite findGeneration_completeRecord_other by exact Hd. reflexivity.
    + rewrite getStack_setStack_other by congruence. reflexivity.
Qed.

Lemma settled_selection s a g :
  settled s -> activeTab s = TabSettings -> activeGenerationId s = Some a ->
  findGeneration a (sessionGenerations s) = Some g ->
  gen_featureKey g = getCurrentFeatureKey s.
Proof.
  intros [_ Hd] Ht Ha Hf. unfold effectDeselect in Hd. rewrite Ht, Ha, Hf in Hd.
  destruct (FeatureKey_eqb (gen_featureKey g) (getCurrentFeatureKey s)) eqn:E.
  - now apply FeatureKey_eqb_eq.
  - simpl in Hd. apply (f_equal activeGenerationId) in Hd. simpl in Hd.
    unfold val in Hd. congruence.
Qed.

(** The render that follows such a completion keeps the selection, and
    with it the canvas. *)
Lemma stale_completion_commit s s1 imageUrl generationId :
  settled s ->
  (activeGenerationId s = Some generationId ->
   findGeneration generationId (sessionGenerations s) = None) ->
  activeGenerationId s1 = activeGenerationId s ->
  activeTab s1 = activeTab s ->
  sessionGenerations s1 = map (completeRecord imageUrl generationId) (sessionGenerations s) ->
  getCurrentFeatureKey s1 = getCurrentFeatureKey s ->
  featureDepsChanged s s1 = false ->
  canvasDisplayUrl s1 = canvasDisplayUrl s ->
  canvasDisplayUrl (commit s s1) = canvasDisplayUrl s
  /\ activeGenerationId (commit s s1) = activeGenerationId s.
Proof.
  intros Hset Hsel Ha Ht Hl Hk Hdeps Hc. unfold commit. rewrite Hdeps.
  assert (Hd : effectDeselect (effectSyncFeatureKeyRef s1) = effectSyncFeatureKeyRef s1).
  { unfold effectDeselect.
    replace (activeTab (effectSyncFeatureKeyRef s1)) with (activeTab s)
      by (symmetry; exact Ht).
    replace (activeGenerationId (effectSyncFeatureKeyRef s1)) with (activeGenerationId s)
      by (symmetry; exact Ha).
    replace (sessionGenerations (effectSyncFeatureKeyRef s1))
      with (map (completeRecord imageUrl generationId) (sessionGenerations s))
      by (symmetry; exact Hl).
    replace (getCurrentFeatureKey (effectSyncFeatureKeyRef s1)) with (getCurrentFeatureKey s)
      by (symmetry; exact Hk).
    destruct (activeTab s) eqn:Et; [|reflexivity].
    destruct (activeGenerationId s) as [a|] eqn:Ea; [|reflexivity].
    destruct (Nat.eq_dec a generationId) as [->|Hne].
    - now rewrite (proj2 (findGeneration_map_completeRecord _ imageUrl _ _) (Hsel eq_refl)).
    - rewrite findGeneration_completeRecord_other by exact Hne.
      destruct (findGeneration a (sessionGenerations s)) as [g|] eqn:Ef; [|reflexivity].
      rewrite (settled_selection Hset Et Ea Ef).
      replace (FeatureKey_eqb (getCurrentFeatureKey s) (getCurrentFeatureKey s)) with true
        by (symmetry; now apply FeatureKey_eqb_eq).
      reflexivity. }
  rewrite Hd. split; [exact Hc|exact Ha].
Qed.

(** The cells a [finally] clause leaves as [recordNewGeneration] set them. *)
Lemma recordNewGeneration_cells r isMobile imageUrl generationId featureKey s :
  let s' := recordNewGeneration r isMobile imageUrl generationId featureKey s in
  activeTab s' = activeTab s
  /\ getCurrentFeatureKey s' = getCurrentFeatureKey s
  /\ featureDepsChanged s s' = false.
Proof.
  cbv zeta. unfold recordNewGeneration.
  destruct (FeatureKey_eqb _ _); destruct (_ || _);
    (split; [reflexivity|]; split; [reflexivity|]);
    apply featureDepsChanged_same; reflexivity.
Qed.

(** In a world whose committed state is stable, the completion of a
    generation job for a feature other than the active one, taken as one
    step with its [finally] clause and the following render, changes
    neither the selection nor the canvas unless the job's own record is
    selected and still listed. *)
Lemma stale_completion w n t i k imageUrl :
  settled (app w) ->
  nth_error (pending w) n = Some t ->
  (exists j, t = TBackground j) \/ (exists j, t = TAiModel j AwaitGenerate) ->
  generationTaskId t = Some i ->
  taskFeatureKey t = Some k ->
  k <> getCurrentFeatureKey (app w) ->
  (activeGenerationId (app w) = Some i ->
   findGeneration i (sessionGenerations (app w)) = None) ->
  exists w',
    step (Fulfilled n imageUrl) w = Some w'
    /\ canvasDisplayUrl (app w') = canvasDisplayUrl (app w)
    /\ activeGenerationId (app w') = activeGenerationId (app w).
Proof.
  intros Hset Hn Hkind Hid Hkey Hk Hsel.
  assert (Href : k <> currentFeatureKeyRef (app w))
    by (destruct Hset as [-> _]; exact Hk).
  destruct Hkind as [[j ->]|[j ->]]; injection Hid as <-; injection Hkey as <-.
  - set (s1 := handleBackgroundGenerate_resolved j (viewportMobile w) imageUrl (app w)).
    exists {| app := commit (app w) s1; viewportMobile := viewportMobile w;
              pending := removeNth n (pending w) ++ [] |}.
    split; [unfold step; rewrite Hn; reflexivity|]. cbn [app].
    destruct (recordNewGeneration_other_feature (bg_render j) (viewportMobile w) imageUrl
                (bg_newId j) (app w) Href) as (Ha & _ & _ & _ & Hc).
    destruct (recordNewGeneration_cells (bg_render j) (viewportMobile w) imageUrl
                (bg_newId j) (bg_featureKey j) (app w)) as (Ct & Ck & Cd).
    apply (@stale_completion_commit (app w) s1 imageUrl (bg_newId j));
      try assumption.
    + subst s1. unfold handleBackgroundGenerate_resolved, handleBackgroundGenerate_finally.
      cbn [sessionGenerations setBackgroundStatuses]. apply recordNewGeneration_log.
    + rewrite <- Hc; [reflexivity|now destruct Hset|exact Hsel].
  - set (s1 := handleAiModelGenerate_resolved j (viewportMobile w) imageUrl (app w)).
    exists {| app := commit (app w) s1; viewportMobile := viewportMobile w;
              pending := removeNth n (pending w) ++ [] |}.
    split; [unfold step; rewrite Hn; reflexivity|]. cbn [app].
    destruct (recordNewGeneration_other_feature (ai_render j) (viewportMobile w) imageUrl
                (ai_newId j) (app w) Href) as (Ha & _ & _ & _ & Hc).
    destruct (recordNewGeneration_cells (ai_render j) (viewportMobile w) imageUrl
                (ai_newId j) (ai_featureKey j) (app w)) as (Ct & Ck & Cd).
    apply (@stale_completion_commit (app w) s1 imageUrl (ai_newId j));
      try assumption.
    + subst s1. unfold handleAiModelGenerate_resolved, handleAiModelGenerate_finally.
      cbn [sessionGenerations setAiModelStatuses]. apply recordNewGeneration_log.
    + rewrite <- Hc; [reflexivity|now destruct Hset|exact Hsel].
Qed.

(** *** Pending jobs and the records they own *)

Lemma removeNth_In n (ts : list Task) t : In t (removeNth n ts) -> In t ts.
Proof.
  unfold removeNth. intros H. apply in_app_or in H. destruct H as [H|H].
  - rewrite <- (firstn_skipn n ts). apply in_or_app. now left.
  - rewrite <- (firstn_skipn (S n) ts). apply in_or_app. now right.
Qed.

Lemma taskInv_historyStep s s' t : historyStep s s' -> taskInv s t -> taskInv s' t.
Proof.
  unfold taskInv. intros H.
  destruct (generationTaskId t) as [i|]; [|trivial].
  destruct (taskFeatureKey t) as [k|]; [|trivial].
  intros [Hlt Hrec].
  destruct H as [(E1 & E2 & E3)|E1 E2 E3|fk snap Hk E1 E2 E3
                |fk img j E1 E2 E3|p E1 E2 E3|fk E1 E2 E3|fk E1 E2 E3];
    rewrite E2, E3; (split; [lia|]); try exact Hrec.
  - intros g [].
  - intros g [<-|Hg] Hid; [simpl in Hid; lia|now apply Hrec].
  - intros g Hg Hid. apply in_map_iff in Hg. destruct Hg as (g0 & <- & Hg0).
    rewrite completeRecord_id in Hid. unfold completeRecord.
    destruct (Nat.eqb (gen_id g0) j); simpl; now apply Hrec.
  - intros g Hg Hid. apply filter_In in Hg. now apply Hrec.
Qed.

Lemma handleGenerateClick_taskInv s t :
  logInv s -> In t (snd (handleGenerateClick s)) -> taskInv (fst (handleGenerateClick s)) t.
Proof.
  intros [HF _] Hin. rewrite Forall_forall in HF.
  assert (Hnew : forall k snap g,
             In g (loadingRecord (generationIdCounter s) k snap :: sessionGenerations s) ->
             gen_id g = generationIdCounter s -> gen_featureKey g = k).
  { intros k snap g [<-|Hg] Hid; [reflexivity|].
    destruct (HF g Hg) as [Hlt _]. lia. }
  revert Hin. unfold handleGenerateClick. destruct (mode s).
  - unfold handleBackgroundGenerate.
    destruct (negb _); [intros []|]. destruct (truthyStep _); [intros []|].
    simpl. intros [<-|[]]. unfold taskInv; simpl. split; [lia|apply Hnew].
  - unfold handleAiModelGenerate.
    destruct (truthyStep _); [intros []|].
    destruct (truthyUrl _).
    + simpl. intros [<-|[]]. unfold taskInv; simpl. split; [lia|apply Hnew].
    + unfold handleAiModelGenerate_blend. destruct (_ && _); simpl;
        intros [<-|[]]; unfold taskInv; simpl; (split; [lia|apply Hnew]).
Qed.

Lemma handlePromptGen_tasks s t :
  In t (snd (handlePromptGen s)) -> generationTaskId t = None.
Proof.
  unfold handlePromptGen. repeat break_match; simpl; intros H;
    repeat (destruct H as [<-|H]); try contradiction; reflexivity.
Qed.

Lemma handleSelectGeneration_tasks isMobile i s t :
  In t (snd (handleSelectGeneration isMobile i s)) -> generationTaskId t = None.
Proof.
  unfold handleSelectGeneration.
  destruct (findGeneration i (sessionGenerations s)) as [g|]; [|intros []].
  destruct (snap_productImageUrl (gen_snapshot g)) as [u|]; [destruct (truthyStr u)|];
    (destruct (snap_modelImageUrl (gen_snapshot g)) as [u'|]; [destruct (truthyStr u')|]);
    destruct isMobile; simpl; intros H;
    repeat (destruct H as [<-|H]); try contradiction; reflexivity.
Qed.

(** Where the pending tasks of the next world come from. *)
Lemma step_pending e w w' t' :
  step e w = Some w' ->
  In t' (pending w') ->
  (exists t, In t (pending w)
             /\ generationTaskId t' = generationTaskId t
             /\ taskFeatureKey t' = taskFeatureKey t)
  \/ generationTaskId t' = None
  \/ (In t' (snd (handleGenerateClick (app w)))
      /\ app w' = commit (app w) (fst (handleGenerateClick (app w)))).
Proof.
  assert (Hold : forall t, In t (pending w) ->
             exists t0, In t0 (pending w)
                        /\ generationTaskId t = generationTaskId t0
                        /\ taskFeatureKey t = taskFeatureKey t0)
    by (intros t Ht; exists t; auto).
  assert (Hrem : forall n t, In t (removeNth n (pending w)) ->
             exists t0, In t0 (pending w)
                        /\ generationTaskId t = generationTaskId t0
                        /\ taskFeatureKey t = taskFeatureKey t0)
    by (intros n t Ht; apply Hold; eapply removeNth_In; eauto).
  intros H Hin.
  destruct e; unfold step, userStep, resume in H;
    repeat match type of H with
           | (if ?b then _ else _) = Some _ => destruct b; [|discriminate]
           end;
    try (injection H as <-; cbn [pending app fst snd] in Hin;
         apply in_app_or in Hin; destruct Hin as [Hin|Hin];
         [left; now apply Hold|]).
  - injection H as <-. left. now apply Hold.
  - destruct Hin.
  - destruct Hin.
  - destruct Hin.
  - destruct Hin.
  - destruct Hin.
  - destruct Hin.
  - destruct Hin.
  - destruct Hin.
  - destruct Hin.
  - destruct Hin.
  - right; left. eapply handlePromptGen_tasks; eauto.
  - destruct Hin as [<-|[]]. right; left. reflexivity.
  - right; right. split; [exact Hin|reflexivity].
  - destruct Hin.
  - destruct Hin.
  - destruct Hin.
  - destruct Hin.
  - destruct Hin.
  - destruct Hin.
  - right; left. eapply handleSelectGeneration_tasks; eauto.
  - destruct Hin.
  - destruct (nth_error (pending w) n) as [[r f it|it u'|r|j|j ph]|]; try discriminate.
    injection H as <-; cbn [pending] in Hin.
    apply in_app_or in Hin; destruct Hin as [Hin|[]]. left. eapply Hrem; eauto.
  - destruct (nth_error (pending w) n) as [[r f it|it u'|r|j|j ph]|]; try discriminate.
    injection H as <-; cbn [pending] in Hin.
    apply in_app_or in Hin; destruct Hin as [Hin|[]]. left. eapply Hrem; eauto.
  - destruct (nth_error (pending w) n) as [[r f it|it u'|r|j|j ph]|] eqn:Hn;
      try discriminate.
    + injection H as <-; cbn [pending] in Hin.
      apply in_app_or in Hin; destruct Hin as [Hin|[]]. left. eapply Hrem; eauto.
    + injection H as <-; cbn [pending] in Hin.
      apply in_app_or in Hin; destruct Hin as [Hin|[]]. left. eapply Hrem; eauto.
    + apply nth_error_In in Hn. destruct ph.
      * destruct (handleAiModelGenerate_blend j (app w)) as [s' ph'].
        injection H as <-; cbn [pending snd] in Hin.
        apply in_app_or in Hin; destruct Hin as [Hin|[<-|[]]];
          [left; eapply Hrem; eauto|].
        left. exists (TAiModel j AwaitPrepareProduct). auto.
      * injection H as <-; cbn [pending snd] in Hin.
        apply in_app_or in Hin; destruct Hin as [Hin|[<-|[]]];
          [left; eapply Hrem; eauto|].
        left. exists (TAiModel j AwaitPrepareModel). auto.
      * injection H as <-; cbn [pending snd] in Hin.
        apply in_app_or in Hin; destruct Hin as [Hin|[]]. left. eapply Hrem; eauto.
  - destruct (nth_error (pending w) n) as [[r f it|it u'|r|j|j ph]|]; try discriminate;
      injection H as <-; cbn [pending] in Hin;
      apply in_app_or in Hin; destruct Hin as [Hin|[]]; left; eapply Hrem; eauto.
Qed.

Lemma step_worldInv e w w' : worldInv w -> step e w = Some w' -> worldInv w'.
Proof.
  intros [Hi Hp] H. split; [eapply step_inv; eauto|].
  rewrite Forall_forall in *. intros t' Hin.
  destruct (step_pending _ _ _ H Hin) as [(t & Ht & Hid & Hkey)|[Hnone|[Hnew Happ]]].
  - pose proof (@taskInv_historyStep _ _ t (step_history _ _ H) (Hp t Ht)) as Hinv.
    unfold taskInv in *. now rewrite Hid, Hkey.
  - unfold taskInv. now rewrite Hnone.
  - destruct Hi as (_ & HL & _).
    pose proof (@handleGenerateClick_taskInv (app w) t' HL Hnew) as Hinv.
    rewrite Happ. eapply taskInv_historyStep; [|exact Hinv].
    apply hs_same, commit_sameHistory.
Qed.

Lemma run_worldInv evs : forall w w', worldInv w -> run evs w = Some w' -> worldInv w'.
Proof.
  induction evs as [|e evs IH]; simpl; intros w w' Hi H.
  - now injection H as <-.
  - destruct (step e w) as [w1|] eqn:Hstep; [|discriminate].
    eapply IH; [|exact H]. eapply step_worldInv; eauto.
Qed.

Lemma reachable_worldInv w : reachable w -> worldInv w.
Proof.
  intros (isMobile & evs & H). eapply run_worldInv; [|exact H].
  split; [apply initialState_inv|constructor].
Qed.

(** On the settings tab a completion for a feature other than the active
    one never changes the canvas or the selection: there a selected record
    that is listed belongs to the active feature, so it is not the job's. *)
Lemma stale_completion_on_settings_tab w n t i k imageUrl :
  reachable w ->
  activeTab (app w) = TabSettings ->
  nth_error (pending w) n = Some t ->
  (exists j, t = TBackground j) \/ (exists j, t = TAiModel j AwaitGenerate) ->
  generationTaskId t = Some i ->
  taskFeatureKey t = Some k ->
  k <> getCurrentFeatureKey (app w) ->
  exists w',
    step (Fulfilled n imageUrl) w = Some w'
    /\ canvasDisplayUrl (app w') = canvasDisplayUrl (app w)
    /\ activeGenerationId (app w') = activeGenerationId (app w).
Proof.
  intros Hw Htab Hn Hkind Hid Hkey Hk.
  destruct (reachable_worldInv Hw) as [(_ & _ & Hset) Hp].
  apply (@stale_completion w n t i k imageUrl); try assumption.
  intros Ha. destruct (findGeneration i (sessionGenerations (app w))) as [g|] eqn:Hf;
    [|reflexivity].
  exfalso. apply Hk. rewrite <- (settled_selection Hset Htab Ha Hf).
  rewrite Forall_forall in Hp. pose proof (Hp t (nth_error_In _ _ Hn)) as Hinv.
  unfold taskInv in Hinv. rewrite Hid, Hkey in Hinv. destruct Hinv as [_ Hrec].
  unfold findGeneration in Hf. apply find_some in Hf. destruct Hf as [Hin Heq].
  apply Nat.eqb_eq in Heq. symmetry. now apply Hrec.
Qed.

(** C1, at the failing trace.  A colour request is in flight with its
    record selected; the user opens the history tab, the window becomes
    narrow, and the transparent swatch makes [background-transparent] the
    active feature while the selection stays on the pending record.  The
    completion of the colour job then reads [background-transparent] from
    the ref cell, pushes the result on the colour stack and marks the record
    done, and the canvas, which resolved to no image before, now resolves to
    the colour result. *)
Theorem C1_stale_completion_reaches_canvas :
  let w := worldAfter traceStaleCompletion in
  run traceStaleCompletion (initialWorld false) = Some w
  /\ (exists j, nth_error (pending w) 0 = Some (TBackground j)
                /\ bg_newId j = 0%nat /\ bg_featureKey j = BackgroundColor)
  /\ getCurrentFeatureKey (app w) = BackgroundTransparent
  /\ currentFeatureKeyRef (app w) = BackgroundTransparent
  /\ activeGenerationId (app w) = Some 0%nat
  /\ canvasDisplayUrl (app w) = None
  /\ exists w',
      step (Fulfilled 0 "D") w = Some w'
      /\ getCurrentFeatureKey (app w') = BackgroundTransparent
      /\ getStack BackgroundColor (generationStacks (app w'))
         = {| images := ["D"]; currentIndex := 0 |}
      /\ getStack BackgroundTransparent (generationStacks (app w'))
         = {| images := []; currentIndex := -1 |}
      /\ isDone 0 (app w') = true
      /\ canvasDisplayUrl (app w') = Some "D".
Proof.
  cbv zeta. split; [vm_compute; reflexivity|].
  split; [eexists; vm_compute; repeat split; reflexivity|].
  do 4 (split; [vm_compute; reflexivity|]).
  destruct (step (Fulfilled 0 "D") (worldAfter traceStaleCompletion)) as [w'|] eqn:E;
    [|vm_compute in E; discriminate].
  exists w'. split; [reflexivity|].
  vm_compute in E. injection E as <-. vm_compute. repeat split; reflexivity.
Qed.

(** * Further properties of the application *)

(** ** Undo and redo compose *)

Lemma setStack_setStack k v v' ss : setStack k v' (setStack k v ss) = setStack k v' ss.
Proof. destruct k; reflexivity. Qed.

Lemma redo_undo_stack st :
  stackInv st -> 0 <= currentIndex st -> redoStack (undoStack st) = st.
Proof.
  intros [Hlo Hhi] H0. unfold undoStack.
  replace (0 <=? currentIndex st) with true by (symmetry; now apply Z.leb_le).
  unfold redoStack; simpl.
  replace (currentIndex st - 1 <? Z.of_nat (List.length (images st)) - 1) with true
    by (symmetry; apply Z.ltb_lt; lia).
  destruct st as [imgs idx]; simpl. f_equal. lia.
Qed.

Lemma undo_redo_stack st :
  stackInv st -> currentIndex st < Z.of_nat (List.length (images st)) - 1 ->
  undoStack (redoStack st) = st.
Proof.
  intros [Hlo Hhi] H0. unfold redoStack.
  replace (currentIndex st <? Z.of_nat (List.length (images st)) - 1) with true
    by (symmetry; now apply Z.ltb_lt).
  unfold undoStack; simpl.
  replace (0 <=? currentIndex st + 1) with true by (symmetry; apply Z.leb_le; lia).
  destruct st as [imgs idx]; simpl. f_equal. lia.
Qed.

Lemma canvasDisplayUrl_unselected s :
  activeGenerationId s = None ->
  canvasDisplayUrl s = jsIndex (images (currentStack s)) (currentIndex (currentStack s)).
Proof.
  intros H. unfold canvasDisplayUrl, currentStack, jsIndex. rewrite H.
  destruct (0 <=? _); reflexivity.
Qed.

(** X1.  When the stacks satisfy their bounds, redo undoes undo and undo
    undoes redo on the generation stacks, whenever the first of the two is
    enabled; after an undo the canvas shows the image before the cursor (none
    when the first image was undone), after a redo the image after it. *)
Theorem undo_redo_round_trip :
  forall s,
    stacksInv (generationStacks s) ->
    let st := currentStack s in
    (canUndo s = true ->
     generationStacks (handleRedo (handleUndo s)) = generationStacks s
     /\ canvasDisplayUrl (handleUndo s) = jsIndex (images st) (currentIndex st - 1))
    /\ (canRedo s = true ->
        generationStacks (handleUndo (handleRedo s)) = generationStacks s
        /\ canvasDisplayUrl (handleRedo s) = jsIndex (images st) (currentIndex st + 1)
        /\ exists img, canvasDisplayUrl (handleRedo s) = Some img).
Proof.
  intros s HS st. pose proof (HS (getCurrentFeatureKey s)) as Hst. fold (currentStack s) in Hst.
  fold st in Hst.
  assert (Hku : getCurrentFeatureKey (handleUndo s) = getCurrentFeatureKey s) by reflexivity.
  assert (Hkr : getCurrentFeatureKey (handleRedo s) = getCurrentFeatureKey s) by reflexivity.
  assert (Hcu : currentStack (handleUndo s) = undoStack st).
  { unfold currentStack. rewrite Hku, handleUndo_stacks. apply getStack_setStack_same. }
  assert (Hcr : currentStack (handleRedo s) = redoStack st).
  { unfold currentStack. rewrite Hkr, handleRedo_stacks. apply getStack_setStack_same. }
  split.
  - intros Hc. unfold canUndo in Hc. fold st in Hc. apply Z.leb_le in Hc. split.
    + rewrite handleRedo_stacks, Hku, Hcu, handleUndo_stacks, setStack_setStack.
      fold st. rewrite (redo_undo_stack Hst Hc). apply setStack_getStack.
    + rewrite canvasDisplayUrl_unselected by reflexivity. rewrite Hcu.
      unfold undoStack. replace (0 <=? currentIndex st) with true
        by (symmetry; now apply Z.leb_le). reflexivity.
  - intros Hc. unfold canRedo in Hc. fold st in Hc. apply Z.ltb_lt in Hc.
    assert (Hcanvas : canvasDisplayUrl (handleRedo s)
                      = jsIndex (images st) (currentIndex st + 1)).
    { rewrite canvasDisplayUrl_unselected by reflexivity. rewrite Hcr.
      unfold redoStack. replace (currentIndex st <? Z.of_nat (List.length (images st)) - 1)
        with true by (symmetry; now apply Z.ltb_lt). reflexivity. }
    split; [|split; [exact Hcanvas|]].
    + rewrite handleUndo_stacks, Hkr, Hcr, handleRedo_stacks, setStack_setStack.
      fold st. rewrite (undo_redo_stack Hst Hc). apply setStack_getStack.
    + rewrite Hcanvas. unfold jsIndex. destruct Hst as [Hlo Hhi].
      replace (0 <=? currentIndex st + 1) with true by (symmetry; apply Z.leb_le; lia).
      destruct (nth_error (images st) (Z.to_nat (currentIndex st + 1))) as [img|] eqn:E;
        [now exists img|].
      apply nth_error_None in E. lia.
Qed.

(** On [A,B,C] with the cursor on [C], undo shows [B] and redo brings the
    stacks back. *)
Lemma undo_redo_round_trip_witness :
  generationStacks (handleRedo (handleUndo stateABC)) = generationStacks stateABC
  /\ canvasDisplayUrl (handleUndo stateABC) = Some "B".
Proof.
  assert (HS : stacksInv (generationStacks stateABC))
    by (intros k; destruct k; unfold stackInv; simpl; lia).
  destruct (proj1 (undo_redo_round_trip stateABC HS) eq_refl) as [H1 H2].
  split; [exact H1|]. rewrite H2. reflexivity.
Defined.

(** ** Deleting a record of the history panel *)

Lemma findGeneration_filter_other a i gens :
  a <> i ->
  findGeneration a (filter (fun gen => negb (Nat.eqb (gen_id gen) i)) gens)
  = findGeneration a gens.
Proof.
  intros Hne. unfold findGeneration. induction gens as [|g gens IH]; simpl; [reflexivity|].
  destruct (Nat.eqb (gen_id g) i) eqn:Ei; simpl.
  - apply Nat.eqb_eq in Ei.
    replace (Nat.eqb (gen_id g) a) with false by (symmetry; apply Nat.eqb_neq; congruence).
    exact IH.
  - destruct (Nat.eqb (gen_id g) a); [reflexivity|exact IH].
Qed.

(** The deselect effect leaves a state alone when its tab, its selection,
    its feature key and the record it selects are those of a state stable
    under the effects. *)
Lemma effectDeselect_stable s x :
  settled s ->
  activeTab x = activeTab s ->
  activeGenerationId x = activeGenerationId s ->
  getCurrentFeatureKey x = getCurrentFeatureKey s ->
  (forall a, activeGenerationId s = Some a ->
             findGeneration a (sessionGenerations x)
             = findGeneration a (sessionGenerations s)) ->
  effectDeselect x = x.
Proof.
  intros Hset Ht Ha Hk Hf. unfold effectDeselect. rewrite Ht, Ha, Hk.
  destruct (activeTab s) eqn:Et; [|reflexivity].
  destruct (activeGenerationId s) as [a|] eqn:Ea; [|reflexivity].
  rewrite (Hf a eq_refl).
  destruct (findGeneration a (sessionGenerations s)) as [g|] eqn:Eg; [|reflexivity].
  rewrite (settled_selection Hset Et Ea Eg).
  replace (FeatureKey_eqb (getCurrentFeatureKey s) (getCurrentFeatureKey s)) with true
    by (symmetry; now apply FeatureKey_eqb_eq).
  reflexivity.
Qed.

(** X2.  In every reachable world, deleting a record from the history
    panel leaves all generation stacks as they are and removes exactly the
    records with that id.  If the deleted record was the selected one the
    selection is cleared and the canvas falls back to the image at the
    cursor of the active stack; otherwise the selection and the canvas are
    unchanged. *)
Theorem delete_from_history :
  forall w i,
    reachable w ->
    let s := app w in
    let s' := commit s (handleDeleteFromHistory i s) in
    generationStacks s' = generationStacks s
    /\ sessionGenerations s'
       = filter (fun gen => negb (Nat.eqb (gen_id gen) i)) (sessionGenerations s)
    /\ findGeneration i (sessionGenerations s') = None
    /\ (activeGenerationId s = Some i ->
        activeGenerationId s' = None /\ canvasDisplayUrl s' = stackCurrentImage s)
    /\ (activeGenerationId s <> Some i ->
        activeGenerationId s' = activeGenerationId s
        /\ canvasDisplayUrl s' = canvasDisplayUrl s).
Proof.
  intros w i Hw. cbv zeta. destruct (reachable_inv Hw) as (_ & _ & Hset).
  set (s := app w) in *. set (s1 := handleDeleteFromHistory i s).
  assert (Hlog1 : sessionGenerations s1
                  = filter (fun gen => negb (Nat.eqb (gen_id gen) i)) (sessionGenerations s)).
  { subst s1. unfold handleDeleteFromHistory. repeat break_match; reflexivity. }
  assert (Hst1 : generationStacks s1 = generationStacks s).
  { subst s1. unfold handleDeleteFromHistory. repeat break_match; reflexivity. }
  assert (Hk1 : getCurrentFeatureKey s1 = getCurrentFeatureKey s).
  { subst s1. unfold handleDeleteFromHistory. repeat break_match; reflexivity. }
  assert (Ht1 : activeTab s1 = activeTab s).
  { subst s1. unfold handleDeleteFromHistory. repeat break_match; reflexivity. }
  assert (Hdeps : featureDepsChanged s s1 = false).
  { apply featureDepsChanged_same; subst s1; unfold handleDeleteFromHistory;
      repeat break_match; reflexivity. }
  destruct (commit_sameHistory s s1) as (Cs & Cl & _).
  assert (Hlog : sessionGenerations (commit s s1)
                 = filter (fun gen => negb (Nat.eqb (gen_id gen) i)) (sessionGenerations s))
    by (rewrite Cl; exact Hlog1).
  split; [rewrite Cs; exact Hst1|]. split; [exact Hlog|]. split.
  { rewrite Hlog. apply findGeneration_none. intros g Hg. now apply filter_drops_id in Hg. }
  assert (Hcommit : commit s s1 = effectDeselect (effectSyncFeatureKeyRef s1))
    by (unfold commit; now rewrite Hdeps).
  split.
  - intros Ha.
    assert (Ha1 : activeGenerationId s1 = None).
    { subst s1. unfold handleDeleteFromHistory. rewrite Ha, Nat.eqb_refl. reflexivity. }
    assert (Ha' : activeGenerationId (commit s s1) = None)
      by now apply commit_activeGenerationId_None.
    split; [exact Ha'|].
    unfold canvasDisplayUrl, stackCurrentImage, currentStack. rewrite Ha'.
    rewrite commit_featureKey, Hk1, Cs, Hst1. reflexivity.
  - intros Hne.
    assert (Ha1 : activeGenerationId s1 = activeGenerationId s).
    { subst s1. unfold handleDeleteFromHistory.
      destruct (activeGenerationId s) as [a|] eqn:Ea; [|simpl; exact Ea].
      destruct (Nat.eqb a i) eqn:E; [apply Nat.eqb_eq in E; congruence|simpl; exact Ea]. }
    assert (Hfind : forall a, activeGenerationId s = Some a ->
                findGeneration a (sessionGenerations (effectSyncFeatureKeyRef s1))
                = findGeneration a (sessionGenerations s)).
    { intros a Ea. change (sessionGenerations (effectSyncFeatureKeyRef s1))
        with (sessionGenerations s1). rewrite Hlog1.
      apply findGeneration_filter_other. congruence. }
    assert (Hx : effectDeselect (effectSyncFeatureKeyRef s1) = effectSyncFeatureKeyRef s1).
    { apply (@effectDeselect_stable s); assumption. }
    rewrite Hcommit, Hx. split; [exact Ha1|].
    unfold canvasDisplayUrl.
    change (activeGenerationId (effectSyncFeatureKeyRef s1)) with (activeGenerationId s1).
    change (generationStacks (effectSyncFeatureKeyRef s1)) with (generationStacks s1).
    change (getCurrentFeatureKey (effectSyncFeatureKeyRef s1)) with (getCurrentFeatureKey s1).
    rewrite Ha1, Hk1, Hst1.
    destruct (activeGenerationId s) as [a|] eqn:Ea; [|reflexivity].
    now rewrite (Hfind a eq_refl).
Qed.

(** After a colour generation is done, its record is deleted while it is
    selected: the canvas still shows the image, now from the stack. *)
Lemma delete_from_history_witness :
  let w := worldAfter [ChooseFile ImgProduct 1%nat; FileLoaded 0 "product" 800 600;
                       ClickGenerate; Fulfilled 0 "A"] in
  activeGenerationId (app w) = Some 0%nat
  /\ canvasDisplayUrl (commit (app w) (handleDeleteFromHistory 0 (app w))) = Some "A"
  /\ sessionGenerations (commit (app w) (handleDeleteFromHistory 0 (app w))) = [].
Proof.
  cbv zeta.
  set (w := worldAfter [ChooseFile ImgProduct 1%nat; FileLoaded 0 "product" 800 600;
                        ClickGenerate; Fulfilled 0 "A"]).
  assert (Hr : reachable w).
  { exists false, [ChooseFile ImgProduct 1%nat; FileLoaded 0 "product" 800 600;
                    ClickGenerate; Fulfilled 0 "A"].
    vm_compute. reflexivity. }
  destruct (delete_from_history 0%nat Hr) as (_ & Hl & _ & Hsel & _).
  split; [reflexivity|]. split.
  - rewrite (proj2 (Hsel eq_refl)). reflexivity.
  - rewrite Hl. reflexivity.
Defined.

(** ** The session log and the ref cell in the reachable worlds *)

Lemma newestFirst_filter p gens : newestFirst gens -> newestFirst (filter p gens).
Proof.
  unfold newestFirst. induction 1 as [|g gens Hs IH Hall]; simpl; [constructor|].
  destruct (p g); [|exact IH]. constructor; [exact IH|].
  rewrite Forall_forall in *. intros b Hb. apply filter_In in Hb. now apply Hall.
Qed.

Lemma newestFirst_completed imageUrl generationId gens :
  newestFirst gens -> newestFirst (map (completeRecord imageUrl generationId) gens).
Proof.
  unfold newestFirst. induction 1 as [|g gens Hs IH Hall]; simpl; constructor.
  - exact IH.
  - rewrite Forall_forall in *. intros b Hb. apply in_map_iff in Hb.
    destruct Hb as (b0 & <- & Hb0). rewrite !completeRecord_id. now apply Hall.
Qed.

Lemma historyStep_newestFirst s s' :
  historyStep s s' -> logInv s ->
  newestFirst (sessionGenerations s) -> newestFirst (sessionGenerations s').
Proof.
  intros H [HF _] Hs.
  destruct H as [(E1 & E2 & E3)|E1 E2 E3|k snap Hk E1 E2 E3
                |k img j E1 E2 E3|p E1 E2 E3|k E1 E2 E3|k E1 E2 E3];
    rewrite E2; try assumption.
  - constructor.
  - constructor; [exact Hs|]. revert HF. apply Forall_impl.
    intros g (Hlt & _). exact Hlt.
  - now apply newestFirst_completed.
  - now apply newestFirst_filter.
Qed.

Lemma run_newestFirst evs :
  forall w w', Inv (app w) -> newestFirst (sessionGenerations (app w)) ->
               run evs w = Some w' -> newestFirst (sessionGenerations (app w')).
Proof.
  induction evs as [|e evs IH]; simpl; intros w w' Hi Hs H.
  - now injection H as <-.
  - destruct (step e w) as [w1|] eqn:Hstep; [|discriminate].
    apply (IH w1 w'); [eapply step_inv; eauto| |exact H].
    eapply historyStep_newestFirst; [eapply step_history; eauto| |exact Hs].
    apply Hi.
Qed.

(** X3.  In every reachable world the session log is well formed: the ids
    of its records are pairwise distinct, all below the id counter and
    decreasing along the list (newest first); every record carries the
    feature key its own snapshot resolves to; and a record is done exactly
    when it has an image. *)
Theorem session_log_well_formed :
  forall w,
    reachable w ->
    let gens := sessionGenerations (app w) in
    NoDup (map gen_id gens)
    /\ newestFirst gens
    /\ forall g, In g gens ->
         (gen_id g < generationIdCounter (app w))%nat
         /\ gen_featureKey g = snapshotFeatureKey (gen_snapshot g)
         /\ (gen_status g = StDone <-> exists img, gen_src g = Some img).
Proof.
  intros w Hw gens. subst gens.
  destruct (reachable_inv Hw) as (_ & (HF & HN) & _).
  split; [exact HN|]. split.
  - destruct Hw as (isMobile & evs & Hrun).
    eapply run_newestFirst; [| |exact Hrun].
    + apply initialState_inv.
    + constructor.
  - intros g Hg. rewrite Forall_forall in HF. destruct (HF g Hg) as (H1 & H2 & H3).
    split; [exact H1|]. split; [exact H2|].
    destruct (gen_status g); split; intros H.
    + discriminate.
    + destruct H as [img Hi]. congruence.
    + exact H3.
    + reflexivity.
Qed.

(** After one success and one failed second request the log holds the
    first record only. *)
Lemma session_log_well_formed_witness :
  NoDup (map gen_id (sessionGenerations (app (worldAfter traceFailedSecond))))
  /\ newestFirst (sessionGenerations (app (worldAfter traceFailedSecond))).
Proof.
  assert (Hr : reachable (worldAfter traceFailedSecond))
    by (exists false, traceFailedSecond; vm_compute; reflexivity).
  destruct (session_log_well_formed Hr) as (H1 & H2 & _). split; assumption.
Defined.

(** X4.  In every reachable world the ref cell read by the completion
    handlers holds the feature key of the committed controls, and on the
    settings tab a selected record that is listed belongs to the active
    feature. *)
Theorem ref_and_selection_follow_feature :
  forall w,
    reachable w ->
    currentFeatureKeyRef (app w) = getCurrentFeatureKey (app w)
    /\ forall a g,
        activeTab (app w) = TabSettings ->
        activeGenerationId (app w) = Some a ->
        findGeneration a (sessionGenerations (app w)) = Some g ->
        gen_featureKey g = getCurrentFeatureKey (app w).
Proof.
  intros w Hw. destruct (reachable_inv Hw) as (_ & _ & Hset).
  split; [apply Hset|]. intros a g Ht Ha Hf. exact (settled_selection Hset Ht Ha Hf).
Qed.

(** After a colour result was produced and the scene sub-mode entered, the
    ref cell holds the scene key. *)
Lemma ref_and_selection_follow_feature_witness :
  currentFeatureKeyRef (app (worldAfter traceDoneThenScene)) = BackgroundScene.
Proof.
  assert (Hr : reachable (worldAfter traceDoneThenScene))
    by (exists false, traceDoneThenScene; vm_compute; reflexivity).
  rewrite (proj1 (ref_and_selection_follow_feature Hr)). reflexivity.
Defined.

(** ** Submitting a generation *)

Lemma clearCurrentError_isLoading r s slot :
  isLoading (slotStatus slot (clearCurrentError r s)) = isLoading (slotStatus slot s).
Proof.
  unfold clearCurrentError, slotStatus.
  destruct slot as [k|m]; destruct (mode r); simpl; try reflexivity.
  - destruct (effectiveSubMode r), k; reflexivity.
  - destruct (modelSource r), m; reflexivity.
Qed.

(** The effects never touch a loading phase. *)
Lemma commit_isLoading r s slot :
  isLoading (slotStatus slot (commit r s)) = isLoading (slotStatus slot s).
Proof.
  unfold commit.
  set (s2 := if featureDepsChanged r s then _ else _).
  assert (H2 : isLoading (slotStatus slot s2) = isLoading (slotStatus slot s)).
  { subst s2. destruct (featureDepsChanged r s).
    - rewrite clearCurrentError_isLoading. destruct slot; reflexivity.
    - destruct slot; reflexivity. }
  rewrite <- H2. destruct (effectDeselect_statuses s2) as [Hb Ha].
  unfold slotStatus. destruct slot; [now rewrite Hb|now rewrite Ha].
Qed.

Lemma currentStatus_slot s : currentStatus s = slotStatus (currentSlot s) s.
Proof. unfold currentStatus, currentSlot, slotStatus. destruct (mode s); reflexivity. Qed.

Lemma commit_currentSlot r s : currentSlot (commit r s) = currentSlot s.
Proof.
  unfold commit, effectDeselect, clearCurrentError, effectSyncFeatureKeyRef.
  repeat break_match; reflexivity.
Qed.

Lemma canGenerate_loading s :
  truthyStep (isLoading (currentStatus s)) = true -> canGenerate s = false.
Proof. unfold canGenerate. now intros ->. Qed.

(** X5.  When Generate is enabled, a click submits exactly one job: one
    loading record with a fresh id, the feature key of the current controls
    and their snapshot is put in front of the log and selected, the id
    counter advances, the status of the active feature becomes loading with
    no error, no stack changes, and one task for that id, feature and
    status slot becomes pending.  Generate is then disabled, also after the
    effects of the following render, so a second click is refused. *)
Theorem generate_click_submits :
  forall s,
    canGenerate s = true ->
    exists s' t,
      handleGenerateClick s = (s', [t])
      /\ sessionGenerations s'
         = loadingRecord (generationIdCounter s) (getCurrentFeatureKey s) (takeSnapshot s)
             :: sessionGenerations s
      /\ generationIdCounter s' = S (generationIdCounter s)
      /\ activeGenerationId s' = Some (generationIdCounter s)
      /\ generationStacks s' = generationStacks s
      /\ generationTaskId t = Some (generationIdCounter s)
      /\ taskFeatureKey t = Some (getCurrentFeatureKey s)
      /\ taskSlot t = Some (currentSlot s)
      /\ currentStatus s' = {| isLoading := Generating; error := None |}
      /\ canGenerate s' = false
      /\ canGenerate (commit s s') = false
      /\ forall w, app w = commit s s' -> step ClickGenerate w = None.
Proof.
  intros s Hcan.
  assert (Hfinal : forall s',
             currentSlot s' = currentSlot s ->
             currentStatus s' = {| isLoading := Generating; error := None |} ->
             canGenerate s' = false
             /\ canGenerate (commit s s') = false
             /\ forall w, app w = commit s s' -> step ClickGenerate w = None).
  { intros s' Hslot Hst.
    assert (Hc : canGenerate (commit s s') = false).
    { apply canGenerate_loading. rewrite currentStatus_slot, commit_currentSlot.
      rewrite commit_isLoading, <- currentStatus_slot, Hst. reflexivity. }
    split; [apply canGenerate_loading; now rewrite Hst|]. split; [exact Hc|].
    intros w Hw. unfold step, userStep. rewrite Hw, Hc, andb_false_r. reflexivity. }
  unfold canGenerate in Hcan. unfold handleGenerateClick.
  destruct (truthyStep (isLoading (currentStatus s))) eqn:Hl; [discriminate|].
  unfold currentStatus in Hl. unfold getCurrentFeatureKey, featureKeyOf, currentSlot.
  destruct (mode s) eqn:Hm.
  - simpl in Hcan. destruct (truthyUrl (url (productImage s))) eqn:Hp; [|discriminate].
    unfold handleBackgroundGenerate. rewrite Hp. simpl negb. cbv iota.
    rewrite Hl. fold (effectiveSubMode s).
    eexists. eexists. split; [reflexivity|].
    repeat (split; [reflexivity|]). split.
    + unfold currentStatus; simpl. rewrite Hm. unfold effectiveSubMode; simpl.
      apply bgGet_bgSet_same.
    + apply Hfinal.
      * unfold currentSlot; simpl. rewrite Hm. reflexivity.
      * unfold currentStatus; simpl. rewrite Hm. unfold effectiveSubMode; simpl.
        apply bgGet_bgSet_same.
  - simpl in Hcan.
    assert (Hp : truthyUrl (url (productImage s)) = true).
    { destruct (modelSource s); destruct (truthyUrl (url (productImage s)));
        simpl in Hcan; try discriminate; reflexivity. }
    unfold handleAiModelGenerate. rewrite Hl, Hp.
    eexists. eexists. split; [reflexivity|].
    repeat (split; [reflexivity|]). split.
    + unfold currentStatus; simpl. rewrite Hm. apply amGet_amSet_same.
    + apply Hfinal.
      * unfold currentSlot; simpl. rewrite Hm. reflexivity.
      * unfold currentStatus; simpl. rewrite Hm. apply amGet_amSet_same.
Qed.

(** The first click after a product upload. *)
Lemma generate_click_submits_witness :
  let s := app (worldAfter [ChooseFile ImgProduct 1%nat; FileLoaded 0 "product" 800 600]) in
  exists s' t,
    handleGenerateClick s = (s', [t])
    /\ activeGenerationId s' = Some 0%nat
    /\ canGenerate s' = false.
Proof.
  cbv zeta.
  set (s := app (worldAfter [ChooseFile ImgProduct 1%nat; FileLoaded 0 "product" 800 600])).
  assert (Hcan : canGenerate s = true) by reflexivity.
  destruct (generate_click_submits s Hcan)
    as (s' & t & H1 & _ & _ & H4 & _ & _ & _ & _ & _ & H10 & _).
  exists s', t. split; [exact H1|]. split; [exact H4|exact H10].
Defined.

(** ** A completion for the active feature *)

Lemma recordNewGeneration_same_feature r isMobile imageUrl generationId featureKey s :
  featureKey = currentFeatureKeyRef s ->
  activeGenerationId (recordNewGeneration r isMobile imageUrl generationId featureKey s)
  = Some generationId.
Proof.
  intros ->. unfold recordNewGeneration. cbn [currentFeatureKeyRef setSessionGenerations].
  replace (FeatureKey_eqb (currentFeatureKeyRef s) (currentFeatureKeyRef s)) with true
    by (symmetry; now apply FeatureKey_eqb_eq).
  destruct (_ || _); reflexivity.
Qed.

Lemma matching_completion_commit s s1 imageUrl i g :
  activeGenerationId s1 = Some i ->
  sessionGenerations s1 = map (completeRecord imageUrl i) (sessionGenerations s) ->
  findGeneration i (sessionGenerations s) = Some g ->
  gen_featureKey g = getCurrentFeatureKey s1 ->
  featureDepsChanged s s1 = false ->
  activeGenerationId (commit s s1) = Some i
  /\ canvasDisplayUrl (commit s s1) = Some imageUrl
  /\ isDone i (commit s s1) = true.
Proof.
  intros Ha Hl Hf Hk Hdeps.
  pose proof (findGeneration_completeRecord_same imageUrl _ _ Hf) as Hf1.
  rewrite <- Hl in Hf1.
  assert (Hc : commit s s1 = effectSyncFeatureKeyRef s1).
  { unfold commit. rewrite Hdeps. unfold effectDeselect.
    change (activeGenerationId (effectSyncFeatureKeyRef s1)) with (activeGenerationId s1).
    change (sessionGenerations (effectSyncFeatureKeyRef s1)) with (sessionGenerations s1).
    change (getCurrentFeatureKey (effectSyncFeatureKeyRef s1)) with (getCurrentFeatureKey s1).
    rewrite Ha, Hf1. cbn [gen_featureKey]. rewrite Hk.
    replace (FeatureKey_eqb (getCurrentFeatureKey s1) (getCurrentFeatureKey s1)) with true
      by (symmetry; now apply FeatureKey_eqb_eq).
    destruct (activeTab _); reflexivity. }
  rewrite Hc. unfold canvasDisplayUrl, isDone.
  change (activeGenerationId (effectSyncFeatureKeyRef s1)) with (activeGenerationId s1).
  change (sessionGenerations (effectSyncFeatureKeyRef s1)) with (sessionGenerations s1).
  rewrite Ha, Hf1. repeat split.
Qed.

(** X6.  In every reachable world, when a generation job whose record is
    still listed completes while its feature is the active one, its record
    becomes the selection, the canvas shows the result, the result is pushed
    on the stack of that feature, the record is done, the job's status slot
    leaves the loading phase and the task is no longer pending. *)
Theorem completion_in_view :
  forall w n t i k slot g imageUrl,
    reachable w ->
    nth_error (pending w) n = Some t ->
    (exists j, t = TBackground j) \/ (exists j, t = TAiModel j AwaitGenerate) ->
    generationTaskId t = Some i ->
    taskFeatureKey t = Some k ->
    taskSlot t = Some slot ->
    k = getCurrentFeatureKey (app w) ->
    findGeneration i (sessionGenerations (app w)) = Some g ->
    exists w',
      step (Fulfilled n imageUrl) w = Some w'
      /\ pending w' = removeNth n (pending w)
      /\ activeGenerationId (app w') = Some i
      /\ canvasDisplayUrl (app w') = Some imageUrl
      /\ isDone i (app w') = true
      /\ getStack k (generationStacks (app w'))
         = pushImage imageUrl (getStack k (generationStacks (app w)))
      /\ isLoading (slotStatus slot (app w')) = NotLoading.
Proof.
  intros w n t i k slot g imageUrl Hw Hn Hkind Hid Hkey Hslot Hk Hf.
  destruct (reachable_worldInv Hw) as [(_ & _ & Hset) Hp].
  rewrite Forall_forall in Hp. pose proof (Hp t (nth_error_In _ _ Hn)) as Hinv.
  unfold taskInv in Hinv. rewrite Hid, Hkey in Hinv. destruct Hinv as [_ Hrec].
  assert (Hgk : gen_featureKey g = k).
  { pose proof Hf as Hf'. unfold findGeneration in Hf'. apply find_some in Hf'.
    destruct Hf' as [Hin Heq]. apply Nat.eqb_eq in Heq. now apply Hrec. }
  assert (Href : k = currentFeatureKeyRef (app w)) by (destruct Hset as [-> _]; exact Hk).
  destruct Hkind as [[j ->]|[j ->]];
    injection Hid as <-; injection Hkey as <-; injection Hslot as <-.
  - set (s1 := handleBackgroundGenerate_resolved j (viewportMobile w) imageUrl (app w)).
    exists {| app := commit (app w) s1; viewportMobile := viewportMobile w;
              pending := removeNth n (pending w) ++ [] |}.
    split; [unfold step; rewrite Hn; reflexivity|]. cbn [app pending].
    split; [apply app_nil_r|].
    destruct (recordNewGeneration_cells (bg_render j) (viewportMobile w) imageUrl
                (bg_newId j) (bg_featureKey j) (app w)) as (Ct & Ck & Cd).
    assert (Ha : activeGenerationId s1 = Some (bg_newId j))
      by (apply (recordNewGeneration_same_feature (bg_render j) (viewportMobile w) imageUrl
                   (bg_newId j) (app w) Href)).
    assert (Hl : sessionGenerations s1
                 = map (completeRecord imageUrl (bg_newId j)) (sessionGenerations (app w))).
    { subst s1. unfold handleBackgroundGenerate_resolved, handleBackgroundGenerate_finally.
      cbn [sessionGenerations setBackgroundStatuses]. apply recordNewGeneration_log. }
    assert (Hk1 : gen_featureKey g = getCurrentFeatureKey s1).
    { rewrite Hgk, Hk. symmetry. exact Ck. }
    destruct (@matching_completion_commit (app w) s1 imageUrl _ _ Ha Hl Hf Hk1 Cd) as (R1 & R2 & R3).
    split; [exact R1|]. split; [exact R2|]. split; [exact R3|]. split.
    + destruct (commit_sameHistory (app w) s1) as (-> & _).
      subst s1. unfold handleBackgroundGenerate_resolved, handleBackgroundGenerate_finally.
      cbn [generationStacks setBackgroundStatuses].
      rewrite recordNewGeneration_stacks. apply getStack_setStack_same.
    + rewrite commit_isLoading. subst s1.
      unfold handleBackgroundGenerate_resolved, handleBackgroundGenerate_finally, slotStatus.
      cbn [backgroundStatuses setBackgroundStatuses]. now rewrite bgGet_bgSet_same.
  - set (s1 := handleAiModelGenerate_resolved j (viewportMobile w) imageUrl (app w)).
    exists {| app := commit (app w) s1; viewportMobile := viewportMobile w;
              pending := removeNth n (pending w) ++ [] |}.
    split; [unfold step; rewrite Hn; reflexivity|]. cbn [app pending].
    split; [apply app_nil_r|].
    destruct (recordNewGeneration_cells (ai_render j) (viewportMobile w) imageUrl
                (ai_newId j) (ai_featureKey j) (app w)) as (Ct & Ck & Cd).
    assert (Ha : activeGenerationId s1 = Some (ai_newId j))
      by (apply (recordNewGeneration_same_feature (ai_render j) (viewportMobile w) imageUrl
                   (ai_newId j) (app w) Href)).
    assert (Hl : sessionGenerations s1
                 = map (completeRecord imageUrl (ai_newId j)) (sessionGenerations (app w))).
    { subst s1. unfold handleAiModelGenerate_resolved, handleAiModelGenerate_finally.
      cbn [sessionGenerations setAiModelStatuses]. apply recordNewGeneration_log. }
    assert (Hk1 : gen_featureKey g = getCurrentFeatureKey s1).
    { rewrite Hgk, Hk. symmetry. exact Ck. }
    destruct (@matching_completion_commit (app w) s1 imageUrl _ _ Ha Hl Hf Hk1 Cd) as (R1 & R2 & R3).
    split; [exact R1|]. split; [exact R2|]. split; [exact R3|]. split.
    + destruct (commit_sameHistory (app w) s1) as (-> & _).
      subst s1. unfold handleAiModelGenerate_resolved, handleAiModelGenerate_finally.
      cbn [generationStacks setAiModelStatuses].
      rewrite recordNewGeneration_stacks. apply getStack_setStack_same.
    + rewrite commit_isLoading. subst s1.
      unfold handleAiModelGenerate_resolved, handleAiModelGenerate_finally, slotStatus.
      cbn [aiModelStatuses setAiModelStatuses]. now rewrite amGet_amSet_same.
Qed.

(** The colour request of [traceSubmitted] completes. *)
Lemma completion_in_view_witness :
  exists w',
    step (Fulfilled 0 "A") (worldAfter traceSubmitted) = Some w'
    /\ canvasDisplayUrl (app w') = Some "A"
    /\ pending w' = [].
Proof.
  assert (Hr : reachable (worldAfter traceSubmitted))
    by (exists false, traceSubmitted; vm_compute; reflexivity).
  destruct (nth_error (pending (worldAfter traceSubmitted)) 0) as [t|] eqn:Ht;
    [|vm_compute in Ht; discriminate].
  destruct (findGeneration 0 (sessionGenerations (app (worldAfter traceSubmitted))))
    as [g|] eqn:Hg; [|vm_compute in Hg; discriminate].
  assert (Ht' : (exists j, t = TBackground j)
                /\ generationTaskId t = Some 0%nat
                /\ taskFeatureKey t = Some BackgroundColor
                /\ taskSlot t = Some (BgSlot SvcColor)).
  { vm_compute in Ht. injection Ht as <-. split; [eexists; reflexivity|].
    repeat split. }
  destruct Ht' as (Hk & Hid & Hkey & Hslot).
  destruct (@completion_in_view (worldAfter traceSubmitted) 0%nat t 0%nat BackgroundColor
              (BgSlot SvcColor) g "A" Hr Ht (or_introl Hk) Hid Hkey Hslot eq_refl Hg)
    as (w' & H1 & H2 & _ & H4 & _).
  exists w'. split; [exact H1|]. split; [exact H4|]. rewrite H2. reflexivity.
Defined.

(** ** Start over *)

(** X7.  Start over, with the effects of the following render, brings
    every cell back to its initial value except the upload key, which is
    incremented, and the id counter, which is kept; it is always enabled and
    leaves the pending continuations pending. *)
Theorem start_over_resets :
  (forall s,
      commit s (handleStartOver s)
      = setUploadKey (val (uploadKey s + 1)%nat)
          (setGenerationIdCounter (val (generationIdCounter s)) initialState))
  /\ (forall w,
      exists w',
        step ClickStartOver w = Some w'
        /\ pending w' = pending w
        /\ app w' = commit (app w) (handleStartOver (app w))).
Proof.
  split.
  - intros s. unfold commit.
    destruct (featureDepsChanged s (handleStartOver s)); reflexivity.
  - intros w. eexists. unfold step, userStep. split; [reflexivity|].
    split; [apply app_nil_r|reflexivity].
Qed.

(** ** A completion whose record is no longer listed *)

Lemma map_completeRecord_absent imageUrl generationId gens :
  findGeneration generationId gens = None ->
  map (completeRecord imageUrl generationId) gens = gens.
Proof.
  intros H. rewrite findGeneration_none in H.
  rewrite <- (map_id gens) at 2. apply map_ext_in. intros g Hg.
  unfold completeRecord.
  replace (Nat.eqb (gen_id g) generationId) with false
    by (symmetry; apply Nat.eqb_neq; now apply H).
  reflexivity.
Qed.

(** X8.  [recordNewGeneration] does not look whether the job's record is
    still listed.  When it is not (after a start over, a product upload or a
    deletion), the log is left as it is, the result is still pushed on the
    stack of the job's feature, and if that feature is the one held by the
    ref cell the unlisted id becomes the selection, so that the canvas
    resolves to no image although the stack now shows the result; the
    render that follows keeps this. *)
Theorem completion_without_record :
  forall r isMobile imageUrl generationId featureKey s,
    findGeneration generationId (sessionGenerations s) = None ->
    let s' := recordNewGeneration r isMobile imageUrl generationId featureKey s in
    sessionGenerations s' = sessionGenerations s
    /\ getStack featureKey (generationStacks s')
       = pushImage imageUrl (getStack featureKey (generationStacks s))
    /\ (featureKey = currentFeatureKeyRef s ->
        currentFeatureKeyRef s = getCurrentFeatureKey s ->
        activeGenerationId s' = Some generationId
        /\ canvasDisplayUrl s' = None
        /\ stackCurrentImage s' = Some imageUrl
        /\ activeGenerationId (commit s s') = Some generationId
        /\ canvasDisplayUrl (commit s s') = None).
Proof.
  intros r isMobile imageUrl generationId featureKey s Hf s'.
  assert (Hlog : sessionGenerations s' = sessionGenerations s).
  { subst s'. rewrite recordNewGeneration_log. now apply map_completeRecord_absent. }
  assert (Hst : getStack featureKey (generationStacks s')
                = pushImage imageUrl (getStack featureKey (generationStacks s))).
  { subst s'. rewrite recordNewGeneration_stacks. apply getStack_setStack_same. }
  split; [exact Hlog|]. split; [exact Hst|].
  intros Hk Href.
  assert (Ha : activeGenerationId s' = Some generationId)
    by (subst s'; now apply recordNewGeneration_same_feature).
  assert (Hf' : findGeneration generationId (sessionGenerations s') = None)
    by now rewrite Hlog.
  destruct (recordNewGeneration_cells r isMobile imageUrl generationId featureKey s)
    as (_ & Ck & _). fold s' in Ck.
  split; [exact Ha|]. split; [unfold canvasDisplayUrl; now rewrite Ha, Hf'|]. split.
  - unfold stackCurrentImage, currentStack. rewrite Ck, <- Href, <- Hk, Hst.
    unfold pushImage; cbn [images currentIndex]. rewrite length_app; cbn [List.length].
    unfold jsIndex.
    replace (0 <=? Z.of_nat (List.length (sliceTo (images (getStack featureKey
               (generationStacks s))) (currentIndex (getStack featureKey
               (generationStacks s)) + 1)) + 1) - 1) with true
      by (symmetry; apply Z.leb_le; lia).
    replace (Z.to_nat (Z.of_nat (List.length (sliceTo (images (getStack featureKey
               (generationStacks s))) (currentIndex (getStack featureKey
               (generationStacks s)) + 1)) + 1) - 1))
      with (List.length (sliceTo (images (getStack featureKey (generationStacks s)))
              (currentIndex (getStack featureKey (generationStacks s)) + 1)) + 0)%nat
      by lia.
    rewrite nth_error_app2 by lia.
    replace (_ + 0 - _)%nat with 0%nat by lia. reflexivity.
  - pose proof (commit_activeGenerationId_unlisted s s' Ha Hf') as Hc.
    split; [exact Hc|]. unfold canvasDisplayUrl. rewrite Hc.
    destruct (commit_sameHistory s s') as (_ & -> & _). now rewrite Hf'.
Qed.

(** A colour request is in flight when everything is started over; its
    late completion puts [D] on the colour stack of the fresh session and
    selects a record that does not exist. *)
Lemma completion_without_record_witness :
  let w := worldAfter traceStartOverInFlight in
  let s' := recordNewGeneration (app w) false "D" 0%nat BackgroundColor (app w) in
  sessionGenerations s' = []
  /\ getStack BackgroundColor (generationStacks s')
     = {| images := ["D"]; currentIndex := 0 |}
  /\ activeGenerationId (commit (app w) s') = Some 0%nat
  /\ canvasDisplayUrl (commit (app w) s') = None
  /\ option_map (fun w' => (sessionGenerations (app w'), activeGenerationId (app w'),
                            canvasDisplayUrl (app w'), stackCurrentImage (app w')))
       (step (Fulfilled 0 "D") w)
     = Some ([], Some 0%nat, None, Some "D").
Proof.
  cbv zeta.
  destruct (@completion_without_record (app (worldAfter traceStartOverInFlight)) false "D"
              0%nat BackgroundColor (app (worldAfter traceStartOverInFlight)) eq_refl)
    as (H1 & H2 & H3).
  destruct (H3 eq_refl eq_refl) as (_ & _ & _ & H4 & H5).
  split; [rewrite H1; reflexivity|]. split; [rewrite H2; reflexivity|].
  split; [exact H4|]. split; [exact H5|]. vm_compute. reflexivity.
Defined.

(** ** Switching between features *)

Lemma bgGet_bgSet_other k k' v st : k <> k' -> bgGet k (bgSet k' v st) = bgGet k st.
Proof. destruct k, k'; intros H; try reflexivity; now destruct H. Qed.

Lemma amGet_amSet_other m m' v st : m <> m' -> amGet m (amSet m' v st) = amGet m st.
Proof. destruct m, m'; intros H; try reflexivity; now destruct H. Qed.

Lemma clearCurrentError_other r s slot :
  slot <> currentSlot r -> slotStatus slot (clearCurrentError r s) = slotStatus slot s.
Proof.
  unfold clearCurrentError, currentSlot, slotStatus.
  destruct (mode r), slot as [k|m]; intros H; cbn; try reflexivity.
  - apply bgGet_bgSet_other. congruence.
  - apply amGet_amSet_other. congruence.
Qed.

Lemma clearCurrentError_current r s :
  error (slotStatus (currentSlot r) (clearCurrentError r s)) = None.
Proof.
  unfold clearCurrentError, currentSlot, slotStatus.
  destruct (mode r); cbn; [rewrite bgGet_bgSet_same|rewrite amGet_amSet_same]; reflexivity.
Qed.

Lemma effectDeselect_slot s slot : slotStatus slot (effectDeselect s) = slotStatus slot s.
Proof.
  destruct (effectDeselect_statuses s) as [Hb Ha].
  unfold slotStatus. destruct slot; [now rewrite Hb|now rewrite Ha].
Qed.

Lemma effectDeselect_currentSlot s : currentSlot (effectDeselect s) = currentSlot s.
Proof. unfold effectDeselect. repeat break_match; reflexivity. Qed.

Lemma commit_slot_other r s slot :
  slot <> currentSlot s -> slotStatus slot (commit r s) = slotStatus slot s.
Proof.
  intros H. unfold commit. rewrite effectDeselect_slot.
  destruct (featureDepsChanged r s).
  - rewrite clearCurrentError_other by exact H. destruct slot; reflexivity.
  - destruct slot; reflexivity.
Qed.

Lemma commit_slot_unchanged r s slot :
  featureDepsChanged r s = false -> slotStatus slot (commit r s) = slotStatus slot s.
Proof.
  intros H. destruct (commit_statuses r s H) as [Hb Ha].
  unfold slotStatus. destruct slot; [now rewrite Hb|now rewrite Ha].
Qed.

Lemma commit_error_cleared r s :
  featureDepsChanged r s = true -> error (currentStatus (commit r s)) = None.
Proof.
  intros H. rewrite currentStatus_slot, commit_currentSlot.
  unfold commit. rewrite effectDeselect_slot, H.
  apply clearCurrentError_current.
Qed.

Lemma featureKey_changed_deps r s :
  getCurrentFeatureKey s <> getCurrentFeatureKey r -> featureDepsChanged r s = true.
Proof.
  intros H. destruct (featureDepsChanged r s) eqn:E; [reflexivity|].
  exfalso. apply H. unfold featureDepsChanged in E.
  apply negb_false_iff in E. rewrite !andb_true_iff in E.
  destruct E as [[[Em Eb] Es] Ec].
  unfold getCurrentFeatureKey.
  destruct (mode r), (mode s); try discriminate;
    destruct (backgroundSubMode r), (backgroundSubMode s); try discriminate;
    destruct (modelSource r), (modelSource s); try discriminate;
    apply String.eqb_eq in Ec; rewrite Ec; reflexivity.
Qed.

(** X9.  Switching the mode, the background sub-mode, the model source or
    the background colour never touches a job: the pending tasks, the
    stacks, the log and the loading phase of every status slot stay as they
    are.  The only status change is that the error of the feature switched
    to is cleared, which happens whenever the feature key changes. *)
Theorem feature_switch_keeps_jobs :
  forall e w w',
    isFeatureSwitch e = true ->
    step e w = Some w' ->
    pending w' = pending w
    /\ sameHistory (app w) (app w')
    /\ (forall slot,
          isLoading (slotStatus slot (app w')) = isLoading (slotStatus slot (app w)))
    /\ (forall slot,
          slot <> currentSlot (app w') ->
          slotStatus slot (app w') = slotStatus slot (app w))
    /\ (getCurrentFeatureKey (app w') <> getCurrentFeatureKey (app w) ->
        error (currentStatus (app w')) = None).
Proof.
  intros e w w' He Hstep.
  assert (H : exists s1,
             app w' = commit (app w) s1 /\ pending w' = pending w
             /\ sameHistory (app w) s1
             /\ backgroundStatuses s1 = backgroundStatuses (app w)
             /\ aiModelStatuses s1 = aiModelStatuses (app w)).
  { destruct e; try discriminate He; unfold step, userStep in Hstep; cbn [fst snd] in Hstep;
      match type of Hstep with
      | (if ?b then _ else _) = _ => destruct b; [|discriminate]
      end;
      injection Hstep as <-; cbn [app pending]; eexists;
      (split; [reflexivity|]); (split; [apply app_nil_r|]).
    - unfold handleSetMode. destruct (negb _); repeat split; reflexivity.
    - unfold handleSetBackgroundSubMode. destruct (negb _); repeat split; reflexivity.
    - unfold handleSetModelSource. destruct (negb _); repeat split; reflexivity.
    - repeat split; reflexivity. }
  destruct H as (s1 & Ea & Ep & Hh & Hb & Hm).
  assert (Hs : forall slot, slotStatus slot s1 = slotStatus slot (app w)).
  { intros slot. unfold slotStatus. destruct slot; [now rewrite Hb|now rewrite Hm]. }
  split; [exact Ep|]. rewrite Ea. split.
  - destruct Hh as (H1 & H2 & H3). destruct (commit_sameHistory (app w) s1) as (C1 & C2 & C3).
    repeat split; congruence.
  - split; [|split].
    + intros slot. now rewrite commit_isLoading, Hs.
    + intros slot Hne. rewrite commit_currentSlot in Hne.
      now rewrite commit_slot_other, Hs.
    + intros Hk. rewrite commit_featureKey in Hk.
      apply commit_error_cleared. now apply featureKey_changed_deps.
Qed.

(** A scene request has failed; switching to the colour tab and back
    clears the scene error. *)
Lemma feature_switch_keeps_jobs_witness :
  let w := worldAfter [ChooseFile ImgProduct 1%nat; FileLoaded 0 "product" 800 600;
                       ClickSetBackgroundSubMode SubScene; ClickGenerate;
                       Rejected 0 (ErrorObject "quota"); ClickSetBackgroundSubMode SubColor] in
  error (bg_scene (backgroundStatuses (app w))) = Some "quota"
  /\ exists w', step (ClickSetBackgroundSubMode SubScene) w = Some w'
                /\ pending w' = pending w
                /\ error (currentStatus (app w')) = None.
Proof.
  cbv zeta.
  set (w := worldAfter _).
  split; [reflexivity|].
  assert (Hk : option_map (fun w' => getCurrentFeatureKey (app w'))
                 (step (ClickSetBackgroundSubMode SubScene) w) = Some BackgroundScene)
    by (vm_compute; reflexivity).
  assert (Hk0 : getCurrentFeatureKey (app w) = BackgroundColor) by (vm_compute; reflexivity).
  destruct (step (ClickSetBackgroundSubMode SubScene) w) as [w'|] eqn:Hs;
    [|discriminate Hk].
  destruct (@feature_switch_keeps_jobs (ClickSetBackgroundSubMode SubScene) w w'
              eq_refl Hs) as (H1 & _ & _ & _ & H5).
  exists w'. split; [reflexivity|]. split; [exact H1|].
  apply H5. cbn [option_map] in Hk. rewrite Hk0. congruence.
Defined.

(** ** Prompt suggestions *)

Lemma removeNth_other (t t0 : Task) n l :
  In t l -> nth_error l n = Some t0 -> t <> t0 -> In t (removeNth n l).
Proof.
  unfold removeNth. revert n. induction l as [|a l IH]; intros n Hin Hn Hne.
  - destruct Hin.
  - destruct n as [|n]; simpl in *.
    + injection Hn as ->. destruct Hin as [->|Hin]; [now destruct Hne|exact Hin].
    + destruct Hin as [->|Hin]; [now left|right]. now apply IH.
Qed.

Lemma commit_prompt_cells r s :
  prompts (commit r s) = prompts s
  /\ isScenePromptLoading (commit r s) = isScenePromptLoading s
  /\ isAiModelPromptLoading (commit r s) = isAiModelPromptLoading s.
Proof.
  unfold commit, effectDeselect, clearCurrentError, prompts.
  destruct (featureDepsChanged r s); cbn; repeat break_match; repeat split; reflexivity.
Qed.

Lemma plGet_plSet_same k v st : plGet k (plSet k v st) = v.
Proof. destruct k; reflexivity. Qed.

(** X10.  When a prompt suggestion arrives it is written to the prompt of
    the feature the request was started from, whatever feature is shown by
    then; the other two prompts, every status slot, the stacks and the log
    are unchanged, the loading flag of that prompt is lowered and the task
    is no longer pending. *)
Theorem prompt_suggestion_routed :
  forall w n r suggestion,
    nth_error (pending w) n = Some (TPromptGen r) ->
    exists w',
      step (Fulfilled n suggestion) w = Some w'
      /\ pending w' = removeNth n (pending w)
      /\ promptText r (app w') = suggestion
      /\ prompts (app w')
         = (let '(scene, ai, custom) := prompts (app w) in
            match mode r, modelSource r with
            | ModeBackground, _ => (suggestion, ai, custom)
            | ModeAiModel, SrcAi => (scene, suggestion, custom)
            | ModeAiModel, SrcCustom => (scene, ai, suggestion)
            end)
      /\ promptLoading r (app w') = false
      /\ (forall slot, slotStatus slot (app w') = slotStatus slot (app w))
      /\ sameHistory (app w) (app w').
Proof.
  intros w n r suggestion Hn.
  eexists. split; [unfold step; rewrite Hn; reflexivity|].
  cbn [app pending fst snd].
  set (s1 := handlePromptGen_resolved r suggestion (app w)).
  destruct (commit_prompt_cells (app w) s1) as (Cp & Cs & Ca).
  assert (Hd : featureDepsChanged (app w) s1 = false).
  { apply featureDepsChanged_same; subst s1;
      unfold handlePromptGen_resolved, handlePromptGen_finally;
      destruct (mode r), (modelSource r); reflexivity. }
  split; [apply app_nil_r|].
  assert (Hp : prompts (commit (app w) s1)
               = (let '(scene, ai, custom) := prompts (app w) in
                  match mode r, modelSource r with
                  | ModeBackground, _ => (suggestion, ai, custom)
                  | ModeAiModel, SrcAi => (scene, suggestion, custom)
                  | ModeAiModel, SrcCustom => (scene, ai, suggestion)
                  end)).
  { rewrite Cp. subst s1. unfold handlePromptGen_resolved, handlePromptGen_finally, prompts.
    destruct (mode r), (modelSource r); reflexivity. }
  split; [|split; [exact Hp|split; [|split]]].
  - unfold promptText. unfold prompts in Hp.
    destruct (mode r), (modelSource r); injection Hp as H1 H2 H3; assumption.
  - unfold promptLoading. rewrite Cs, Ca. subst s1.
    unfold handlePromptGen_resolved, handlePromptGen_finally.
    destruct (mode r), (modelSource r); cbn; try reflexivity; apply plGet_plSet_same.
  - intros slot. rewrite commit_slot_unchanged by exact Hd. subst s1.
    unfold handlePromptGen_resolved, handlePromptGen_finally, slotStatus.
    destruct slot, (mode r), (modelSource r); reflexivity.
  - destruct (commit_sameHistory (app w) s1) as (C1 & C2 & C3).
    assert (Hh : sameHistory (app w) s1).
    { subst s1. unfold handlePromptGen_resolved, handlePromptGen_finally.
      destruct (mode r), (modelSource r); repeat split; reflexivity. }
    destruct Hh as (H1 & H2 & H3). repeat split; congruence.
Qed.

(** A suggestion for the ai-generated model is requested, the user then
    goes back to background mode, and the suggestion arrives: it is stored
    as the ai prompt and the scene prompt is untouched. *)
Lemma prompt_suggestion_routed_witness :
  let w := worldAfter [ChooseFile ImgProduct 1%nat; FileLoaded 0 "product" 800 600;
                       ClickSetMode ModeAiModel; ClickPromptGen;
                       ClickSetMode ModeBackground] in
  exists w',
    step (Fulfilled 0 "a model on a beach") w = Some w'
    /\ mode (app w') = ModeBackground
    /\ aiGeneratedPrompt (app w') = "a model on a beach"
    /\ scenePrompt (app w') = scenePrompt (app w).
Proof.
  cbv zeta. set (w := worldAfter _).
  destruct (nth_error (pending w) 0) as [t|] eqn:Ht; [|vm_compute in Ht; discriminate].
  destruct t as [r0 f it|it u|r|j|j ph]; try (vm_compute in Ht; discriminate).
  assert (Hr : mode r = ModeAiModel /\ modelSource r = SrcAi)
    by (vm_compute in Ht; injection Ht as <-; split; reflexivity).
  destruct Hr as [Hm Hs].
  destruct (@prompt_suggestion_routed w 0%nat r "a model on a beach" Ht)
    as (w' & H1 & _ & H3 & H4 & _ & _ & _).
  exists w'. split; [exact H1|].
  assert (Hmode : option_map (fun w' => mode (app w')) (step (Fulfilled 0 "a model on a beach") w)
                  = Some ModeBackground) by (vm_compute; reflexivity).
  rewrite H1 in Hmode. cbn [option_map] in Hmode. split; [congruence|].
  unfold promptText in H3. rewrite Hm, Hs in H3, H4. split; [exact H3|].
  unfold prompts in H4. congruence.
Defined.

(** X11.  When a prompt suggestion fails, the status slot of the feature
    it was requested from is overwritten with the idle phase and the error
    message, whatever phase it was in; no other slot changes, the prompts,
    the stacks and the log are unchanged, and every other pending task, in
    particular a generation job that reports to the same slot, stays
    pending. *)
Theorem prompt_failure_ends_loading :
  forall w n r err,
    nth_error (pending w) n = Some (TPromptGen r) ->
    exists w',
      step (Rejected n err) w = Some w'
      /\ pending w' = removeNth n (pending w)
      /\ slotStatus (promptSlot r) (app w')
         = {| isLoading := NotLoading;
              error := Some (errorMessageOr "Failed to generate prompt." err) |}
      /\ (forall slot, slot <> promptSlot r ->
                       slotStatus slot (app w') = slotStatus slot (app w))
      /\ (forall t, In t (pending w) -> taskSlot t = Some (promptSlot r) ->
                    In t (pending w'))
      /\ promptLoading r (app w') = false
      /\ prompts (app w') = prompts (app w)
      /\ sameHistory (app w) (app w').
Proof.
  intros w n r err Hn.
  eexists. split; [unfold step; rewrite Hn; reflexivity|].
  cbn [app pending fst snd]. rewrite app_nil_r.
  set (s1 := handlePromptGen_rejected r err (app w)).
  destruct (commit_prompt_cells (app w) s1) as (Cp & Cs & Ca).
  assert (Hd : featureDepsChanged (app w) s1 = false).
  { apply featureDepsChanged_same; subst s1;
      unfold handlePromptGen_rejected, handlePromptGen_finally;
      destruct (mode r); reflexivity. }
  split; [reflexivity|]. split; [|split; [|split; [|split; [|split]]]].
  - rewrite commit_slot_unchanged by exact Hd. subst s1.
    unfold handlePromptGen_rejected, handlePromptGen_finally, promptSlot, slotStatus.
    destruct (mode r); [reflexivity|destruct (modelSource r); reflexivity].
  - intros slot Hne. rewrite commit_slot_unchanged by exact Hd. subst s1.
    unfold handlePromptGen_rejected, handlePromptGen_finally, promptSlot, slotStatus in *.
    destruct (mode r), slot as [k|m]; try reflexivity.
    + assert (Hk : k <> SvcScene) by congruence.
      exact (@bgGet_bgSet_other k SvcScene _ (backgroundStatuses (app w)) Hk).
    + assert (Hm : m <> modelSource r) by congruence.
      exact (@amGet_amSet_other m (modelSource r) _ (aiModelStatuses (app w)) Hm).
  - intros t Hin Hslot. apply removeNth_other with (t0 := TPromptGen r); try assumption.
    intros ->. discriminate Hslot.
  - unfold promptLoading. rewrite Cs, Ca. subst s1.
    unfold handlePromptGen_rejected, handlePromptGen_finally.
    destruct (mode r); cbn; try reflexivity; apply plGet_plSet_same.
  - rewrite Cp. subst s1. unfold handlePromptGen_rejected, handlePromptGen_finally, prompts.
    destruct (mode r); reflexivity.
  - destruct (commit_sameHistory (app w) s1) as (C1 & C2 & C3).
    assert (Hh : sameHistory (app w) s1).
    { subst s1. unfold handlePromptGen_rejected, handlePromptGen_finally.
      destruct (mode r); repeat split; reflexivity. }
    destruct Hh as (H1 & H2 & H3). repeat split; congruence.
Qed.

(** A scene suggestion is pending when a scene generation is started; the
    suggestion fails: the scene slot leaves its generating phase although
    the generation job is still pending, and Generate is enabled again. *)
Lemma prompt_failure_ends_loading_witness :
  let w := worldAfter [ChooseFile ImgProduct 1%nat; FileLoaded 0 "product" 800 600;
                       ClickSetBackgroundSubMode SubScene; ClickPromptGen; ClickGenerate] in
  isLoading (slotStatus (BgSlot SvcScene) (app w)) = Generating
  /\ exists w' t,
      step (Rejected 0 (ErrorObject "Failed to generate prompt suggestion.")) w = Some w'
      /\ isLoading (slotStatus (BgSlot SvcScene) (app w')) = NotLoading
      /\ In t (pending w') /\ taskSlot t = Some (BgSlot SvcScene)
      /\ canGenerate (app w') = true.
Proof.
  cbv zeta. set (w := worldAfter _).
  split; [reflexivity|].
  destruct (nth_error (pending w) 0) as [t|] eqn:Ht; [|vm_compute in Ht; discriminate].
  destruct t as [r0 f it|it u|r|j|j ph]; try (vm_compute in Ht; discriminate).
  assert (Hr : promptSlot r = BgSlot SvcScene)
    by (vm_compute in Ht; injection Ht as <-; reflexivity).
  destruct (nth_error (pending w) 1) as [t|] eqn:Ht1; [|vm_compute in Ht1; discriminate].
  assert (Hs : taskSlot t = Some (BgSlot SvcScene))
    by (vm_compute in Ht1; injection Ht1 as <-; reflexivity).
  destruct (@prompt_failure_ends_loading w 0%nat r
              (ErrorObject "Failed to generate prompt suggestion.") Ht)
    as (w' & H1 & _ & H3 & _ & H5 & _).
  rewrite Hr in H3, H5.
  exists w', t. split; [exact H1|]. split; [now rewrite H3|].
  split; [apply H5; [exact (nth_error_In _ _ Ht1)|exact Hs]|]. split; [exact Hs|].
  assert (Hc : option_map (fun w' => canGenerate (app w'))
                 (step (Rejected 0 (ErrorObject "Failed to generate prompt suggestion.")) w)
               = Some true) by (vm_compute; reflexivity).
  rewrite H1 in Hc. cbn [option_map] in Hc. congruence.
Defined.

(** ** Loading phases and pending jobs *)

Lemma StatusSlot_dec (a b : StatusSlot) : a = b \/ a <> b.
Proof.
  destruct a as [[]|[]], b as [[]|[]];
    first [left; reflexivity | right; discriminate].
Qed.

Lemma statuses_same_slot s s1 :
  backgroundStatuses s1 = backgroundStatuses s ->
  aiModelStatuses s1 = aiModelStatuses s ->
  forall slot, slotStatus slot s1 = slotStatus slot s.
Proof. intros Hb Ha slot. unfold slotStatus. destruct slot; congruence. Qed.

Lemma loadingHasJob_user w s1 ts v :
  loadingHasJob w ->
  (forall slot,
      truthyStep (isLoading (slotStatus slot s1)) = true ->
      truthyStep (isLoading (slotStatus slot (app w))) = true
      \/ exists t, In t ts /\ taskSlot t = Some slot) ->
  loadingHasJob {| app := commit (app w) s1; viewportMobile := v;
                   pending := pending w ++ ts |}.
Proof.
  intros HJ H slot Hl. cbn [app pending] in *. rewrite commit_isLoading in Hl.
  destruct (H slot Hl) as [Hold|(t & Hin & Ht)].
  - destruct (HJ slot Hold) as (t & Hin & Ht). exists t. split; [|exact Ht].
    apply in_or_app. now left.
  - exists t. split; [|exact Ht]. apply in_or_app. now right.
Qed.

Lemma loadingHasJob_resume w n t0 s1 ts v :
  loadingHasJob w ->
  nth_error (pending w) n = Some t0 ->
  (forall slot,
      truthyStep (isLoading (slotStatus slot s1)) = true ->
      (truthyStep (isLoading (slotStatus slot (app w))) = true /\ taskSlot t0 <> Some slot)
      \/ exists t, In t ts /\ taskSlot t = Some slot) ->
  loadingHasJob {| app := commit (app w) s1; viewportMobile := v;
                   pending := removeNth n (pending w) ++ ts |}.
Proof.
  intros HJ Hn H slot Hl. cbn [app pending] in *. rewrite commit_isLoading in Hl.
  destruct (H slot Hl) as [[Hold Hne]|(t & Hin & Ht)].
  - destruct (HJ slot Hold) as (t & Hin & Ht). exists t. split; [|exact Ht].
    apply in_or_app. left. apply removeNth_other with (t0 := t0); try assumption.
    intros ->. now apply Hne.
  - exists t. split; [|exact Ht]. apply in_or_app. now right.
Qed.

Lemma recordNewGeneration_slot r isMobile imageUrl generationId featureKey s slot :
  slotStatus slot (recordNewGeneration r isMobile imageUrl generationId featureKey s)
  = slotStatus slot s.
Proof.
  apply statuses_same_slot; unfold recordNewGeneration;
    destruct (FeatureKey_eqb _ _); destruct (_ || _); reflexivity.
Qed.

Lemma handlePromptGen_isLoading s slot :
  isLoading (slotStatus slot (fst (handlePromptGen s))) = isLoading (slotStatus slot s).
Proof.
  unfold handlePromptGen.
  destruct (mode s).
  - destruct (_ || _); cbn [fst]; destruct slot as [[]|m]; reflexivity.
  - repeat (match goal with |- context [if ?b then _ else _] => destruct b end;
            [destruct slot; reflexivity|]).
    cbn [fst]. destruct slot as [k|m]; [reflexivity|].
    destruct m, (modelSource s); reflexivity.
Qed.

Lemma handleBackgroundGenerate_loading s slot :
  truthyStep (isLoading (slotStatus slot (fst (handleBackgroundGenerate s)))) = true ->
  truthyStep (isLoading (slotStatus slot s)) = true
  \/ exists j, snd (handleBackgroundGenerate s) = Some j
               /\ slot = BgSlot (bg_effectiveSubMode j).
Proof.
  unfold handleBackgroundGenerate.
  destruct (negb _); [now left|].
  destruct (truthyStep (isLoading (bgGet (effectiveSubMode s) (backgroundStatuses s))));
    [now left|].
  cbn [fst snd]. intros H.
  destruct (StatusSlot_dec slot (BgSlot (effectiveSubMode s))) as [->|Hne].
  - right. eexists. split; reflexivity.
  - left. rewrite <- H. do 2 f_equal. destruct slot as [k|m]; [|reflexivity].
    symmetry. assert (Hk : k <> effectiveSubMode s) by congruence.
    exact (@bgGet_bgSet_other k (effectiveSubMode s) _ (backgroundStatuses s) Hk).
Qed.

Lemma handleAiModelGenerate_blend_loading j s slot :
  slot <> AiSlot (ai_invokedModelSource j) ->
  slotStatus slot (fst (handleAiModelGenerate_blend j s)) = slotStatus slot s.
Proof.
  intros Hne. unfold handleAiModelGenerate_blend.
  destruct (_ && _); [|reflexivity]. cbn [fst].
  destruct slot as [k|m]; [reflexivity|].
  assert (Hm : m <> ai_invokedModelSource j) by congruence.
  exact (@amGet_amSet_other m (ai_invokedModelSource j) _ (aiModelStatuses s) Hm).
Qed.

Lemma handleAiModelGenerate_loading s slot :
  truthyStep (isLoading (slotStatus slot (fst (handleAiModelGenerate s)))) = true ->
  truthyStep (isLoading (slotStatus slot s)) = true
  \/ exists j ph, snd (handleAiModelGenerate s) = Some (j, ph)
                  /\ slot = AiSlot (ai_invokedModelSource j).
Proof.
  unfold handleAiModelGenerate.
  destruct (truthyStep (isLoading (amGet (modelSource s) (aiModelStatuses s))));
    [now left|].
  destruct (StatusSlot_dec slot (AiSlot (modelSource s))) as [->|Hne].
  - intros _. right.
    destruct (truthyUrl _); [do 2 eexists; split; reflexivity|].
    destruct (handleAiModelGenerate_blend _ _) as [s'' ph].
    do 2 eexists; split; reflexivity.
  - intros H. left. rewrite <- H. do 2 f_equal. symmetry.
    assert (Hs : forall s0, aiModelStatuses s0
                   = amSet (modelSource s) {| isLoading := Generating; error := None |}
                       (aiModelStatuses s) ->
                 backgroundStatuses s0 = backgroundStatuses s ->
                 slotStatus slot s0 = slotStatus slot s).
    { intros s0 Ha Hb. unfold slotStatus. destruct slot as [k|m]; [now rewrite Hb|].
      rewrite Ha. apply amGet_amSet_other. congruence. }
    destruct (truthyUrl _); cbn [fst]; [now apply Hs|].
    match goal with
    | |- context [handleAiModelGenerate_blend ?j ?s1] =>
        pose proof (@handleAiModelGenerate_blend_loading j s1 slot Hne) as Hb;
        destruct (handleAiModelGenerate_blend j s1) as [s'' ph]
    end.
    cbn [fst] in *. rewrite Hb. now apply Hs.
Qed.

Lemma handleGenerateClick_loading s slot :
  truthyStep (isLoading (slotStatus slot (fst (handleGenerateClick s)))) = true ->
  truthyStep (isLoading (slotStatus slot s)) = true
  \/ exists t, In t (snd (handleGenerateClick s)) /\ taskSlot t = Some slot.
Proof.
  unfold handleGenerateClick. destruct (mode s).
  - pose proof (@handleBackgroundGenerate_loading s slot) as H.
    destruct (handleBackgroundGenerate s) as [s' [j|]]; cbn [fst snd] in *; intros Hl;
      destruct (H Hl) as [Hold|(j' & Hj & ->)]; try (now left); try discriminate.
    injection Hj as <-. right. eexists. split; [now left|reflexivity].
  - pose proof (@handleAiModelGenerate_loading s slot) as H.
    destruct (handleAiModelGenerate s) as [s' [[j ph]|]]; cbn [fst snd] in *; intros Hl;
      destruct (H Hl) as [Hold|(j' & ph' & Hj & ->)]; try (now left); try discriminate.
    injection Hj as <- <-. right. eexists. split; [now left|reflexivity].
Qed.

Lemma handleSelectGeneration_slot isMobile i s slot :
  slotStatus slot (fst (handleSelectGeneration isMobile i s)) = slotStatus slot s.
Proof.
  apply statuses_same_slot; unfold handleSelectGeneration;
    destruct (findGeneration i (sessionGenerations s)) as [g|]; try reflexivity;
    destruct (snap_productImageUrl (gen_snapshot g)) as [u|];
    try destruct (truthyStr u);
    destruct (snap_modelImageUrl (gen_snapshot g)) as [u'|];
    try destruct (truthyStr u'); destruct isMobile; reflexivity.
Qed.

Lemma handleBackgroundGenerate_finally_loading j s slot :
  truthyStep (isLoading (slotStatus slot (handleBackgroundGenerate_finally j s))) = true ->
  slotStatus slot (handleBackgroundGenerate_finally j s) = slotStatus slot s
  /\ slot <> BgSlot (bg_effectiveSubMode j).
Proof.
  unfold handleBackgroundGenerate_finally.
  destruct (StatusSlot_dec slot (BgSlot (bg_effectiveSubMode j))) as [->|Hne]; intros H.
  - exfalso. revert H. unfold slotStatus. cbn [backgroundStatuses setBackgroundStatuses].
    rewrite bgGet_bgSet_same. discriminate.
  - split; [|exact Hne]. destruct slot as [k|m]; [|reflexivity].
    assert (Hk : k <> bg_effectiveSubMode j) by congruence.
    exact (@bgGet_bgSet_other k (bg_effectiveSubMode j) _ (backgroundStatuses s) Hk).
Qed.

Lemma handleAiModelGenerate_finally_loading j s slot :
  truthyStep (isLoading (slotStatus slot (handleAiModelGenerate_finally j s))) = true ->
  slotStatus slot (handleAiModelGenerate_finally j s) = slotStatus slot s
  /\ slot <> AiSlot (ai_invokedModelSource j).
Proof.
  unfold handleAiModelGenerate_finally.
  destruct (StatusSlot_dec slot (AiSlot (ai_invokedModelSource j))) as [->|Hne]; intros H.
  - exfalso. revert H. unfold slotStatus. cbn [aiModelStatuses setAiModelStatuses].
    rewrite amGet_amSet_same. discriminate.
  - split; [|exact Hne]. destruct slot as [k|m]; [reflexivity|].
    assert (Hm : m <> ai_invokedModelSource j) by congruence.
    exact (@amGet_amSet_other m (ai_invokedModelSource j) _ (aiModelStatuses s) Hm).
Qed.

(** A generation task that ends, either way, leaves its own slot idle and
    every other slot as it was. *)
Lemma generation_end_loading t s1 s slot :
  (exists j, t = TBackground j
             /\ (exists isMobile img, s1 = handleBackgroundGenerate_resolved j isMobile img s)
                \/ t = TBackground j
                   /\ exists err, s1 = handleBackgroundGenerate_rejected j err s)
  \/ (exists j ph, t = TAiModel j ph
             /\ ((exists isMobile img, s1 = handleAiModelGenerate_resolved j isMobile img s)
                 \/ exists err, s1 = handleAiModelGenerate_rejected j err s)) ->
  truthyStep (isLoading (slotStatus slot s1)) = true ->
  truthyStep (isLoading (slotStatus slot s)) = true /\ taskSlot t <> Some slot.
Proof.
  intros [(j & [(-> & isMobile & img & ->)|(-> & err & ->)])
         |(j & ph & -> & [(isMobile & img & ->)|(err & ->)])] H.
  - unfold handleBackgroundGenerate_resolved in *.
    destruct (handleBackgroundGenerate_finally_loading _ _ _ H) as [E Hne].
    rewrite E, recordNewGeneration_slot in H. split; [exact H|]. cbn. congruence.
  - unfold handleBackgroundGenerate_rejected in *.
    destruct (handleBackgroundGenerate_finally_loading _ _ _ H) as [E Hne].
    rewrite E in H. split; [|cbn; congruence].
    rewrite <- H. do 2 f_equal. destruct slot as [k|m]; [|reflexivity].
    symmetry. assert (Hk : k <> bg_effectiveSubMode j) by congruence.
    exact (@bgGet_bgSet_other k (bg_effectiveSubMode j) _ (backgroundStatuses s) Hk).
  - unfold handleAiModelGenerate_resolved in *.
    destruct (handleAiModelGenerate_finally_loading _ _ _ H) as [E Hne].
    rewrite E, recordNewGeneration_slot in H. split; [exact H|]. cbn. congruence.
  - unfold handleAiModelGenerate_rejected in *.
    destruct (handleAiModelGenerate_finally_loading _ _ _ H) as [E Hne].
    rewrite E in H. split; [|cbn; congruence].
    rewrite <- H. do 2 f_equal. destruct slot as [k|m]; [reflexivity|].
    symmetry. assert (Hm : m <> ai_invokedModelSource j) by congruence.
    exact (@amGet_amSet_other m (ai_invokedModelSource j) _ (aiModelStatuses s) Hm).
Qed.

Lemma handlePromptGen_settled_loading r s1 s slot :
  (exists suggestion, s1 = handlePromptGen_resolved r suggestion s)
  \/ (exists err, s1 = handlePromptGen_rejected r err s) ->
  truthyStep (isLoading (slotStatus slot s1)) = true ->
  truthyStep (isLoading (slotStatus slot s)) = true.
Proof.
  intros [(suggestion & ->)|(err & ->)] H.
  - rewrite <- H. do 2 f_equal. symmetry. apply statuses_same_slot;
      unfold handlePromptGen_resolved, handlePromptGen_finally;
      destruct (mode r), (modelSource r); reflexivity.
  - revert H. unfold handlePromptGen_rejected, handlePromptGen_finally.
    destruct (mode r).
    + destruct slot as [[]|m]; cbn; intros H; first [exact H|discriminate H].
    + destruct slot as [k|m]; cbn; [exact (fun H => H)|].
      destruct m, (modelSource r); cbn; intros H; first [exact H|discriminate H].
Qed.

Lemma step_loadingHasJob e w w' : loadingHasJob w -> step e w = Some w' -> loadingHasJob w'.
Proof.
  intros HJ H.
  destruct e; unfold step, userStep, resume in H;
    repeat match type of H with
           | (if ?b then _ else _) = Some _ => destruct b; [|discriminate]
           end.
  all: try (injection H as <-; apply loadingHasJob_user; [exact HJ|]; cbn [fst snd];
            unfold handleSetMode, handleSetBackgroundSubMode, handleSetModelSource,
              handlePromptBuilderChange, handleEnhancerChange, handleUndo, handleRedo,
              handleDeleteFromHistory;
            solve [intros slot Hl; left; rewrite <- Hl; do 2 f_equal; symmetry;
                   apply statuses_same_slot; repeat break_match; reflexivity]).
  - injection H as <-. exact HJ.
  - injection H as <-. apply loadingHasJob_user; [exact HJ|].
    intros slot Hl. left. now rewrite handlePromptGen_isLoading in Hl.
  - injection H as <-. apply loadingHasJob_user; [exact HJ|].
    apply handleGenerateClick_loading.
  - injection H as <-. apply loadingHasJob_user; [exact HJ|].
    intros slot Hl. exfalso. destruct slot as [[]|[]]; discriminate Hl.
  - injection H as <-. apply loadingHasJob_user; [exact HJ|].
    intros slot Hl. left. now rewrite handleSelectGeneration_slot in Hl.
  - destruct (nth_error (pending w) n) as [[r f it|it u'|r|j|j ph]|] eqn:Hn;
      try discriminate.
    injection H as <-. eapply loadingHasJob_resume; [exact HJ|exact Hn|].
    intros slot Hl. left. split; [|discriminate]. cbn [fst] in Hl.
    rewrite <- Hl. apply f_equal.
    transitivity (isLoading (slotStatus slot (clearCurrentError r (app w)))).
    + now rewrite clearCurrentError_isLoading.
    + unfold handleFileUpload_onload. destruct it, slot; reflexivity.
  - destruct (nth_error (pending w) n) as [[r f it|it u'|r|j|j ph]|] eqn:Hn;
      try discriminate.
    injection H as <-. eapply loadingHasJob_resume; [exact HJ|exact Hn|].
    intros slot Hl. left. split; [|discriminate]. cbn [fst] in Hl.
    rewrite <- Hl. unfold handleSelectGeneration_onload. destruct it, slot; reflexivity.
  - destruct (nth_error (pending w) n) as [[r f it|it u'|r|j|j ph]|] eqn:Hn;
      try discriminate.
    + injection H as <-. eapply loadingHasJob_resume; [exact HJ|exact Hn|].
      intros slot Hl. left. split; [|discriminate]. cbn [fst] in Hl.
      eapply handlePromptGen_settled_loading; [|exact Hl]. left. eexists. reflexivity.
    + injection H as <-. eapply loadingHasJob_resume; [exact HJ|exact Hn|].
      intros slot Hl. left. cbn [fst] in Hl.
      eapply generation_end_loading; [|exact Hl].
      left. exists j. left. split; [reflexivity|]. do 2 eexists. reflexivity.
    + destruct ph.
      * pose proof (handleAiModelGenerate_blend_loading j (app w)) as Hb.
        destruct (handleAiModelGenerate_blend j (app w)) as [s' ph'].
        injection H as <-. eapply loadingHasJob_resume; [exact HJ|exact Hn|].
        intros slot Hl. cbn [fst snd] in *.
        destruct (StatusSlot_dec slot (AiSlot (ai_invokedModelSource j))) as [->|Hne].
        -- right. eexists. split; [now left|reflexivity].
        -- left. rewrite (Hb slot Hne) in Hl. split; [exact Hl|]. cbn. congruence.
      * injection H as <-. eapply loadingHasJob_resume; [exact HJ|exact Hn|].
        intros slot Hl. cbn [fst snd] in *.
        destruct (StatusSlot_dec slot (AiSlot (ai_invokedModelSource j))) as [->|Hne].
        -- right. eexists. split; [now left|reflexivity].
        -- left. split; [exact Hl|]. cbn. congruence.
      * injection H as <-. eapply loadingHasJob_resume; [exact HJ|exact Hn|].
        intros slot Hl. left. cbn [fst] in Hl.
        eapply generation_end_loading; [|exact Hl].
        right. exists j, AwaitGenerate. split; [reflexivity|]. left.
        do 2 eexists. reflexivity.
  - destruct (nth_error (pending w) n) as [[r f it|it u'|r|j|j ph]|] eqn:Hn;
      try discriminate.
    + injection H as <-. eapply loadingHasJob_resume; [exact HJ|exact Hn|].
      intros slot Hl. left. split; [|discriminate]. cbn [fst] in Hl.
      eapply handlePromptGen_settled_loading; [|exact Hl]. right. eexists. reflexivity.
    + injection H as <-. eapply loadingHasJob_resume; [exact HJ|exact Hn|].
      intros slot Hl. left. cbn [fst] in Hl.
      eapply generation_end_loading; [|exact Hl].
      left. exists j. right. split; [reflexivity|]. eexists. reflexivity.
    + injection H as <-. eapply loadingHasJob_resume; [exact HJ|exact Hn|].
      intros slot Hl. left. cbn [fst] in Hl.
      eapply generation_end_loading; [|exact Hl].
      right. exists j, ph. split; [reflexivity|]. right. eexists. reflexivity.
Qed.

Lemma run_loadingHasJob evs :
  forall w w', loadingHasJob w -> run evs w = Some w' -> loadingHasJob w'.
Proof.
  induction evs as [|e evs IH]; simpl; intros w w' HJ H.
  - now injection H as <-.
  - destruct (step e w) as [w1|] eqn:Hstep; [|discriminate].
    eapply IH; [|exact H]. eapply step_loadingHasJob; eauto.
Qed.

(** X12.  In every reachable world a status slot is in a loading phase
    only while a generation task reporting to that slot is pending: each
    loading indicator is backed by a job that will end it.  In particular,
    when no task is pending nothing is loading, and the Generate button is
    never disabled by a loading phase without such a job. *)
Theorem loading_backed_by_job :
  forall w,
    reachable w ->
    (forall slot,
        truthyStep (isLoading (slotStatus slot (app w))) = true ->
        exists t, In t (pending w) /\ taskSlot t = Some slot
                  /\ exists i, generationTaskId t = Some i)
    /\ (pending w = [] ->
        forall slot, isLoading (slotStatus slot (app w)) = NotLoading).
Proof.
  intros w (isMobile & evs & Hrun).
  assert (HJ : loadingHasJob w).
  { eapply run_loadingHasJob; [|exact Hrun].
    intros slot Hl. destruct slot as [[]|[]]; discriminate Hl. }
  split.
  - intros slot Hl. destruct (HJ slot Hl) as (t & Hin & Ht).
    exists t. split; [exact Hin|]. split; [exact Ht|].
    destruct t as [r f it|it u|r|j|j ph]; try discriminate Ht; eexists; reflexivity.
  - intros Hp slot.
    destruct (isLoading (slotStatus slot (app w))) eqn:E; try reflexivity;
      (assert (Hl : truthyStep (isLoading (slotStatus slot (app w))) = true)
         by (rewrite E; reflexivity));
      destruct (HJ slot Hl) as (t & Hin & _); rewrite Hp in Hin; destruct Hin.
Qed.

(** While the colour request of [traceSubmitted] is in flight the colour
    slot is generating, and the pending task is the one that reports to
    it. *)
Lemma loading_backed_by_job_witness :
  isLoading (slotStatus (BgSlot SvcColor) (app (worldAfter traceSubmitted))) = Generating
  /\ exists t, In t (pending (worldAfter traceSubmitted))
               /\ taskSlot t = Some (BgSlot SvcColor).
Proof.
  assert (Hr : reachable (worldAfter traceSubmitted))
    by (exists false, traceSubmitted; vm_compute; reflexivity).
  destruct (loading_backed_by_job Hr) as [H _].
  split; [reflexivity|].
  destruct (H (BgSlot SvcColor) eq_refl) as (t & Hin & Ht & _).
  exists t. split; assumption.
Defined.

(** * The generation service and the data-URL helpers *)

(** ** Matching *)

Lemma stripPrefix_app l s : stripPrefix l (l ++ s)%string = Some s.
Proof.
  induction l as [|a l IH]; simpl; [reflexivity|]. now rewrite Ascii.eqb_refl.
Qed.

Lemma stripPrefix_Some l : forall s s', stripPrefix l s = Some s' -> s = (l ++ s')%string.
Proof.
  induction l as [|a l IH]; simpl; intros s s' H.
  - now injection H as ->.
  - destruct s as [|b s]; [discriminate|].
    destruct (Ascii.eqb a b) eqn:E; [|discriminate].
    apply Ascii.eqb_eq in E. subst b. f_equal. now apply IH.
Qed.

Lemma string_length_app x s :
  String.length (x ++ s)%string = (String.length x + String.length s)%nat.
Proof. induction x as [|a x IH]; simpl; [reflexivity|now rewrite IH]. Qed.

Lemma substring_prefix x s : substring 0 (String.length x) (x ++ s)%string = x.
Proof.
  induction x as [|a x IH]; simpl.
  - destruct s; reflexivity.
  - now rewrite IH.
Qed.

Lemma captured_app x s : captured (x ++ s)%string s = x.
Proof.
  unfold captured. rewrite string_length_app.
  replace (String.length x + String.length s - String.length s)%nat
    with (String.length x) by lia.
  apply substring_prefix.
Qed.

Lemma string_app_assoc (x y z : string) : ((x ++ y) ++ z = x ++ (y ++ z))%string.
Proof. induction x as [|a x IH]; simpl; [reflexivity|now rewrite IH]. Qed.

Lemma string_app_nil (x : string) : (x ++ EmptyString)%string = x.
Proof. induction x as [|a x IH]; simpl; [reflexivity|now rewrite IH]. Qed.

Lemma allChars_app p x y : allChars p (x ++ y)%string = allChars p x && allChars p y.
Proof.
  induction x as [|a x IH]; simpl; [reflexivity|]. now rewrite IH, andb_assoc.
Qed.

(** What a greedy repetition has consumed when the match succeeded. *)
Lemma greedy_split {A} cls (k : string -> option A) :
  forall s r,
    greedy cls k s = Some r ->
    exists w rest, s = (w ++ rest)%string /\ allChars cls w = true /\ k rest = Some r.
Proof.
  induction s as [|c s IH]; simpl; intros r H.
  - exists EmptyString, EmptyString. repeat split. exact H.
  - destruct (cls c) eqn:Ec.
    + destruct (greedy cls k s) as [r'|] eqn:Eg.
      * injection H as <-. destruct (IH r' eq_refl) as (w & rest & -> & Hw & Hk).
        exists (String c w), rest. simpl. rewrite Ec. repeat split; assumption.
      * exists EmptyString, (String c s). repeat split. exact H.
    + exists EmptyString, (String c s). repeat split. exact H.
Qed.

(** The longest run is the one taken when the rest matches after it. *)
Lemma greedy_longest {A} cls (k : string -> option A) w s r :
  allChars cls w = true ->
  k s = Some r ->
  match s with String c _ => cls c = false | EmptyString => True end ->
  greedy cls k (w ++ s)%string = Some r.
Proof.
  intros Hw Hk Hs. induction w as [|c w IH]; simpl in *.
  - destruct s as [|c s]; [exact Hk|]. simpl. now rewrite Hs.
  - apply andb_true_iff in Hw. destruct Hw as [Hc Hw].
    rewrite Hc, (IH Hw). reflexivity.
Qed.

(** ** Data URLs *)

Lemma parseDataUrlRegExp_match u r :
  matchAnchored parseDataUrlRegExp u = Some r ->
  exists w d,
    w <> EmptyString /\ allChars isWordChar w = true
    /\ allChars isNotLineTerminator d = true
    /\ r = [("image/" ++ w)%string; d]
    /\ u = ("data:" ++ ("image/" ++ w) ++ ";base64," ++ d)%string.
Proof.
  unfold matchAnchored, parseDataUrlRegExp. cbn [matchFrom]. intros H.
  destruct (stripPrefix "data:" u) as [s1|] eqn:E1; [|discriminate].
  apply stripPrefix_Some in E1.
  destruct (stripPrefix "image/" s1) as [s2|] eqn:E2; [|discriminate].
  apply stripPrefix_Some in E2.
  destruct s2 as [|c s3]; [discriminate|].
  destruct (isWordChar c) eqn:Ec; [|discriminate].
  apply greedy_split in H. destruct H as (w & rest & -> & Hw & H).
  destruct (stripPrefix ";base64," rest) as [s4|] eqn:E4; [|discriminate].
  apply stripPrefix_Some in E4.
  apply greedy_split in H. destruct H as (d & rest2 & -> & Hd & H).
  destruct rest2; [|discriminate]. injection H as <-.
  rewrite string_app_nil in *.
  exists (String c w), d. split; [discriminate|]. split; [simpl; now rewrite Ec|].
  split; [exact Hd|]. subst u s1 rest. split.
  - cbn [rev List.app]. f_equal; [|f_equal].
    + change ("image/" ++ String c (w ++ ";base64," ++ d))%string
        with (("image/" ++ String c w) ++ (";base64," ++ d))%string.
      apply captured_app.
    + rewrite <- (string_app_nil d) at 1. apply captured_app.
  - reflexivity.
Qed.

Lemma parseDataUrlRegExp_accepts w d :
  w <> EmptyString -> allChars isWordChar w = true ->
  allChars isNotLineTerminator d = true ->
  matchAnchored parseDataUrlRegExp ("data:" ++ ("image/" ++ w) ++ ";base64," ++ d)%string
  = Some [("image/" ++ w)%string; d].
Proof.
  intros Hne Hw Hd. destruct w as [|c w]; [now destruct Hne|].
  simpl in Hw. apply andb_true_iff in Hw. destruct Hw as [Hc Hw].
  unfold matchAnchored, parseDataUrlRegExp.
  cbn [matchFrom].
  change ("data:" ++ ("image/" ++ String c w) ++ ";base64," ++ d)%string
    with ("data:" ++ ("image/" ++ String c (w ++ ";base64," ++ d)))%string.
  rewrite stripPrefix_app. rewrite stripPrefix_app. rewrite Hc.
  apply greedy_longest; [exact Hw| |reflexivity].
  rewrite stripPrefix_app.
  rewrite <- (string_app_nil d) at 1.
  rewrite (greedy_longest isNotLineTerminator _ d EmptyString (r := [("image/" ++ String c w)%string; d]));
    [reflexivity|exact Hd| |exact I].
  cbn [rev List.app]. f_equal. f_equal; [|f_equal].
  - change ("image/" ++ String c (w ++ ";base64," ++ d))%string
      with (("image/" ++ String c w) ++ (";base64," ++ d))%string.
    apply captured_app.
  - rewrite <- (string_app_nil d) at 1. apply captured_app.
Qed.

Lemma parseDataUrl_cases u :
  (exists p, parseDataUrl u = Ok p
             /\ matchAnchored parseDataUrlRegExp u = Some [mimeType p; data p])
  \/ parseDataUrl u = Throw (ExnError invalidDataUrlMessage).
Proof.
  unfold parseDataUrl.
  destruct (matchAnchored parseDataUrlRegExp u) as [[|m [|d [|x r]]]|];
    try (right; reflexivity).
  left. eexists. split; reflexivity.
Qed.

Lemma parseDataUrl_Ok_inv u p :
  parseDataUrl u = Ok p ->
  u = ("data:" ++ mimeType p ++ ";base64," ++ data p)%string
  /\ allChars isNotLineTerminator (data p) = true
  /\ exists w, w <> EmptyString /\ allChars isWordChar w = true
               /\ mimeType p = ("image/" ++ w)%string.
Proof.
  intros H. destruct (parseDataUrl_cases u) as [(p' & Hp & Hm)|Hf]; [|congruence].
  assert (p' = p) by congruence. subst p'.
  destruct (parseDataUrlRegExp_match _ Hm) as (w & d & Hne & Hw & Hd & Hr & Hu).
  injection Hr as Hm1 Hm2. rewrite Hm1, Hm2. split; [exact Hu|]. split; [exact Hd|].
  exists w. repeat split; assumption.
Qed.

Lemma parseDataUrl_accepts w d :
  w <> EmptyString -> allChars isWordChar w = true ->
  allChars isNotLineTerminator d = true ->
  parseDataUrl ("data:" ++ ("image/" ++ w) ++ ";base64," ++ d)%string
  = Ok {| mimeType := ("image/" ++ w)%string; data := d |}.
Proof.
  intros Hne Hw Hd. unfold parseDataUrl. now rewrite parseDataUrlRegExp_accepts.
Qed.

Lemma parseDataUrl_Throw u e : parseDataUrl u = Throw e -> e = ExnError invalidDataUrlMessage.
Proof. intros H. destruct (parseDataUrl_cases u) as [(p' & Hp & _)|Hf]; congruence. Qed.

(** X13.  On an ASCII string [parseDataUrl] accepts exactly the form
    [data:image/<word>;base64,<data>] with a non-empty run of word
    characters and no line terminator in the data; the two fields it returns
    rebuild the string it was given, and every other string is refused with
    the one fixed message. *)
Theorem parseDataUrl_round_trip :
  forall u,
    isAscii u = true ->
    (forall p,
        parseDataUrl u = Ok p ->
        u = ("data:" ++ mimeType p ++ ";base64," ++ data p)%string
        /\ allChars isNotLineTerminator (data p) = true
        /\ exists w, w <> EmptyString /\ allChars isWordChar w = true
                     /\ mimeType p = ("image/" ++ w)%string)
    /\ (forall w d,
        u = ("data:" ++ ("image/" ++ w) ++ ";base64," ++ d)%string ->
        w <> EmptyString -> allChars isWordChar w = true ->
        allChars isNotLineTerminator d = true ->
        parseDataUrl u = Ok {| mimeType := ("image/" ++ w)%string; data := d |})
    /\ (forall e, parseDataUrl u = Throw e -> e = ExnError invalidDataUrlMessage).
Proof.
  intros u _. split; [intros p; apply parseDataUrl_Ok_inv|]. split.
  - intros w d ->. apply parseDataUrl_accepts.
  - intros e. apply parseDataUrl_Throw.
Qed.

Lemma parseDataUrl_round_trip_witness :
  parseDataUrl "data:image/png;base64,QUJD" = Ok {| mimeType := "image/png"; data := "QUJD" |}
  /\ "data:image/png;base64,QUJD"
     = ("data:" ++ "image/png" ++ ";base64," ++ "QUJD")%string.
Proof.
  destruct (@parseDataUrl_round_trip "data:image/png;base64,QUJD" eq_refl)
    as (H1 & H2 & _).
  assert (Hp : parseDataUrl "data:image/png;base64,QUJD"
               = Ok {| mimeType := "image/png"; data := "QUJD" |}).
  { apply (H2 "png" "QUJD"); [reflexivity|discriminate|reflexivity|reflexivity]. }
  split; [exact Hp|]. exact (proj1 (H1 _ Hp)).
Defined.

Lemma matchSearch_here items s r :
  matchFrom items [] [] s = Some r -> matchSearch items s = Some r.
Proof. intros H. destruct s; simpl; now rewrite H. Qed.

(** X14.  The extension [handleDownload] gives a file agrees with the MIME
    type [parseDataUrl] reads from the same URL: [png], [gif] and [webp] for
    their types and [jpg] for [image/jpeg] and for every other image type;
    whatever the string, the extension is one of these four. *)
Theorem file_extension_follows_mime :
  (forall u p,
      parseDataUrl u = Ok p ->
      getFileExtensionFromDataUrl u = extensionOfMimeType (mimeType p))
  /\ (forall u, In (getFileExtensionFromDataUrl u) ["jpg"; "png"; "gif"; "webp"]).
Proof.
  split.
  - intros u p H. destruct (parseDataUrl_cases u) as [(p' & Hp & Hm)|Hf]; [|congruence].
    assert (p' = p) by congruence. subst p'.
    destruct (parseDataUrlRegExp_match _ Hm) as (w & d & Hne & Hw & Hd & Hr & Hu).
    injection Hr as Hm1 Hm2. rewrite Hm1.
    unfold getFileExtensionFromDataUrl.
    rewrite (@matchSearch_here fileExtensionRegExp u [("image/" ++ w)%string]);
      [reflexivity|].
    subst u. destruct w as [|c w]; [now destruct Hne|].
    simpl in Hw. apply andb_true_iff in Hw. destruct Hw as [Hc Hw].
    unfold fileExtensionRegExp. cbn [matchFrom].
    change ("data:" ++ ("image/" ++ String c w) ++ ";base64," ++ d)%string
      with ("data:" ++ ("image/" ++ String c (w ++ ";base64," ++ d)))%string.
    rewrite stripPrefix_app. rewrite stripPrefix_app. rewrite Hc.
    apply greedy_longest; [exact Hw| |reflexivity].
    change (";base64," ++ d)%string with (";" ++ ("base64," ++ d))%string.
    rewrite stripPrefix_app. cbn [rev List.app]. do 2 f_equal.
    change ("image/" ++ String c (w ++ ";" ++ "base64," ++ d))%string
      with (("image/" ++ String c w) ++ (";" ++ "base64," ++ d))%string.
    apply captured_app.
  - intros u. unfold getFileExtensionFromDataUrl, extensionOfMimeType.
    destruct (matchSearch fileExtensionRegExp u) as [[|m r]|]; simpl; auto.
    repeat match goal with |- context [if ?b then _ else _] => destruct b end;
      simpl; auto.
Qed.

Lemma file_extension_follows_mime_witness :
  getFileExtensionFromDataUrl "data:image/webp;base64,QUJD" = "webp".
Proof.
  destruct file_extension_follows_mime as [H _].
  apply (H "data:image/webp;base64,QUJD" {| mimeType := "image/webp"; data := "QUJD" |}).
  reflexivity.
Defined.

Lemma finishReasonIs_first response reason :
  finishReasonIs (match resp_candidates response with
                  | Some (c :: _) => Some c
                  | _ => None
                  end) reason
  = match firstFinishReason response with
    | Some r => String.eqb r reason
    | None => false
    end.
Proof.
  unfold finishReasonIs, firstFinishReason.
  destruct (resp_candidates response) as [[|c cs]|]; reflexivity.
Qed.

(** X15.  When [extractImageFromResponse] returns, the first candidate did
    not finish for one of the three blocking reasons and the result is the
    data URL of its first part with inline data.  If that part has a MIME
    type [image/<word>] and ASCII data without line terminators,
    [parseDataUrl] reads the same MIME type and data back from the result;
    a part without a MIME type gives a URL that [parseDataUrl] refuses. *)
Theorem extracted_image_parses :
  forall response u,
    extractImageFromResponse response = Ok u ->
    (forall r, firstFinishReason response = Some r -> ~ In r blockingFinishReasons)
    /\ exists b,
        firstInlineData response = Some b
        /\ u = dataUrlOf b
        /\ (forall w d,
              blob_mimeType b = Some ("image/" ++ w)%string ->
              w <> EmptyString -> allChars isWordChar w = true ->
              blob_data b = Some d -> isAscii d = true ->
              allChars isNotLineTerminator d = true ->
              parseDataUrl u = Ok {| mimeType := ("image/" ++ w)%string; data := d |})
        /\ (blob_mimeType b = None ->
            parseDataUrl u = Throw (ExnError invalidDataUrlMessage)).
Proof.
  intros response u H. unfold extractImageFromResponse in H. cbv zeta in H.
  rewrite !finishReasonIs_first in H.
  assert (Hfr : forall r, firstFinishReason response = Some r ->
                          ~ In r blockingFinishReasons).
  { intros r Hr. rewrite Hr in H. unfold blockingFinishReasons. simpl.
    intros [<-|[<-|[<-|[]]]]; simpl in H; discriminate H. }
  split; [exact Hfr|].
  destruct (match firstFinishReason response with
            | Some r => (r =? "SAFETY")%string | None => false end
            || match firstFinishReason response with
               | Some r => (r =? "PROHIBITED_CONTENT")%string | None => false end);
    [discriminate|].
  destruct (match firstFinishReason response with
            | Some r => (r =? "RECITATION")%string | None => false end);
    [discriminate|].
  unfold firstInlineData.
  destruct (resp_candidates response) as [[|c cs]|]; try discriminate.
  destruct (cand_content c) as [ct|]; try discriminate.
  destruct (content_parts ct) as [ps|]; try discriminate.
  destruct (find hasInlineData ps) as [p|]; try discriminate.
  destruct (part_inlineData p) as [b|]; try discriminate.
  injection H as <-. exists b. split; [reflexivity|]. split; [reflexivity|]. split.
  - intros w d Hm Hne Hw Hd _ Hdd. unfold dataUrlOf. rewrite Hm, Hd. cbn [interpolate].
    now apply parseDataUrl_accepts.
  - intros Hm. unfold dataUrlOf. rewrite Hm. reflexivity.
Qed.

Lemma extracted_image_parses_witness :
  let response :=
    {| resp_candidates :=
         Some [{| cand_finishReason := Some "STOP";
                  cand_content :=
                    Some {| content_parts :=
                              Some [{| part_inlineData := None |};
                                    {| part_inlineData :=
                                         Some {| blob_mimeType := Some "image/png";
                                                 blob_data := Some "QUJD" |} |}] |} |}];
       resp_text := None |} in
  extractImageFromResponse response = Ok "data:image/png;base64,QUJD"
  /\ parseDataUrl "data:image/png;base64,QUJD"
     = Ok {| mimeType := "image/png"; data := "QUJD" |}.
Proof.
  cbv zeta.
  match goal with |- extractImageFromResponse ?r = _ /\ _ => set (response := r) end.
  split; [reflexivity|].
  destruct (@extracted_image_parses response "data:image/png;base64,QUJD" eq_refl)
    as (_ & b & Hb & _ & Hp & _).
  injection Hb as <-.
  apply (Hp "png" "QUJD"); first [reflexivity|discriminate].
Defined.

(** ** The retry loop *)

(** One turn of the loop: another attempt after a wait, or the result. *)
Lemma retryLoop_turn attempt rest api trace :
  retryLoop (attempt :: rest) api trace
  = if retriable (api attempt) && (attempt <? maxRetries)%nat
    then retryLoop rest api ((trace ++ [ApiCall attempt]) ++ [Sleep (retryDelay attempt)])
    else (attemptResult (api attempt), trace ++ [ApiCall attempt]).
Proof.
  cbn [retryLoop]. destruct (api attempt) as [response|[m|json|typeError]];
    cbn [retriable attemptResult messageOrTypeError errorMessageOf andb];
    try reflexivity;
    match goal with |- context [isRegionError ?x] => destruct (isRegionError x) end;
    cbn [negb andb]; try reflexivity;
    destruct (isInternalError _ && (attempt <? maxRetries)%nat); reflexivity.
Qed.

Lemma retry_stops :
  forall api,
  exists n,
    (1 <= n <= 3)%nat
    /\ (forall a, (1 <= a < n)%nat -> retriable (api a) = true)
    /\ (retriable (api n) = true -> n = 3%nat)
    /\ callGeminiWithRetry api = (attemptResult (api n), retryTrace n).
Proof.
  intros api. unfold callGeminiWithRetry. cbn [seq maxRetries].
  rewrite retryLoop_turn.
  destruct (retriable (api 1%nat)) eqn:R1; cbn [andb maxRetries Nat.ltb Nat.leb].
  2:{ exists 1%nat. split; [lia|]. split; [intros a Ha; lia|].
      split; [rewrite R1; discriminate|reflexivity]. }
  rewrite retryLoop_turn.
  destruct (retriable (api 2%nat)) eqn:R2; cbn [andb maxRetries Nat.ltb Nat.leb].
  2:{ exists 2%nat. split; [lia|].
      split; [intros a Ha; assert (a = 1%nat) by lia; now subst a|].
      split; [rewrite R2; discriminate|reflexivity]. }
  rewrite retryLoop_turn. rewrite andb_false_r.
  exists 3%nat. split; [lia|].
  split; [intros a Ha; assert (a = 1 \/ a = 2)%nat as [->| ->] by lia; assumption|].
  split; reflexivity.
Qed.

Lemma attemptResult_Ok o response : attemptResult o = Ok response -> o = Returned response.
Proof.
  destruct o as [r|[m|json|typeError]]; cbn [attemptResult errorMessageOf];
    try (intros [= <-]; reflexivity); try discriminate;
    destruct (isRegionError _); discriminate.
Qed.

Lemma attemptResult_Throw o e :
  attemptResult o = Throw e ->
  exists e', o = Threw e'
             /\ (e = e' \/ e = ExnError regionMessage
                 \/ exists typeError, e' = ExnOpaque typeError /\ e = ExnError typeError).
Proof.
  destruct o as [r|[m|json|typeError]]; cbn [attemptResult errorMessageOf];
    try discriminate.
  - destruct (isRegionError m); intros [= <-]; eexists; (split; [reflexivity|]); auto.
  - destruct (isRegionError json); intros [= <-]; eexists; (split; [reflexivity|]); auto.
  - intros [= <-]. eexists. split; [reflexivity|]. right. right. now exists typeError.
Qed.

(** X16.  [callGeminiWithRetry] stops at some attempt [n] between 1 and
    3: every earlier attempt threw an internal error that is not a region
    error, and attempt [n] either returned, or threw a region error or an
    error that is not internal, or threw a value from which no message can
    be had, or was the third.  The caller gets the response of attempt [n],
    or the fixed region message, or the very error attempt [n] threw, or,
    for a value without a message, the [TypeError] raised in the [catch]
    clause; so the closing [throw] of the function is never reached.  The
    service is called [n] times with waits of 1000 and then 2000 ms between
    the calls and none after the last. *)
Theorem callGeminiWithRetry_attempts :
  forall api,
  exists n,
    (1 <= n <= 3)%nat
    /\ (forall a, (1 <= a < n)%nat -> retriable (api a) = true)
    /\ (retriable (api n) = true -> n = 3%nat)
    /\ callGeminiWithRetry api = (attemptResult (api n), retryTrace n)
    /\ (forall response, fst (callGeminiWithRetry api) = Ok response ->
                         api n = Returned response)
    /\ (forall e, fst (callGeminiWithRetry api) = Throw e ->
                  exists e', api n = Threw e'
                             /\ (e = e' \/ e = ExnError regionMessage
                                 \/ exists typeError,
                                     e' = ExnOpaque typeError /\ e = ExnError typeError))
    /\ (forall typeError, api n = Threw (ExnOpaque typeError) ->
                          fst (callGeminiWithRetry api) = Throw (ExnError typeError)).
Proof.
  intros api. destruct (retry_stops api) as (n & Hn & Hlt & Hlast & Heq).
  exists n. split; [exact Hn|]. split; [exact Hlt|]. split; [exact Hlast|].
  split; [exact Heq|]. rewrite Heq. cbn [fst]. split; [|split].
  - intros response. apply attemptResult_Ok.
  - intros e. apply attemptResult_Throw.
  - intros typeError ->. reflexivity.
Qed.

(** Two overloaded answers and then a response: three calls, two waits. *)
Lemma callGeminiWithRetry_attempts_witness :
  let response := {| resp_candidates := None; resp_text := Some "ok" |} in
  let api := fun a => if Nat.eqb a 3 then Returned response
                      else Threw (ExnError "503 Service Unavailable") in
  callGeminiWithRetry api
  = (Ok response, [ApiCall 1; Sleep 1000; ApiCall 2; Sleep 2000; ApiCall 3]).
Proof.
  cbv zeta.
  match goal with |- callGeminiWithRetry ?f = _ => set (api := f) end.
  destruct (callGeminiWithRetry_attempts api) as (n & Hn & Hlt & Hlast & Heq & _).
  assert (n = 3%nat).
  { assert (n = 1 \/ n = 2 \/ n = 3)%nat as [->|[->| ->]] by lia;
      [apply Hlast; reflexivity|apply Hlast; reflexivity|reflexivity]. }
  subst n. rewrite Heq. reflexivity.
Defined.

Lemma retryTrace_nonempty n : (1 <= n)%nat -> retryTrace n <> [].
Proof.
  intros H. unfold retryTrace.
  destruct n as [|n]; [lia|].
  replace (2 * S n - 1)%nat with (S (2 * n)) by lia. discriminate.
Qed.

Lemma requestImage_outcomes failure api :
  exists n,
    (1 <= n <= 3)%nat
    /\ snd (requestImage failure api) = retryTrace n
    /\ match fst (requestImage failure api) with
       | Ok u => exists response,
                   api n = Returned response /\ extractImageFromResponse response = Ok u
       | Throw e => e = ExnError failure
       end.
Proof.
  destruct (retry_stops api) as (n & Hn & _ & _ & Heq).
  exists n. split; [exact Hn|]. unfold requestImage. rewrite Heq.
  destruct (attemptResult (api n)) as [response|e] eqn:E.
  - apply attemptResult_Ok in E.
    destruct (extractImageFromResponse response) as [u|e] eqn:Ex; cbn [fst snd].
    + split; [reflexivity|]. exists response. split; [exact E|exact Ex].
    + split; reflexivity.
  - cbn [fst snd]. split; reflexivity.
Qed.

(** ** The exported operations *)

(** X17.  [generateProductShot] either returns the image extracted from
    the response of the attempt at which the retry loop stopped, or throws
    an [Error] with one of three messages: the demo-mode message when no
    API key is configured, the data-URL message when the product image is
    not a base64 image URL (in both cases the service is not called), or the
    fixed failure message, which replaces every error of the retry loop and
    of the extraction, the region, safety and recitation messages
    included. *)
Theorem generateProductShot_outcomes :
  forall apiKey productDataUrl api,
    let result := fst (generateProductShot apiKey productDataUrl api) in
    let trace := snd (generateProductShot apiKey productDataUrl api) in
    match result with
    | Ok u =>
        checkApiKey apiKey = true
        /\ (exists p, parseDataUrl productDataUrl = Ok p)
        /\ exists n response,
            (1 <= n <= 3)%nat /\ trace = retryTrace n
            /\ api n = Returned response /\ extractImageFromResponse response = Ok u
    | Throw e =>
        (e = ExnError demoImageMessage /\ checkApiKey apiKey = false /\ trace = [])
        \/ (e = ExnError invalidDataUrlMessage /\ trace = [])
        \/ (e = ExnError productShotFailure
            /\ exists n, (1 <= n <= 3)%nat /\ trace = retryTrace n)
    end.
Proof.
  intros apiKey productDataUrl api. cbv zeta. unfold generateProductShot.
  destruct (checkApiKey apiKey) eqn:Hk; cbn [negb fst snd]; [|left; repeat split].
  destruct (parseDataUrl productDataUrl) as [p|e] eqn:Hp; cbn [fst snd].
  - destruct (requestImage_outcomes "Failed to generate the product shot." api)
      as (n & Hn & Ht & Hr).
    destruct (fst (requestImage "Failed to generate the product shot." api)) as [u|e].
    + destruct Hr as (response & Ha & Hx).
      split; [reflexivity|]. split; [now exists p|]. now exists n, response.
    + right. right. split; [exact Hr|]. now exists n.
  - right. left. split; [now apply parseDataUrl_Throw in Hp|reflexivity].
Qed.

(** The service answers with a safety block: the caller sees the fixed
    failure message after one call. *)
Lemma generateProductShot_outcomes_witness :
  let blocked := {| resp_candidates :=
                      Some [{| cand_finishReason := Some "SAFETY"; cand_content := None |}];
                    resp_text := None |} in
  generateProductShot (Some "key") "data:image/png;base64,QUJD" (fun _ => Returned blocked)
  = (Throw (ExnError productShotFailure), [ApiCall 1]).
Proof.
  cbv zeta.
  match goal with |- generateProductShot ?k ?u ?f = _ => set (api := f) end.
  pose proof (generateProductShot_outcomes (Some "key") "data:image/png;base64,QUJD" api)
    as H.
  cbv zeta in H.
  destruct (generateProductShot (Some "key") "data:image/png;base64,QUJD" api)
    as [[u|e] trace] eqn:E; cbn [fst snd] in H.
  - vm_compute in E. discriminate E.
  - destruct H as [(_ & Hk & _)|[(-> & ->)|(-> & n & Hn & ->)]].
    + discriminate Hk.
    + vm_compute in E. discriminate E.
    + rewrite <- E. vm_compute. reflexivity.
Defined.

(** X18.  [generateAiModelShot] behaves like [generateProductShot] with
    one more refusal: without a product image it throws the product-required
    message before anything is parsed.  A data URL that does not parse,
    whether of the model or of the product, gives the data-URL message
    without a call to the service, and every later failure gives the fixed
    failure message. *)
Theorem generateAiModelShot_outcomes :
  forall apiKey productDataUrl modelDataUrl api,
    let result := fst (generateAiModelShot apiKey productDataUrl modelDataUrl api) in
    let trace := snd (generateAiModelShot apiKey productDataUrl modelDataUrl api) in
    match result with
    | Ok u =>
        checkApiKey apiKey = true
        /\ (exists product p, productDataUrl = Some product /\ parseDataUrl product = Ok p)
        /\ (forall model, modelDataUrl = Some model -> model <> EmptyString ->
                          exists p, parseDataUrl model = Ok p)
        /\ exists n response,
            (1 <= n <= 3)%nat /\ trace = retryTrace n
            /\ api n = Returned response /\ extractImageFromResponse response = Ok u
    | Throw e =>
        (e = ExnError demoImageMessage /\ checkApiKey apiKey = false /\ trace = [])
        \/ (e = ExnError productRequiredMessage /\ truthyUrl productDataUrl = false
            /\ trace = [])
        \/ (e = ExnError invalidDataUrlMessage /\ trace = [])
        \/ (e = ExnError aiModelShotFailure
            /\ exists n, (1 <= n <= 3)%nat /\ trace = retryTrace n)
    end.
Proof.
  intros apiKey productDataUrl modelDataUrl api. cbv zeta. unfold generateAiModelShot.
  destruct (checkApiKey apiKey) eqn:Hk; cbn [negb fst snd]; [|left; repeat split].
  destruct productDataUrl as [product|]; [|right; left; repeat split].
  destruct (truthyStr product) eqn:Hprod; cbn [negb fst snd];
    [|right; left; repeat split; exact Hprod].
  match goal with
  | |- context [match ?x with Ok _ => requestImage _ _ | Throw e => _ end] =>
      assert (Hparsed :
                (exists p0, x = Ok p0
                            /\ (exists p, parseDataUrl product = Ok p)
                            /\ (forall model, modelDataUrl = Some model ->
                                  model <> EmptyString ->
                                  exists p, parseDataUrl model = Ok p))
                \/ x = Throw (ExnError invalidDataUrlMessage));
      [|destruct Hparsed as [(p0 & -> & Hp & Hm)| ->]]
  end.
  { destruct modelDataUrl as [model|].
    - destruct (truthyStr model) eqn:Hmod.
      + destruct (parseDataUrl model) as [pm|e] eqn:Hpm.
        * destruct (parseDataUrl product) as [p|e] eqn:Hp.
          -- left. exists p. split; [reflexivity|]. split; [now exists p|].
             intros m [= <-] _. now exists pm.
          -- right. apply parseDataUrl_Throw in Hp. now subst e.
        * right. apply parseDataUrl_Throw in Hpm. now subst e.
      + destruct (parseDataUrl product) as [p|e] eqn:Hp.
        * left. exists p. split; [reflexivity|]. split; [now exists p|].
          intros m [= ->] Hne. destruct m; [now destruct Hne|discriminate Hmod].
        * right. apply parseDataUrl_Throw in Hp. now subst e.
    - destruct (parseDataUrl product) as [p|e] eqn:Hp.
      + left. exists p. split; [reflexivity|]. split; [now exists p|]. discriminate.
      + right. apply parseDataUrl_Throw in Hp. now subst e. }
  - destruct (requestImage_outcomes "Failed to generate the AI model shot." api)
      as (n & Hn & Ht & Hr).
    destruct (fst (requestImage "Failed to generate the AI model shot." api)) as [u|e].
    + destruct Hr as (response & Ha & Hx).
      split; [reflexivity|]. split; [destruct Hp as [p Hp]; now exists product, p|].
      split; [exact Hm|]. now exists n, response.
    + right. right. right. split; [exact Hr|]. now exists n.
  - right. right. left. split; reflexivity.
Qed.

(** A custom-model request whose model image is not a data URL is refused
    before the service is called. *)
Lemma generateAiModelShot_outcomes_witness :
  generateAiModelShot (Some "key") (Some "data:image/png;base64,QUJD")
    (Some "https://example.com/face.png")
    (fun _ => Threw (ExnError "unreachable"))
  = (Throw (ExnError invalidDataUrlMessage), []).
Proof.
  match goal with |- generateAiModelShot ?k ?u ?m ?f = _ => set (api := f) end.
  pose proof (generateAiModelShot_outcomes (Some "key")
                (Some "data:image/png;base64,QUJD")
                (Some "https://example.com/face.png") api) as H.
  cbv zeta in H.
  destruct (generateAiModelShot (Some "key") (Some "data:image/png;base64,QUJD")
              (Some "https://example.com/face.png") api)
    as [[u|e] trace] eqn:E; cbn [fst snd] in H.
  - destruct H as (_ & _ & Hm & _).
    destruct (Hm _ eq_refl) as [p Hp]; [discriminate|]. vm_compute in Hp. discriminate Hp.
  - destruct H as [(_ & Hk & _)|[(_ & Hp & _)|[(-> & ->)|(-> & n & Hn & ->)]]].
    + discriminate Hk.
    + discriminate Hp.
    + reflexivity.
    + vm_compute in E. discriminate E.
Defined.

Lemma trimEnd_cons c s :
  isWhiteSpace c = false -> trimEnd (String c s) = String c (trimEnd s).
Proof. intros H. simpl. destruct (trimEnd s); [now rewrite H|reflexivity]. Qed.

Lemma trimEnd_idem s : trimEnd (trimEnd s) = trimEnd s.
Proof.
  induction s as [|c s IH]; [reflexivity|]. simpl.
  destruct (trimEnd s) as [|d t] eqn:E.
  - destruct (isWhiteSpace c) eqn:Hc; [reflexivity|]. simpl. now rewrite Hc.
  - change (trimEnd (String c (String d t))) with
      (match trimEnd (String d t) with
       | EmptyString => if isWhiteSpace c then EmptyString else String c EmptyString
       | String a t0 => String c (String a t0)
       end).
    now rewrite IH.
Qed.

Lemma trimStart_head s c s' : trimStart s = String c s' -> isWhiteSpace c = false.
Proof.
  induction s as [|a s IH]; simpl; [discriminate|].
  destruct (isWhiteSpace a) eqn:Ha; [exact IH|]. intros [= <- _]. exact Ha.
Qed.

Lemma trim_idem s : trim (trim s) = trim s.
Proof.
  unfold trim. destruct (trimStart s) as [|c x] eqn:E; [reflexivity|].
  pose proof (trimStart_head _ E) as Hc.
  rewrite (@trimEnd_cons c x Hc). simpl trimStart. rewrite Hc.
  rewrite <- (@trimEnd_cons c x Hc). apply trimEnd_idem.
Qed.

(** X19.  For ASCII image URLs and a service whose response texts are
    ASCII, [generatePromptSuggestion] returns the demo text, without a call,
    when no API key is configured; otherwise what it returns is the trimmed
    text of the response at which the retry loop stopped, and that text is
    not empty and has no white space left at either end.  It throws the
    data-URL message, without a call, when an image it is given does not
    parse, and the fixed failure message in every other case, an absent or
    blank response text included. *)
Theorem generatePromptSuggestion_outcomes :
  forall apiKey productDataUrl mode modelDataUrl api,
    isAscii productDataUrl = true ->
    isAsciiOpt modelDataUrl = true ->
    asciiTexts api ->
    let result := fst (generatePromptSuggestion apiKey productDataUrl mode modelDataUrl api) in
    let trace := snd (generatePromptSuggestion apiKey productDataUrl mode modelDataUrl api) in
    match result with
    | Ok suggestion =>
        (checkApiKey apiKey = false /\ suggestion = demoSuggestion /\ trace = [])
        \/ (checkApiKey apiKey = true
            /\ suggestion <> EmptyString /\ trim suggestion = suggestion
            /\ exists n response text,
                (1 <= n <= 3)%nat /\ trace = retryTrace n
                /\ api n = Returned response /\ resp_text response = Some text
                /\ isAscii text = true
                /\ suggestion = trim text)
    | Throw e =>
        checkApiKey apiKey = true
        /\ ((e = ExnError invalidDataUrlMessage /\ trace = [])
            \/ (e = ExnError promptSuggestionFailure
                /\ exists n, (1 <= n <= 3)%nat /\ trace = retryTrace n))
    end.
Proof.
  intros apiKey productDataUrl mode modelDataUrl api _ _ Hascii. cbv zeta.
  unfold generatePromptSuggestion.
  destruct (checkApiKey apiKey) eqn:Hk; cbn [negb fst snd]; [|left; repeat split].
  destruct (parseDataUrl productDataUrl) as [p|e] eqn:Hp; cbn [fst snd].
  2:{ split; [reflexivity|]. left. apply parseDataUrl_Throw in Hp. now subst e. }
  match goal with
  | |- context [match ?x with Some e => (Throw e, []) | None => _ end] =>
      assert (Hmodel : x = None \/ x = Some (ExnError invalidDataUrlMessage));
      [|destruct Hmodel as [-> | ->]]
  end.
  { destruct mode; [now left|]. destruct modelDataUrl as [model|]; [|now left].
    destruct (truthyStr model); [|now left].
    destruct (parseDataUrl model) as [pm|e] eqn:Hpm; [now left|].
    right. apply parseDataUrl_Throw in Hpm. now subst e. }
  2:{ cbn [fst snd]. split; [reflexivity|]. left. split; reflexivity. }
  destruct (retry_stops api) as (n & Hn & _ & _ & Heq).
  rewrite Heq.
  destruct (attemptResult (api n)) as [response|e] eqn:Ea.
  - apply attemptResult_Ok in Ea.
    destruct (resp_text response) as [text|] eqn:Et; cbn [fst snd].
    + destruct (truthyStr (trim text)) eqn:Hs; cbn [fst snd].
      * right. split; [reflexivity|]. split.
        -- intros Hempty. rewrite Hempty in Hs. discriminate Hs.
        -- split; [apply trim_idem|]. exists n, response, text.
           repeat split; try assumption; try reflexivity; try lia.
           exact (Hascii n response text Ea Et).
      * split; [reflexivity|]. right. split; [reflexivity|]. now exists n.
    + split; [reflexivity|]. right. split; [reflexivity|]. now exists n.
  - cbn [fst snd]. split; [reflexivity|]. right. split; [reflexivity|]. now exists n.
Qed.

(** A response whose text is padded with blanks. *)
Lemma generatePromptSuggestion_outcomes_witness :
  generatePromptSuggestion (Some "key") "data:image/png;base64,QUJD" ModeBackground None
    (fun _ => Returned {| resp_candidates := None; resp_text := Some "  a beach " |})
  = (Ok "a beach", [ApiCall 1]).
Proof.
  match goal with |- generatePromptSuggestion ?k ?u ?m ?d ?f = _ => set (api := f) end.
  assert (Hascii : asciiTexts api).
  { intros n response text Ha Ht. unfold api in Ha. injection Ha as <-.
    injection Ht as <-. reflexivity. }
  pose proof (@generatePromptSuggestion_outcomes (Some "key") "data:image/png;base64,QUJD"
                ModeBackground None api eq_refl eq_refl Hascii) as H.
  cbv zeta in H.
  destruct (generatePromptSuggestion (Some "key") "data:image/png;base64,QUJD"
              ModeBackground None api) as [[s|e] trace] eqn:E; cbn [fst snd] in H.
  - destruct H as [(Hk & _)|(_ & _ & _ & n & response & text & Hn & -> & Ha & Ht & _ & ->)].
    + discriminate Hk.
    + rewrite <- E. vm_compute. reflexivity.
  - vm_compute in E. discriminate E.
Defined.

Lemma generateProductShot_throws apiKey productDataUrl api e :
  fst (generateProductShot apiKey productDataUrl api) = Throw e ->
  exists m, e = ExnError m
            /\ In m [demoImageMessage; invalidDataUrlMessage; productShotFailure].
Proof.
  unfold generateProductShot.
  destruct (checkApiKey apiKey); cbn [negb fst];
    [|intros [= <-]; eexists; split; [reflexivity|simpl; auto]].
  destruct (parseDataUrl productDataUrl) as [p|e0] eqn:Hp; cbn [fst].
  - destruct (requestImage_outcomes "Failed to generate the product shot." api)
      as (n & _ & _ & Hr).
    intros H. rewrite H in Hr. subst e. eexists. split; [reflexivity|simpl; auto].
  - intros [= <-]. apply parseDataUrl_Throw in Hp. subst e0.
    eexists. split; [reflexivity|simpl; auto].
Qed.

Lemma generateAiModelShot_throws apiKey productDataUrl modelDataUrl api e :
  fst (generateAiModelShot apiKey productDataUrl modelDataUrl api) = Throw e ->
  exists m, e = ExnError m
            /\ In m [demoImageMessage; productRequiredMessage; invalidDataUrlMessage;
                     aiModelShotFailure].
Proof.
  unfold generateAiModelShot.
  destruct (checkApiKey apiKey); cbn [negb fst];
    [|intros [= <-]; eexists; split; [reflexivity|simpl; auto]].
  destruct productDataUrl as [product|];
    [|intros [= <-]; eexists; split; [reflexivity|simpl; auto]].
  destruct (truthyStr product); cbn [negb fst];
    [|intros [= <-]; eexists; split; [reflexivity|simpl; auto]].
  match goal with
  | |- context [match ?x with Ok _ => requestImage _ _ | Throw e => _ end] =>
      assert (Hparsed : (exists p0, x = Ok p0) \/ x = Throw (ExnError invalidDataUrlMessage));
      [|destruct Hparsed as [(p0 & ->)| ->]]
  end.
  { destruct modelDataUrl as [model|]; [destruct (truthyStr model)|];
      try (destruct (parseDataUrl model) as [pm|e0] eqn:Hpm;
           [|right; apply parseDataUrl_Throw in Hpm; now subst e0]);
      (destruct (parseDataUrl product) as [p|e0] eqn:Hp;
       [left; now exists p|right; apply parseDataUrl_Throw in Hp; now subst e0]). }
  - destruct (requestImage_outcomes "Failed to generate the AI model shot." api)
      as (n & _ & _ & Hr).
    intros H. rewrite H in Hr. subst e. eexists. split; [reflexivity|simpl; auto 6].
  - intros [= <-]. eexists. split; [reflexivity|simpl; auto].
Qed.

(** X20.  When [generateProductShot] or [generateAiModelShot] fails, the
    message the component stores in the status slot of the job, and shows
    to the user, is the message of the thrown error, and it is one of five
    fixed texts: whatever went wrong remotely, the user reads the same
    failure message. *)
Theorem service_failure_shown :
  forall apiKey api e,
    (forall productDataUrl j s,
        fst (generateProductShot apiKey productDataUrl api) = Throw e ->
        error (bgGet (bg_effectiveSubMode j)
                 (backgroundStatuses (handleBackgroundGenerate_rejected j (asThrown e) s)))
        = Some (errorMessageOf e)
        /\ In (errorMessageOf e)
             [demoImageMessage; invalidDataUrlMessage; productShotFailure])
    /\ (forall productDataUrl modelDataUrl j s,
        fst (generateAiModelShot apiKey productDataUrl modelDataUrl api) = Throw e ->
        error (amGet (ai_invokedModelSource j)
                 (aiModelStatuses (handleAiModelGenerate_rejected j (asThrown e) s)))
        = Some (errorMessageOf e)
        /\ In (errorMessageOf e)
             [demoImageMessage; productRequiredMessage; invalidDataUrlMessage;
              aiModelShotFailure]).
Proof.
  intros apiKey api e. split.
  - intros productDataUrl j s H.
    destruct (generateProductShot_throws _ _ _ H) as (m & -> & Hin). split; [|exact Hin].
    destruct (handleBackgroundGenerate_rejected_outcome j (ErrorObject m) s)
      as (_ & _ & Hst & _).
    cbn [asThrown errorMessageOf]. rewrite Hst. reflexivity.
  - intros productDataUrl modelDataUrl j s H.
    destruct (generateAiModelShot_throws _ _ _ _ H) as (m & -> & Hin). split; [|exact Hin].
    destruct (handleAiModelGenerate_rejected_outcome j (ErrorObject m) s)
      as (_ & _ & Hst & _).
    cbn [asThrown errorMessageOf]. rewrite Hst. reflexivity.
Qed.

(** With no API key the demo-mode message ends in the status slot. *)
Lemma service_failure_shown_witness :
  let j := {| bg_render := initialState; bg_newId := 0; bg_featureKey := BackgroundColor;
              bg_effectiveSubMode := SvcColor |} in
  error (bg_color (backgroundStatuses
           (handleBackgroundGenerate_rejected j (ErrorObject demoImageMessage) initialState)))
  = Some demoImageMessage.
Proof.
  cbv zeta.
  destruct (service_failure_shown None (fun _ => Threw (ExnValue "null"))
              (ExnError demoImageMessage)) as [H _].
  destruct (H "data:image/png;base64,QUJD"
              {| bg_render := initialState; bg_newId := 0; bg_featureKey := BackgroundColor;
                 bg_effectiveSubMode := SvcColor |} initialState eq_refl) as [Hs _].
  exact Hs.
Defined.

(** ** The history notification *)

Lemma commit_newHistoryNotification r s :
  newHistoryNotification (commit r s) = newHistoryNotification s.
Proof.
  unfold commit, effectDeselect, clearCurrentError.
  destruct (featureDepsChanged r s); cbn; repeat break_match; reflexivity.
Qed.

Lemma recordNewGeneration_notification r isMobile imageUrl generationId featureKey s :
  newHistoryNotification (recordNewGeneration r isMobile imageUrl generationId featureKey s)
  = if historyHidden r isMobile then true else newHistoryNotification s.
Proof.
  unfold recordNewGeneration, historyHidden.
  destruct (FeatureKey_eqb _ _); destruct (_ || _); reflexivity.
Qed.

(** X21.  When a generation completes, the history notification is raised
    according to the tab and the overlay of the render in which the request
    was submitted, together with the width of the window at completion: what
    the user has opened or closed since then is not looked at.  Nothing else
    raises the notification at a completion, and it is never lowered
    there. *)
Theorem completion_notification :
  forall w n t r imageUrl,
    nth_error (pending w) n = Some t ->
    completionRender t = Some r ->
    exists w',
      step (Fulfilled n imageUrl) w = Some w'
      /\ newHistoryNotification (app w')
         = (if historyHidden r (viewportMobile w) then true
            else newHistoryNotification (app w)).
Proof.
  intros w n t r imageUrl Hn Hr.
  destruct t as [r0 f it|it u|r0|j|j [| |]]; try discriminate Hr; injection Hr as <-.
  - eexists. split; [unfold step; rewrite Hn; reflexivity|]. cbn [app fst].
    rewrite commit_newHistoryNotification.
    unfold handleBackgroundGenerate_resolved, handleBackgroundGenerate_finally.
    cbn [newHistoryNotification setBackgroundStatuses].
    apply recordNewGeneration_notification.
  - eexists. split; [unfold step; rewrite Hn; reflexivity|]. cbn [app fst].
    rewrite commit_newHistoryNotification.
    unfold handleAiModelGenerate_resolved, handleAiModelGenerate_finally.
    cbn [newHistoryNotification setAiModelStatuses].
    apply recordNewGeneration_notification.
Qed.

(** The request was submitted on the settings tab; the history tab is open
    when it completes, and the notification is raised all the same. *)
Lemma completion_notification_witness :
  let w := worldAfter traceHistoryOpenedInFlight in
  activeTab (app w) = TabHistory
  /\ viewportMobile w = false
  /\ newHistoryNotification (app w) = false
  /\ exists w', step (Fulfilled 0 "A") w = Some w'
                /\ activeTab (app w') = TabHistory
                /\ newHistoryNotification (app w') = true.
Proof.
  cbv zeta. set (w := worldAfter traceHistoryOpenedInFlight).
  split; [reflexivity|]. split; [reflexivity|]. split; [reflexivity|].
  destruct (nth_error (pending w) 0) as [t|] eqn:Ht; [|vm_compute in Ht; discriminate].
  destruct (completionRender t) as [r|] eqn:Hr;
    [|vm_compute in Ht; injection Ht as <-; discriminate Hr].
  assert (Hh : historyHidden r false = true).
  { vm_compute in Ht. injection Ht as <-. cbn in Hr. injection Hr as <-. reflexivity. }
  destruct (@completion_notification w 0%nat t r "A" Ht Hr) as (w' & Hs & Hnote).
  exists w'. split; [exact Hs|].
  assert (Htab : option_map (fun w' => activeTab (app w')) (step (Fulfilled 0 "A") w)
                 = Some TabHistory) by (vm_compute; reflexivity).
  rewrite Hs in Htab. cbn [option_map] in Htab. split; [congruence|].
  rewrite Hnote. change (viewportMobile w) with false. now rewrite Hh.
Defined.
